(** * Strawberry music player: a shallow embedding of selected components

    The development follows the C++ sources file by file:

    - [GstEnginePipeline]  src/engine/gstenginepipeline.cpp
    - [Logging]            ext/libstrawberry-common/core/logging.cpp
    - [StretchHeaderView]  src/widgets/stretchheaderview.cpp
    - [QobuzStreamURLRequest]  qobuz/qobuzstreamurlrequest.cpp
    - [PlaylistBackend]    src/playlist/playlistbackend.cpp

    Member variables keep their C++ names (with the trailing underscore).
    Calls into Qt, GStreamer and SQLite are calls into libraries outside the
    repository; they appear either as logged effects or as operations of an
    interface the embedding is parametrised over. *)

From Stdlib Require Import Ascii String ZArith Lia Bool List QArith Qround Qabs Qminmax.
From stdpp Require Import base option list gmap strings sorting pretty.

Local Open Scope Z_scope.

(** Pointers: [None] is [nullptr], [Some a] the object at address [a]. *)
Definition ptr := option positive.

Definition QByteArray := list Byte.byte.
Definition QString := string.
Definition QUrl := string.

(** [isEmpty()] of [QList] and [QByteArray]. *)
Definition isEmpty {A} (l : list A) : bool :=
  match l with [] => true | _ => false end.

(** Two's-complement wrap-around of a C++ [int] (32 bit). *)
Definition wrap_int (z : Z) : Z := (z + 2 ^ 31) mod 2 ^ 32 - 2 ^ 31.

(** ** Floating point

    [qreal] and [StretchHeaderView::ColumnWidthType] are C++ [double]s.  The
    embedding does not fix the rounding of their operations: it is
    parametrised over the operations the sources use. *)
Class DoubleOps (double : Type) := {
  d_of_int : Z -> double;                    (* double(i), qreal(i) *)
  d_add : double -> double -> double;
  d_sub : double -> double -> double;
  d_mul : double -> double -> double;
  d_div : double -> double -> double;
  d_eqb : double -> double -> bool;          (* operator== *)
  d_to_int : double -> Z;                    (* conversion to int *)
  d_centi : double;                          (* the literal 0.01 *)
  qRound : double -> Z;                      (* int qRound(double) *)
  qFuzzyCompare : double -> double -> bool;  (* bool qFuzzyCompare(double, double) *)
  d_of_bits : Z -> double;                   (* the double with this IEEE 754 pattern *)
}.

(** The reference instance computes exactly, over the rationals in lowest
    terms.  [qRound] rounds halves up, conversion to [int] truncates, and
    [qFuzzyCompare] is Qt's test
    [qAbs(p1 - p2) * 1000000000000. <= qMin(qAbs(p1), qAbs(p2))].
    Infinities and NaNs have no rational value and decode to 0. *)
Definition Q_to_int (a : Q) : Z :=
  if Qle_bool (inject_Z 0) a then Qfloor a else Qceiling a.

Definition Q_fuzzy (p1 p2 : Q) : bool :=
  Qle_bool (Qmult (Qabs (Qminus p1 p2)) (inject_Z 1000000000000))
           (Qmin (Qabs p1) (Qabs p2)).

Definition Q_scale2 (m e : Z) : Q :=
  if 0 <=? e then inject_Z (m * 2 ^ e)
  else Qred (Qmake m (Z.to_pos (2 ^ (- e)))).

Definition Q_of_bits (bits : Z) : Q :=
  let sign := Z.testbit bits 63 in
  let e := Z.land (Z.shiftr bits 52) 2047 in
  let m := Z.land bits (2 ^ 52 - 1) in
  let mag :=
    if e =? 0 then Q_scale2 m (-1074)
    else if e =? 2047 then inject_Z 0
    else Q_scale2 (2 ^ 52 + m) (e - 1075) in
  if sign then Qred (Qopp mag) else mag.

#[global] Instance DoubleOps_Q : DoubleOps Q := {
  d_of_int := inject_Z;
  d_add := fun a b => Qred (Qplus a b);
  d_sub := fun a b => Qred (Qminus a b);
  d_mul := fun a b => Qred (Qmult a b);
  d_div := fun a b => Qred (Qdiv a b);
  d_eqb := Qeq_bool;
  d_to_int := Q_to_int;
  d_centi := Qmake 1 100;
  qRound := fun a => Qfloor (Qplus a (Qmake 1 2));
  qFuzzyCompare := Q_fuzzy;
  d_of_bits := Q_of_bits;
}.

(** Writing a [double] to a [QDataStream] needs its IEEE 754 pattern. *)
Class DoubleBits (double : Type) := {
  d_to_bits : double -> Z;
}.

(** The reference instance encodes a rational as the double next to it
    towards zero: exactly, when the rational is a normal double.  Values
    below the normal range are flushed to zero and values above it become
    infinity. *)
Definition Q_to_bits (q : Q) : Z :=
  let n := Qnum q in
  let d := Zpos (Qden q) in
  if n =? 0 then 0
  else
    let sign := if n <? 0 then 2 ^ 63 else 0 in
    let a := Z.abs n in
    let e0 := Z.log2 a - Z.log2 d in
    let e := if d * 2 ^ Z.max 0 e0 <=? a * 2 ^ Z.max 0 (- e0)
             then e0 else e0 - 1 in
    let m := (a * 2 ^ Z.max 0 (52 - e)) / (d * 2 ^ Z.max 0 (e - 52)) in
    if e + 1023 <=? 0 then sign
    else if 2047 <=? e + 1023 then sign + 2047 * 2 ^ 52
    else sign + (e + 1023) * 2 ^ 52 + (m - 2 ^ 52).

#[global] Instance DoubleBits_Q : DoubleBits Q := {
  d_to_bits := Q_to_bits;
}.

(* ===================================================================== *)
(** * src/engine/gstenginepipeline.cpp *)
(* ===================================================================== *)

Module GstEnginePipeline.

(** [GstState] and [GstStateChangeReturn] of the GStreamer API. *)
Inductive GstState :=
| GST_STATE_VOID_PENDING
| GST_STATE_NULL
| GST_STATE_READY
| GST_STATE_PAUSED
| GST_STATE_PLAYING.

Inductive GstStateChangeReturn :=
| GST_STATE_CHANGE_FAILURE
| GST_STATE_CHANGE_SUCCESS
| GST_STATE_CHANGE_ASYNC
| GST_STATE_CHANGE_NO_PREROLL.

#[global] Instance GstState_eq_dec : EqDecision GstState.
Proof. solve_decision. Defined.

#[global] Instance GstStateChangeReturn_eq_dec : EqDecision GstStateChangeReturn.
Proof. solve_decision. Defined.

(** [QTimeLine::Direction] and [QTimeLine::State]. *)
Inductive Direction := Forward | Backward.
Inductive TimeLineState := NotRunning | Paused | Running.

#[global] Instance Direction_eq_dec : EqDecision Direction.
Proof. solve_decision. Defined.

#[global] Instance TimeLineState_eq_dec : EqDecision TimeLineState.
Proof. solve_decision. Defined.

(** The part of the [QTimeLine] interface that [StartFader] calls.  A time
    line is a value; every setter returns the updated time line.
    [setCurrentTime] may emit [valueChanged] before it returns;
    [setCurrentTime_valueChanged] lists the values it emits. *)
Class QTimeLineOps (qreal QTimeLine : Type) := {
  QTimeLine_new : Z -> QTimeLine;            (* QTimeLine(int duration) *)
  setDirection : Direction -> QTimeLine -> QTimeLine;
  setEasingCurve : Z -> QTimeLine -> QTimeLine;
  setCurrentTime : Z -> QTimeLine -> QTimeLine;
  setCurrentTime_valueChanged : Z -> QTimeLine -> list qreal;
  resume : QTimeLine -> QTimeLine;
  tl_state : QTimeLine -> TimeLineState;
  tl_duration : QTimeLine -> Z;
  currentTime : QTimeLine -> Z;
  currentValue : QTimeLine -> qreal;
}.

(** A GStreamer bus message, as far as [BufferingMessageReceived] reads it:
    [GST_MESSAGE_SRC] and the percentage [gst_message_parse_buffering]
    returns. *)
Record GstMessage := {
  msg_src : ptr;
  msg_percent : Z;
}.

(** ** Reference instances

    A time line over the exact rationals with the easing curves
    [QEasingCurve::Linear] (shape 0) and [QEasingCurve::InQuad] (shape 1,
    the square of the progress); any other shape is eased linearly.  It
    serves to run the model on concrete inputs. *)

Record RefTimeLine := mkRefTimeLine {
  lt_duration : Z;
  lt_time : Z;
  lt_direction : Direction;
  lt_shape : Z;
  lt_state : TimeLineState;
}.

(** [QTimeLine::setDuration] refuses a duration that is not positive and
    keeps the default of 1000 ms. *)
Definition lt_new (d : Z) : RefTimeLine :=
  mkRefTimeLine (if 0 <? d then d else 1000) 0 Forward 0 NotRunning.

Definition lt_setDirection (dir : Direction) (f : RefTimeLine) :=
  mkRefTimeLine (lt_duration f) (lt_time f) dir (lt_shape f) (lt_state f).

Definition lt_setEasingCurve (shape : Z) (f : RefTimeLine) :=
  mkRefTimeLine (lt_duration f) (lt_time f) (lt_direction f) shape (lt_state f).

Definition lt_setCurrentTime (msec : Z) (f : RefTimeLine) :=
  mkRefTimeLine (lt_duration f) (Z.max 0 (Z.min msec (lt_duration f)))
    (lt_direction f) (lt_shape f) (lt_state f).

Definition lt_resume (f : RefTimeLine) :=
  mkRefTimeLine (lt_duration f) (lt_time f) (lt_direction f) (lt_shape f) Running.

Definition lt_currentValue (f : RefTimeLine) : Q :=
  let progress := Qred (Qdiv (inject_Z (lt_time f)) (inject_Z (lt_duration f))) in
  if lt_shape f =? 1 then Qred (Qmult progress progress) else progress.

(** [valueChanged] is emitted when the value differs from the one before. *)
Definition lt_valueChanged (msec : Z) (f : RefTimeLine) : list Q :=
  let v := lt_currentValue (lt_setCurrentTime msec f) in
  if Qeq_bool (lt_currentValue f) v then [] else [v].

#[global] Instance QTimeLineOps_ref : QTimeLineOps Q RefTimeLine := {
  QTimeLine_new := lt_new;
  setDirection := lt_setDirection;
  setEasingCurve := lt_setEasingCurve;
  setCurrentTime := lt_setCurrentTime;
  setCurrentTime_valueChanged := lt_valueChanged;
  resume := lt_resume;
  tl_state := lt_state;
  tl_duration := lt_duration;
  currentTime := lt_time;
  currentValue := lt_currentValue;
}.

Section Pipeline.

Context {qreal QTimeLine : Type}.
Context `{QR : DoubleOps qreal} `{TL : QTimeLineOps qreal QTimeLine}.

(** [kNsecPerMsec] is a constant of core/timeconstants.h; the embedding
    leaves its value open. *)
Variable kNsecPerMsec : Z.

(** What the pipeline does to the outside: signals it emits and calls into
    GStreamer. [SetState] hands [gst_element_set_state] to a thread pool, so
    only the request is recorded. *)
Inductive Effect :=
| Emit_BufferingStarted
| Emit_BufferingProgress (percent : Z)
| Emit_BufferingFinished
| Emit_EndOfStreamReached (has_next_track : bool)   (* EndOfStreamReached(id(), b) *)
| Call_SetState (s : GstState)
| GObjectSet_uri (obj : ptr) (uri : QByteArray)
| GObjectSet_volume (obj : ptr) (vol : qreal).

(** The member variables of [GstEnginePipeline] the modelled functions use. *)
Record Pipeline := mkPipeline {
  pipeline_ : ptr;
  audioqueue_ : ptr;
  volume_ : ptr;
  buffering_ : bool;
  stream_url_ : QByteArray;
  original_url_ : QUrl;
  end_offset_nanosec_ : Z;
  next_stream_url_ : QByteArray;
  next_original_url_ : QUrl;
  next_beginning_offset_nanosec_ : Z;
  next_end_offset_nanosec_ : Z;
  next_uri_set_ : bool;
  volume_percent_ : Z;
  volume_modifier_ : qreal;
  use_fudge_timer_ : bool;
  fader_ : option QTimeLine;
  fader_fudge_timer_ : bool;                 (* fader_fudge_timer_.isActive() *)
}.

Definition set_buffering_ (b : bool) (p : Pipeline) : Pipeline :=
  mkPipeline (pipeline_ p) (audioqueue_ p) (volume_ p) b
    (stream_url_ p) (original_url_ p) (end_offset_nanosec_ p)
    (next_stream_url_ p) (next_original_url_ p)
    (next_beginning_offset_nanosec_ p) (next_end_offset_nanosec_ p)
    (next_uri_set_ p) (volume_percent_ p) (volume_modifier_ p)
    (use_fudge_timer_ p) (fader_ p) (fader_fudge_timer_ p).

Definition set_next_uri_set_ (b : bool) (p : Pipeline) : Pipeline :=
  mkPipeline (pipeline_ p) (audioqueue_ p) (volume_ p) (buffering_ p)
    (stream_url_ p) (original_url_ p) (end_offset_nanosec_ p)
    (next_stream_url_ p) (next_original_url_ p)
    (next_beginning_offset_nanosec_ p) (next_end_offset_nanosec_ p)
    b (volume_percent_ p) (volume_modifier_ p)
    (use_fudge_timer_ p) (fader_ p) (fader_fudge_timer_ p).

Definition set_next (url : QByteArray) (orig : QUrl) (b e : Z) (p : Pipeline)
  : Pipeline :=
  mkPipeline (pipeline_ p) (audioqueue_ p) (volume_ p) (buffering_ p)
    (stream_url_ p) (original_url_ p) (end_offset_nanosec_ p)
    url orig b e
    (next_uri_set_ p) (volume_percent_ p) (volume_modifier_ p)
    (use_fudge_timer_ p) (fader_ p) (fader_fudge_timer_ p).

Definition set_volume_modifier_ (m : qreal) (p : Pipeline) : Pipeline :=
  mkPipeline (pipeline_ p) (audioqueue_ p) (volume_ p) (buffering_ p)
    (stream_url_ p) (original_url_ p) (end_offset_nanosec_ p)
    (next_stream_url_ p) (next_original_url_ p)
    (next_beginning_offset_nanosec_ p) (next_end_offset_nanosec_ p)
    (next_uri_set_ p) (volume_percent_ p) m
    (use_fudge_timer_ p) (fader_ p) (fader_fudge_timer_ p).

Definition set_fader (f : option QTimeLine) (timer : bool) (fudge : bool)
  (p : Pipeline) : Pipeline :=
  mkPipeline (pipeline_ p) (audioqueue_ p) (volume_ p) (buffering_ p)
    (stream_url_ p) (original_url_ p) (end_offset_nanosec_ p)
    (next_stream_url_ p) (next_original_url_ p)
    (next_beginning_offset_nanosec_ p) (next_end_offset_nanosec_ p)
    (next_uri_set_ p) (volume_percent_ p) (volume_modifier_ p)
    fudge f timer.

(** [has_next_valid_url()] is an inline member declared in
    gstenginepipeline.h: a test on the pipeline's members, which the
    embedding leaves open. *)
Variable has_next_valid_url : Pipeline -> bool.

(** What [gst_element_get_state(pipeline_, &s, &sp, timeout)] answers: the
    return code and the state [s]. *)
Definition GstQuery := (GstStateChangeReturn * GstState)%type.

(** [GstEnginePipeline::state()], lines 1097-1106. *)
Definition state (q : GstQuery) (p : Pipeline) : GstState :=
  match pipeline_ p with
  | None => GST_STATE_NULL
  | Some _ =>
      if decide (fst q = GST_STATE_CHANGE_FAILURE) then GST_STATE_NULL
      else snd q
  end.

(** [GstEnginePipeline::SetState], lines 1108-1110. *)
Definition SetState (s : GstState) : list Effect := [Call_SetState s].

(** [GstEnginePipeline::BufferingMessageReceived], lines 1048-1076. *)
Definition BufferingMessageReceived (q : GstQuery) (msg : GstMessage)
  (p : Pipeline) : Pipeline * list Effect :=
  if negb (bool_decide (msg_src msg = audioqueue_ p)) then (p, [])
  else
    let percent := msg_percent msg in
    let current_state := state q p in
    if (percent =? 0) && bool_decide (current_state = GST_STATE_PLAYING)
       && negb (buffering_ p)
    then (set_buffering_ true p,
          Emit_BufferingStarted :: SetState GST_STATE_PAUSED)
    else if (percent =? 100) && buffering_ p
    then (set_buffering_ false p,
          Emit_BufferingFinished :: SetState GST_STATE_PLAYING)
    else if buffering_ p
    then (p, [Emit_BufferingProgress percent])
    else (p, []).

(** [g_object_set(G_OBJECT(pipeline_), "uri", url, nullptr)]: the call is
    made in the state [p] the instance is in at that moment. *)
Definition g_object_set_uri (url : QByteArray) (p : Pipeline)
  : Pipeline * list Effect :=
  (p, [GObjectSet_uri (pipeline_ p) url]).

(** [GstEnginePipeline::AboutToFinishCallback], lines 755-766. *)
Definition AboutToFinishCallback (p : Pipeline) : Pipeline * list Effect :=
  if has_next_valid_url p && negb (next_uri_set_ p) then
    let p1 := set_next_uri_set_ true p in
    g_object_set_uri (next_stream_url_ p1) p1
  else (p, []).

(** [GstEnginePipeline::SetNextUrl], lines 1288-1295. *)
Definition SetNextUrl (stream_url : QByteArray) (original_url : QUrl)
  (beginning_nanosec end_nanosec : Z) (p : Pipeline) : Pipeline :=
  set_next stream_url original_url beginning_nanosec end_nanosec p.

(** [GstEnginePipeline::StreamStartMessageReceived], lines 854-870: one of
    the places that clear [next_uri_set_]. *)
Definition StreamStartMessageReceived (p : Pipeline) : Pipeline * list Effect :=
  if next_uri_set_ p then
    (mkPipeline (pipeline_ p) (audioqueue_ p) (volume_ p) (buffering_ p)
       (next_stream_url_ p) (next_original_url_ p) (next_end_offset_nanosec_ p)
       [] EmptyString 0 0
       false (volume_percent_ p) (volume_modifier_ p)
       (use_fudge_timer_ p) (fader_ p) (fader_fudge_timer_ p),
     [Emit_EndOfStreamReached true])
  else (p, []).

(** [n] about-to-finish callbacks in a row, with the effects of all of them
    in order. *)
Fixpoint about_to_finish_run (n : nat) (p : Pipeline) : Pipeline * list Effect :=
  match n with
  | O => (p, [])
  | S k =>
      let '(p1, e1) := AboutToFinishCallback p in
      let '(p2, e2) := about_to_finish_run k p1 in
      (p2, e1 ++ e2)
  end.

Definition is_uri_assignment (e : Effect) : bool :=
  match e with GObjectSet_uri _ _ => true | _ => false end.

(** What happens to a pipeline over time: an about-to-finish callback, or
    any other code acting on the members.  [run_events] collects the
    effects of the callbacks. *)
Inductive Event :=
| EvAboutToFinish
| EvOther (f : Pipeline -> Pipeline).

Fixpoint run_events (evs : list Event) (p : Pipeline) : Pipeline * list Effect :=
  match evs with
  | [] => (p, [])
  | EvAboutToFinish :: rest =>
      let '(p1, e1) := AboutToFinishCallback p in
      let '(p2, e2) := run_events rest p1 in
      (p2, e1 ++ e2)
  | EvOther f :: rest => run_events rest (f p)
  end.

(** The event does not clear [next_uri_set_]. *)
Definition keeps_next_uri_set (ev : Event) : Prop :=
  match ev with
  | EvAboutToFinish => True
  | EvOther f => forall p, next_uri_set_ p = true -> next_uri_set_ (f p) = true
  end.

(** [GstEnginePipeline::UpdateVolume], lines 1152-1158. *)
Definition UpdateVolume (p : Pipeline) : list Effect :=
  match volume_ p with
  | None => []
  | Some _ =>
      let vol := d_mul (d_mul (d_of_int (volume_percent_ p))
                                      d_centi) (volume_modifier_ p) in
      [GObjectSet_volume (volume_ p) vol]
  end.

(** [GstEnginePipeline::SetVolumeModifier], lines 1144-1150. *)
Definition SetVolumeModifier (mod_ : qreal) (p : Pipeline)
  : Pipeline * list Effect :=
  match volume_ p with
  | None => (p, [])
  | Some _ =>
      let p1 := set_volume_modifier_ mod_ p in
      (p1, UpdateVolume p1)
  end.

(** The local [duration_msec] of [StartFader]: C++ integer division
    truncates towards zero. *)
Definition duration_msec (duration_nanosec : Z) : Z :=
  Z.quot duration_nanosec kNsecPerMsec.

(** The local [start_time] of [StartFader], lines 1216-1227. *)
Definition start_time (duration_nanosec : Z) (direction : Direction)
  (p : Pipeline) : Z :=
  let d := duration_msec duration_nanosec in
  match fader_ p with
  | Some f =>
      if bool_decide (tl_state f = Running) then
        if d =? tl_duration f then currentTime f
        else
          let time := d_mul (d_of_int d)
                        (d_div (d_of_int (currentTime f))
                                   (d_of_int (tl_duration f))) in
          qRound time
      else if decide (direction = Forward) then 0 else d
  | None => if decide (direction = Forward) then 0 else d
  end.

(** The time line [StartFader] creates, lines 1229-1233, before its current
    time is set.  The constructor takes an [int], so the 64-bit duration is
    narrowed. *)
Definition fresh_fader (duration_nanosec : Z) (direction : Direction)
  (shape : Z) : QTimeLine :=
  setEasingCurve shape
    (setDirection direction
       (QTimeLine_new (wrap_int (duration_msec duration_nanosec)))).

(** The time line after lines 1234-1235: current time set, and resumed. *)
Definition new_fader (duration_nanosec : Z) (direction : Direction)
  (shape : Z) (p : Pipeline) : QTimeLine :=
  resume
    (setCurrentTime (wrap_int (start_time duration_nanosec direction p))
       (fresh_fader duration_nanosec direction shape)).

(** The slot [SetVolumeModifier] run on every value a signal delivers. *)
Fixpoint deliver_valueChanged (values : list qreal) (p : Pipeline)
  : Pipeline * list Effect :=
  match values with
  | [] => (p, [])
  | v :: rest =>
      let '(p1, e1) := SetVolumeModifier v p in
      let '(p2, e2) := deliver_valueChanged rest p1 in
      (p2, e1 ++ e2)
  end.

(** [GstEnginePipeline::StartFader], lines 1212-1242.  [valueChanged] is
    connected to [SetVolumeModifier] before the current time is set, so the
    values [setCurrentTime] emits reach the slot first; the time line's
    later signals come from the event loop, after the call. *)
Definition StartFader (duration_nanosec : Z) (direction : Direction)
  (shape : Z) (use_fudge_timer : bool) (p : Pipeline)
  : Pipeline * list Effect :=
  let t := wrap_int (start_time duration_nanosec direction p) in
  let f0 := fresh_fader duration_nanosec direction shape in
  let f := new_fader duration_nanosec direction shape p in
  let '(p1, e1) :=
    deliver_valueChanged (setCurrentTime_valueChanged t f0)
      (set_fader (Some f) (fader_fudge_timer_ p) (use_fudge_timer_ p) p) in
  let p2 := set_fader (Some f) false use_fudge_timer p1 in
  let '(p3, e3) := SetVolumeModifier (currentValue f) p2 in
  (p3, e1 ++ e3).

(** ** Seeking, state changes and the source element

    The members the functions below use beside those of [Pipeline]; [core]
    holds the latter. *)
Record Members := mkMembers {
  core : Pipeline;
  volume_enabled_ : bool;
  proxy_address_ : QString;
  proxy_authentication_ : bool;
  proxy_user_ : QString;
  proxy_pass_ : QString;
  segment_start_ : Z;                        (* guint64 *)
  ignore_next_seek_ : bool;
  pipeline_is_initialized_ : bool;
  pipeline_is_connected_ : bool;
  pending_seek_nanosec_ : Z;
  last_known_position_ns_ : Z;
  redirect_url_ : QByteArray;
  buffer_consumers_ : list positive;         (* QList<GstBufferConsumer*> *)
  unsupported_analyzer_ : bool;
}.

Definition with_core (c : Pipeline) (m : Members) : Members :=
  mkMembers c (volume_enabled_ m) (proxy_address_ m)
    (proxy_authentication_ m) (proxy_user_ m) (proxy_pass_ m)
    (segment_start_ m) (ignore_next_seek_ m) (pipeline_is_initialized_ m)
    (pipeline_is_connected_ m) (pending_seek_nanosec_ m)
    (last_known_position_ns_ m) (redirect_url_ m) (buffer_consumers_ m)
    (unsupported_analyzer_ m).

Definition with_ignore_next_seek (b : bool) (m : Members) : Members :=
  mkMembers (core m) (volume_enabled_ m) (proxy_address_ m)
    (proxy_authentication_ m) (proxy_user_ m) (proxy_pass_ m)
    (segment_start_ m) b (pipeline_is_initialized_ m)
    (pipeline_is_connected_ m) (pending_seek_nanosec_ m)
    (last_known_position_ns_ m) (redirect_url_ m) (buffer_consumers_ m)
    (unsupported_analyzer_ m).

Definition with_pipeline_is_initialized (b : bool) (m : Members) : Members :=
  mkMembers (core m) (volume_enabled_ m) (proxy_address_ m)
    (proxy_authentication_ m) (proxy_user_ m) (proxy_pass_ m)
    (segment_start_ m) (ignore_next_seek_ m) b
    (pipeline_is_connected_ m) (pending_seek_nanosec_ m)
    (last_known_position_ns_ m) (redirect_url_ m) (buffer_consumers_ m)
    (unsupported_analyzer_ m).

Definition with_pipeline_is_connected (b : bool) (m : Members) : Members :=
  mkMembers (core m) (volume_enabled_ m) (proxy_address_ m)
    (proxy_authentication_ m) (proxy_user_ m) (proxy_pass_ m)
    (segment_start_ m) (ignore_next_seek_ m) (pipeline_is_initialized_ m)
    b (pending_seek_nanosec_ m)
    (last_known_position_ns_ m) (redirect_url_ m) (buffer_consumers_ m)
    (unsupported_analyzer_ m).

Definition with_pending_seek_nanosec (n : Z) (m : Members) : Members :=
  mkMembers (core m) (volume_enabled_ m) (proxy_address_ m)
    (proxy_authentication_ m) (proxy_user_ m) (proxy_pass_ m)
    (segment_start_ m) (ignore_next_seek_ m) (pipeline_is_initialized_ m)
    (pipeline_is_connected_ m) n
    (last_known_position_ns_ m) (redirect_url_ m) (buffer_consumers_ m)
    (unsupported_analyzer_ m).

Definition with_last_known_position_ns (n : Z) (m : Members) : Members :=
  mkMembers (core m) (volume_enabled_ m) (proxy_address_ m)
    (proxy_authentication_ m) (proxy_user_ m) (proxy_pass_ m)
    (segment_start_ m) (ignore_next_seek_ m) (pipeline_is_initialized_ m)
    (pipeline_is_connected_ m) (pending_seek_nanosec_ m)
    n (redirect_url_ m) (buffer_consumers_ m)
    (unsupported_analyzer_ m).

Definition with_redirect_url (u : QByteArray) (m : Members) : Members :=
  mkMembers (core m) (volume_enabled_ m) (proxy_address_ m)
    (proxy_authentication_ m) (proxy_user_ m) (proxy_pass_ m)
    (segment_start_ m) (ignore_next_seek_ m) (pipeline_is_initialized_ m)
    (pipeline_is_connected_ m) (pending_seek_nanosec_ m)
    (last_known_position_ns_ m) u (buffer_consumers_ m)
    (unsupported_analyzer_ m).

Definition with_unsupported_analyzer (b : bool) (m : Members) : Members :=
  mkMembers (core m) (volume_enabled_ m) (proxy_address_ m)
    (proxy_authentication_ m) (proxy_user_ m) (proxy_pass_ m)
    (segment_start_ m) (ignore_next_seek_ m) (pipeline_is_initialized_ m)
    (pipeline_is_connected_ m) (pending_seek_nanosec_ m)
    (last_known_position_ns_ m) (redirect_url_ m) (buffer_consumers_ m)
    b.

(** The converted buffer [HandoffCallback] hands to the consumers: its
    16-bit samples and its duration.  [Unconverted] is the buffer as it
    came. *)
Inductive ScopeBuffer :=
| Unconverted
| Converted (samples16 : list Z) (duration : Z).

(** The effects of the functions of this part: those of [Effect], a queued
    invocation of [Seek] (QMetaObject::invokeMethod with
    Qt::QueuedConnection), and further calls into GStreamer. *)
Inductive Action :=
| Base (e : Effect)
| Queue_Seek (nanosec : Z)
| Call_seek_simple (obj : ptr) (nanosec : Z) (* gst_element_seek_simple(obj, TIME, FLUSH, nanosec) *)
| Send_EOS                                   (* gst_pad_send_event(pad, gst_event_new_eos()) *)
| Emit_Error (message : QString) (domain code : Z)
| GObjectSet_source (prop : string) (value : QString)
| GObjectSet_ssl_strict (value : bool)
| Pad_unlink
| Pad_link
| Pad_set_offset (running_time : Z)
| Pad_add_probe
| Call_ConsumeBuffer (consumer : positive) (buf : ScopeBuffer) (format : QString).

(** The flags [InitFromUrl] writes back to the playbin, lines 235-244:
    [flags] is what [g_object_get] read. *)
Definition playbin_flags (volume_enabled : bool) (flags : Z) : Z :=
  let flags := Z.lor flags 0x00000002 in
  let flags := Z.land flags (Z.lnot 0x00000001) in
  if volume_enabled then Z.lor flags 0x00000010
  else Z.land flags (Z.lnot 0x00000010).

(** [GstEnginePipeline::Seek], lines 1112-1134.  [seek_ok] is what
    [gst_element_seek_simple] returns. *)
Definition Seek (seek_ok : bool) (nanosec : Z) (m : Members)
  : Members * list Action * bool :=
  if ignore_next_seek_ m then (with_ignore_next_seek false m, [], true)
  else if negb (pipeline_is_connected_ m) || negb (pipeline_is_initialized_ m)
  then (with_pending_seek_nanosec nanosec m, [], true)
  else if next_uri_set_ (core m)
  then (with_pending_seek_nanosec nanosec m,
        map Base (SetState GST_STATE_READY), true)
  else
    (with_last_known_position_ns nanosec (with_pending_seek_nanosec (-1) m),
     [Call_seek_simple (pipeline_ (core m)) nanosec], seek_ok).

(** A state-changed message: [msg->src] and the new state
    [gst_message_parse_state_changed] returns (the old and the pending
    state are parsed and not used). *)
Record StateChangedMessage := mkStateChanged {
  sc_src : ptr;
  sc_new_state : GstState;
}.

Definition is_paused_or_playing (s : GstState) : bool :=
  bool_decide (s = GST_STATE_PAUSED) || bool_decide (s = GST_STATE_PLAYING).

(** [GstEnginePipeline::StateChangedMessageReceived], lines 1018-1046. *)
Definition StateChangedMessageReceived (msg : StateChangedMessage)
  (m : Members) : Members * list Action :=
  match pipeline_ (core m) with
  | None => (m, [])
  | Some _ =>
      if negb (bool_decide (sc_src msg = pipeline_ (core m))) then (m, [])
      else
        let new_state := sc_new_state msg in
        let '(m1, e1) :=
          if negb (pipeline_is_initialized_ m) && is_paused_or_playing new_state
          then
            (with_pipeline_is_initialized true m,
             if negb (pending_seek_nanosec_ m =? -1) && pipeline_is_connected_ m
             then [Queue_Seek (pending_seek_nanosec_ m)] else [])
          else (m, []) in
        if pipeline_is_initialized_ m1 && negb (is_paused_or_playing new_state)
        then
          let m2 := with_pipeline_is_initialized false m1 in
          if next_uri_set_ (core m2) && bool_decide (new_state = GST_STATE_READY)
          then
            let c := set_next_uri_set_ false (core m2) in
            (with_core c m2,
             e1 ++ map Base (snd (g_object_set_uri (stream_url_ c) c))
                ++ map Base (SetState GST_STATE_PLAYING))
          else (m2, e1)
        else (m1, e1)
  end.

(** [GstEnginePipeline::NewPadCallback], lines 553-581.  [linked] is
    [GST_PAD_IS_LINKED(audiopad)], [running_time] what
    [gst_segment_to_running_time] returns. *)
Definition NewPadCallback (linked : bool) (running_time : Z) (m : Members)
  : Members * list Action :=
  let m1 := with_pipeline_is_connected true m in
  (m1,
   (if linked then [Pad_unlink] else [])
   ++ [Pad_link; Pad_set_offset running_time; Pad_add_probe]
   ++ (if negb (pending_seek_nanosec_ m1 =? -1) && pipeline_is_initialized_ m1
       then [Queue_Seek (pending_seek_nanosec_ m1)] else [])).

(** The event loop delivering the queued invocations among [acts], in
    order: each one calls [Seek]. *)
Fixpoint deliver_queued (seek_ok : bool) (acts : list Action) (m : Members)
  : Members * list Action :=
  match acts with
  | [] => (m, [])
  | Queue_Seek n :: rest =>
      let '(m1, e1, _) := Seek seek_ok n m in
      let '(m2, e2) := deliver_queued seek_ok rest m1 in
      (m2, e1 ++ e2)
  | _ :: rest => deliver_queued seek_ok rest m
  end.

(** The source element [SourceSetupCallback] gets from the playbin: the
    properties its class has. *)
Record SourceElement := mkSourceElement {
  find_property : string -> bool;            (* g_object_class_find_property *)
}.

(** [GstEnginePipeline::SourceSetupCallback], lines 507-551.  [element] is
    what [g_object_get(bin, "source", ...)] stores, [source_device] what the
    accessor [source_device()] of gstenginepipeline.h returns,
    [application_name] and [application_version] the values of
    [QCoreApplication]. *)
Definition SourceSetupCallback (element : option SourceElement)
  (source_device application_name application_version : QString)
  (m : Members) : Members * list Action :=
  match element with
  | None => (m, [])
  | Some el =>
      let e_device :=
        if find_property el "device"
           && negb (bool_decide (source_device = EmptyString))
        then [GObjectSet_source "device" source_device] else [] in
      let e_agent :=
        if find_property el "user-agent"
        then [GObjectSet_source "user-agent"
                (application_name ++ " " ++ application_version)%string;
              GObjectSet_ssl_strict false]
        else [] in
      let e_proxy :=
        if negb (bool_decide (proxy_address_ m = EmptyString))
           && find_property el "proxy"
        then
          GObjectSet_source "proxy" (proxy_address_ m)
          :: (if proxy_authentication_ m
                 && find_property el "proxy-id"
                 && find_property el "proxy-pw"
                 && negb (bool_decide (proxy_user_ m = EmptyString))
                 && negb (bool_decide (proxy_pass_ m = EmptyString))
              then [GObjectSet_source "proxy-id" (proxy_user_ m);
                    GObjectSet_source "proxy-pw" (proxy_pass_ m)]
              else [])
        else [] in
      if buffering_ (core m)
      then (with_core (set_buffering_ false (core m)) m,
            e_device ++ e_agent ++ e_proxy
            ++ Base Emit_BufferingFinished
               :: map Base (SetState GST_STATE_PLAYING))
      else (m, e_device ++ e_agent ++ e_proxy)
  end.

(** [BufferingMessageReceived], [StreamStartMessageReceived],
    [AboutToFinishCallback] and [SetNextUrl] on the whole set of members. *)
Definition on_core (f : Pipeline -> Pipeline * list Effect) (m : Members)
  : Members * list Action :=
  let '(c, e) := f (core m) in (with_core c m, map Base e).

(** The GStreamer error domains [ErrorMessageReceived] tests for, as quarks:
    [GST_RESOURCE_ERROR] and [GST_STREAM_ERROR] are values of the library. *)
Variable GST_RESOURCE_ERROR GST_STREAM_ERROR : Z.

(** The words mmssrc puts into the debug string of a redirect. *)
Definition redirect_notice : string :=
  "A redirect message was posted on the bus and should have been handled by the application.".

(** [QString::contains(const QString &)]. *)
Fixpoint contains_string (needle s : string) : bool :=
  String.prefix needle s
  || match s with
     | EmptyString => false
     | String _ rest => contains_string needle rest
     end.

(** [GstEnginePipeline::ElementMessageReceived], lines 885-897:
    [structure_name] is the name of the message's structure, [new_location]
    its string field "new-location". *)
Definition ElementMessageReceived (structure_name : string)
  (new_location : QByteArray) (m : Members) : Members :=
  if bool_decide (structure_name = "redirect"%string)
  then with_redirect_url new_location m
  else m.

(** [GstEnginePipeline::ErrorMessageReceived], lines 899-940, as compiled
    where [Q_OS_WIN] is not defined. *)
Definition ErrorMessageReceived (domain code : Z) (message debugstr : QString)
  (m : Members) : list Action :=
  if pipeline_is_initialized_ m && next_uri_set_ (core m)
     && ((domain =? GST_RESOURCE_ERROR) || (domain =? GST_STREAM_ERROR))
  then [Send_EOS]
  else if negb (isEmpty (redirect_url_ m))
          && contains_string redirect_notice debugstr
  then []
  else [Emit_Error message domain code].

(** What happens on the bus and in the playbin's callbacks while a stream
    plays, as far as buffering goes. *)
Inductive BufferingEvent :=
| EvBufferingMessage (q : GstQuery) (msg : GstMessage)
| EvSourceSetup (element : option SourceElement)
    (source_device application_name application_version : QString)
| EvStateChanged (msg : StateChangedMessage).

Definition run_buffering_event (ev : BufferingEvent) (m : Members)
  : Members * list Action :=
  match ev with
  | EvBufferingMessage q msg => on_core (BufferingMessageReceived q msg) m
  | EvSourceSetup el dev name version =>
      SourceSetupCallback el dev name version m
  | EvStateChanged msg => StateChangedMessageReceived msg m
  end.

Fixpoint run_buffering_events (evs : list BufferingEvent) (m : Members)
  : Members * list Action :=
  match evs with
  | [] => (m, [])
  | ev :: rest =>
      let '(m1, e1) := run_buffering_event ev m in
      let '(m2, e2) := run_buffering_events rest m1 in
      (m2, e1 ++ e2)
  end.

(** The buffering signals among [acts] form a correct sequence when read
    from a pipeline whose flag [buffering_] is [open]: [BufferingStarted]
    only while not buffering and followed at once by the request for
    PAUSED, [BufferingFinished] only while buffering and followed at once by
    the request for PLAYING, [BufferingProgress] only while buffering.  The
    result is the flag at the end, [None] when the sequence is not
    correct. *)
Fixpoint buffering_trace (open : bool) (acts : list Action) : option bool :=
  match acts with
  | [] => Some open
  | Base Emit_BufferingStarted :: rest =>
      match rest with
      | Base (Call_SetState GST_STATE_PAUSED) :: rest' =>
          if open then None else buffering_trace true rest'
      | _ => None
      end
  | Base Emit_BufferingFinished :: rest =>
      match rest with
      | Base (Call_SetState GST_STATE_PLAYING) :: rest' =>
          if open then buffering_trace false rest' else None
      | _ => None
      end
  | Base (Emit_BufferingProgress _) :: rest =>
      if open then buffering_trace open rest else None
  | _ :: rest => buffering_trace open rest
  end.

(** ** The scope's buffers

    [HandoffCallback] converts the samples of a buffer to 16 bit before it
    hands the buffer to the consumers.  The mapped memory is a list of
    bytes; a read outside of it has no defined result ([None]). *)

Definition le_unsigned (bs : list Byte.byte) : Z :=
  fold_right (fun b acc => Z.of_N (Byte.to_N b) + 256 * acc) 0 bs.

(** The [n] bytes at offset [off], read as a little-endian number. *)
Definition read_le (off n : nat) (data : list Byte.byte) : option Z :=
  let bs := take n (drop off data) in
  if Nat.eqb (length bs) n then Some (le_unsigned bs) else None.

(** The two's-complement value of a [w]-bit pattern, and the narrowing
    conversion to [int16_t]. *)
Definition to_signed (w : Z) (z : Z) : Z :=
  if z <? 2 ^ (w - 1) then z else z - 2 ^ w.

Definition wrap_int16 (z : Z) : Z := (z + 2 ^ 15) mod 2 ^ 16 - 2 ^ 15.

Definition in_int (z : Z) : bool := (- 2 ^ 31 <=? z) && (z <? 2 ^ 31).

(** [static_cast<int>((map_info.size / sizeof(T)) / channels)]: the division
    is one of [gsize] values (64 bit), so [channels] is converted first;
    dividing by zero has no defined result. *)
Definition sample_count (sizeof_T : Z) (size : Z) (channels : Z) : option Z :=
  if channels =? 0 then None
  else Some (wrap_int ((size / sizeof_T) / (channels mod 2 ^ 64))).

(** [samples * sizeof(int16_t) * channels] and the loop bound
    [samples * channels], computed on [int]: an overflow has no defined
    result, and neither has an allocation of negative size. *)
Definition buf16_sizes (samples channels : Z) : option (Z * Z) :=
  if in_int (samples * 2) && in_int (samples * 2 * channels)
     && in_int (samples * channels) && (0 <=? samples * 2 * channels)
  then Some (samples * 2 * channels, samples * channels)
  else None.

(** [GST_FRAMES_TO_CLOCK_TIME] is a macro of GStreamer, and multiplying a
    [float] by 32768 and narrowing it is left to the compiler: both are
    taken as given.  [float_to_int16] gets the 32-bit pattern of the
    sample. *)
Variable GST_FRAMES_TO_CLOCK_TIME : Z -> Z -> Z.
Variable float_to_int16 : Z -> Z.

(** The loop over 32-bit samples, lines 651-653 and 672-675: [count]
    samples from index [i] on, each narrowed by [narrow]. *)
Fixpoint loop32 (narrow : Z -> Z) (count i : nat) (data : list Byte.byte)
  : option (list Z) :=
  match count with
  | O => Some []
  | S k =>
      match read_le (4 * i) 4 data with
      | None => None
      | Some v =>
          match loop32 narrow k (S i) data with
          | None => None
          | Some rest => Some (narrow v :: rest)
          end
      end
  end.

(** [static_cast<int16_t>(s[i] >> 16)] on the pattern of [s[i]]. *)
Definition narrow_S32LE (v : Z) : Z := wrap_int16 (Z.shiftr (to_signed 32 v) 16).

(** The loop over 24-bit samples, lines 693-697: [s16] is the zeroed output
    array, [i] the index and [off] the offset of [s24] in the mapped
    memory; the loop leaves when [s24] reaches the end. *)
Fixpoint loop24 (fuel i off : nat) (data : list Byte.byte) (s16 : list Z)
  : option (list Z) :=
  match fuel with
  | O => Some s16
  | S k =>
      match read_le (off + 1) 2 data with
      | None => None
      | Some v =>
          let s16' := <[i := to_signed 16 v]> s16 in
          if Nat.leb (length data) (off + 3) then Some s16'
          else loop24 k (S i) (off + 3) data s16'
      end
  end.

(** The conversions of [HandoffCallback], lines 642-704, by format. *)
Definition convert_32 (narrow : Z -> Z) (data : list Byte.byte)
  (channels rate : Z) : option ScopeBuffer :=
  match sample_count 4 (Z.of_nat (length data)) channels with
  | None => None
  | Some samples =>
      match buf16_sizes samples channels with
      | None => None
      | Some (buf16_size, n) =>
          match loop32 narrow (Z.to_nat n) 0 data with
          | None => None
          | Some d =>
              Some (Converted d (GST_FRAMES_TO_CLOCK_TIME buf16_size rate))
          end
      end
  end.

Definition convert_S32LE := convert_32 narrow_S32LE.
Definition convert_F32LE := convert_32 float_to_int16.

Definition convert_S24LE (data : list Byte.byte) (channels rate : Z)
  : option ScopeBuffer :=
  match sample_count 1 (Z.of_nat (length data)) channels with
  | None => None
  | Some samples =>
      match buf16_sizes samples channels with
      | None => None
      | Some (buf16_size, n) =>
          match loop24 (Z.to_nat n) 0 0 data (replicate (Z.to_nat n) 0) with
          | None => None
          | Some d =>
              Some (Converted d (GST_FRAMES_TO_CLOCK_TIME buf16_size rate))
          end
      end
  end.

(** A buffer as [HandoffCallback] reads it. *)
Record GstBuffer := mkGstBuffer {
  GST_BUFFER_TIMESTAMP : Z;                  (* guint64 *)
  GST_BUFFER_DURATION : Z;                   (* guint64 *)
  map_info_data : list Byte.byte;
}.

(** The first part of [HandoffCallback], lines 642-709: the buffer for the
    consumers and the flag [unsupported_analyzer_]. *)
Definition scope_buffer (format : QString) (channels rate : Z)
  (buf : GstBuffer) (m : Members) : option (ScopeBuffer * bool) :=
  if String.prefix "S16LE" format then Some (Unconverted, false)
  else if String.prefix "S32LE" format then
    b ← convert_S32LE (map_info_data buf) channels rate; Some (b, false)
  else if String.prefix "F32LE" format then
    b ← convert_F32LE (map_info_data buf) channels rate; Some (b, false)
  else if String.prefix "S24LE" format then
    b ← convert_S24LE (map_info_data buf) channels rate; Some (b, false)
  else if negb (unsupported_analyzer_ m) then Some (Unconverted, true)
  else Some (Unconverted, unsupported_analyzer_ m).

(** The local [end_time] of [HandoffCallback], lines 637-639: the sum is
    one of [quint64] values, narrowed to [qint64]. *)
Definition end_time (buf : GstBuffer) (m : Members) : Z :=
  let start_time := (GST_BUFFER_TIMESTAMP buf - segment_start_ m) mod 2 ^ 64 in
  to_signed 64 ((start_time + GST_BUFFER_DURATION buf) mod 2 ^ 64).

(** [operator==] of [QByteArray] compares byte by byte. *)
#[local] Instance url_byte_eq_dec : EqDecision Byte.byte := Byte.byte_eq_dec.

(** [GstEnginePipeline::HandoffCallback], lines 623-753. *)
Definition HandoffCallback (format : QString) (channels rate : Z)
  (buf : GstBuffer) (m : Members) : option (Members * list Action) :=
  match scope_buffer format channels rate buf m with
  | None => None
  | Some (b, unsupported) =>
      let m1 := with_unsupported_analyzer unsupported m in
      let consumed :=
        map (fun consumer => Call_ConsumeBuffer consumer b format)
            (buffer_consumers_ m1) in
      let c := core m1 in
      if (0 <? end_offset_nanosec_ c) && (end_offset_nanosec_ c <? end_time buf m1)
      then
        if has_next_valid_url c
           && bool_decide (next_stream_url_ c = stream_url_ c)
           && (next_beginning_offset_nanosec_ c =? end_offset_nanosec_ c)
        then
          Some (with_ignore_next_seek true
                  (with_core
                     (mkPipeline (pipeline_ c) (audioqueue_ c) (volume_ c)
                        (buffering_ c) (stream_url_ c) (original_url_ c)
                        (next_end_offset_nanosec_ c)
                        [] EmptyString 0 0
                        (next_uri_set_ c) (volume_percent_ c)
                        (volume_modifier_ c) (use_fudge_timer_ c) (fader_ c)
                        (fader_fudge_timer_ c)) m1),
                consumed ++ [Base (Emit_EndOfStreamReached true)])
        else Some (m1, consumed ++ [Base (Emit_EndOfStreamReached false)])
      else Some (m1, consumed)
  end.

End Pipeline.

(** ** Concrete pipelines used in the examples *)

(** A pipeline without a volume element (volume control switched off) and
    without a fader; the volume modifier has its initial value 1. *)
Definition pipeline_without_volume : @Pipeline Q RefTimeLine :=
  mkPipeline (Some 1%positive) (Some 2%positive) None false
    [] EmptyString (-1) [] EmptyString (-1) (-1) false
    100 (inject_Z 1) false None false.

(** The same pipeline with a volume element. *)
Definition pipeline_with_volume : @Pipeline Q RefTimeLine :=
  mkPipeline (Some 1%positive) (Some 2%positive) (Some 3%positive) false
    [] EmptyString (-1) [] EmptyString (-1) (-1) false
    100 (inject_Z 1) false None false.

(** A pipeline in the middle of a 4000 ms fade, 1000 ms in. *)
Definition pipeline_fading : @Pipeline Q RefTimeLine :=
  mkPipeline (Some 1%positive) (Some 2%positive) (Some 3%positive) false
    [] EmptyString (-1) [] EmptyString (-1) (-1) false
    100 (Qmake 1 4) false
    (Some (mkRefTimeLine 4000 1000 Forward 0 Running)) false.

(** One reading of [has_next_valid_url()]: some next stream URL is stored. *)
Definition next_url_not_empty (p : @Pipeline Q RefTimeLine) : bool :=
  match next_stream_url_ p with [] => false | _ => true end.

(** The members of a pipeline that is connected and initialised, with one
    buffer consumer and no seek pending. *)
Definition members_playing : @Members Q RefTimeLine :=
  mkMembers pipeline_with_volume true EmptyString false EmptyString EmptyString
    0 false true true (-1) 0 [] [7%positive] false.

(** The same while the playbin already holds the URI of the next track. *)
Definition members_next_assigned : @Members Q RefTimeLine :=
  with_core (set_next_uri_set_ true pipeline_with_volume) members_playing.

(** A track that is one segment of a longer stream: it ends at 1000 ns, and
    the stored next track is the segment of the same stream from 1000 ns to
    2000 ns. *)
Definition members_cue_segment : @Members Q RefTimeLine :=
  with_core
    (mkPipeline (Some 1%positive) (Some 2%positive) (Some 3%positive) false
       [Byte.x61] "a" 1000 [Byte.x61] "a" 1000 2000 false
       100 (inject_Z 1) false None false)
    members_playing.

(** One reading of [GST_FRAMES_TO_CLOCK_TIME]: frames at [rate] per second,
    in nanoseconds. *)
Definition frames_to_nanoseconds (frames rate : Z) : Z :=
  frames * 1000000000 / rate.

(** Two frames of two channels of 32-bit samples (0x00010000, -65536,
    0x7fffffff and 0x00000001) followed by three bytes that make up no
    frame. *)
Definition buffer_S32LE : list Byte.byte :=
  [Byte.x00; Byte.x00; Byte.x01; Byte.x00;
   Byte.x00; Byte.x00; Byte.xff; Byte.xff;
   Byte.xff; Byte.xff; Byte.xff; Byte.x7f;
   Byte.x01; Byte.x00; Byte.x00; Byte.x00;
   Byte.xaa; Byte.xbb; Byte.xcc].

(** One frame of two channels of packed 24-bit samples (0x000100 and
    -256). *)
Definition buffer_S24LE : list Byte.byte :=
  [Byte.x00; Byte.x01; Byte.x00;
   Byte.x00; Byte.xff; Byte.xff].

End GstEnginePipeline.

(* ===================================================================== *)
(** * ext/libstrawberry-common/core/logging.cpp *)
(* ===================================================================== *)

Module Logging.

(** [QString::split(sep)] with the default [Qt::KeepEmptyParts]: the pieces
    between separators, empty ones included; the empty string splits into
    one empty piece. *)
Fixpoint split (sep : ascii) (s : QString) : list QString :=
  match s with
  | EmptyString => [EmptyString]
  | String c rest =>
      if Ascii.eqb c sep then EmptyString :: split sep rest
      else match split sep rest with
           | [] => [String c EmptyString]
           | w :: ws => String c w :: ws
           end
  end.

(** [QStringList::first()] and [QStringList::last()]. *)
Definition first (l : list QString) : QString := hd EmptyString l.
Definition last (l : list QString) : QString := List.last l EmptyString.

(** A reference reading of [QString::toInt(&ok)]: an optional sign followed
    by decimal digits, within the range of [int]. The pair is [(ok, value)];
    the value is 0 when [ok] is false. *)
Definition digit_of (c : ascii) : option Z :=
  let n := Z.of_nat (nat_of_ascii c) in
  if (48 <=? n) && (n <=? 57) then Some (n - 48) else None.

Fixpoint read_digits (s : string) (acc : Z) : option Z :=
  match s with
  | EmptyString => Some acc
  | String c rest =>
      match digit_of c with
      | Some d => read_digits rest (10 * acc + d)
      | None => None
      end
  end.

Definition toInt_decimal (s : QString) : bool * Z :=
  let '(neg, body) :=
    match s with
    | String c rest =>
        if Ascii.eqb c "-" then (true, rest)
        else if Ascii.eqb c "+" then (false, rest)
        else (false, s)
    | EmptyString => (false, s)
    end in
  match body with
  | EmptyString => (false, 0)
  | _ =>
      match read_digits body 0 with
      | Some v =>
          let v' := if neg then - v else v in
          if (- 2 ^ 31 <=? v') && (v' <? 2 ^ 31) then (true, v') else (false, 0)
      | None => (false, 0)
      end
  end.

(** The statics of the namespace: [sDefaultLevel] and [sClassLevels], which
    is a null pointer until [Init] has run. *)
Record Statics := mkStatics {
  sDefaultLevel : Z;
  sClassLevels : option (gmap string Z);
}.

Section SetLevels.

(** [enum Level] is declared in logging.h; the values of the two
    enumerators [SetLevels] names are left open. *)
Variables Level_Error Level_Debug : Z.

(** [QString::toInt(&ok)] of the Qt library, as [(ok, value)]. *)
Variable toInt : QString -> bool * Z.

(** The locals [class_name], [ok] and [level] after lines 186-196. *)
Definition parse_item (item : QString) : QString * bool * Z :=
  let class_level := split ":" item in
  if (length class_level =? 1)%nat then
    let r := toInt (last class_level) in (EmptyString, fst r, snd r)
  else if (length class_level =? 2)%nat then
    let r := toInt (last class_level) in (first class_level, fst r, snd r)
  else (EmptyString, false, Level_Error).

(** One turn of the loop body, lines 184-207, on the default level and the
    map [sClassLevels] points to. *)
Definition apply_item (st : Z * gmap string Z) (item : QString)
  : Z * gmap string Z :=
  let '(class_name, ok, level) := parse_item item in
  if negb ok || (level <? Level_Error) || (level >? Level_Debug) then st
  else if String.eqb class_name EmptyString || String.eqb class_name "*"
  then (level, snd st)
  else (fst st, <[class_name := level]> (snd st)).

(** [logging::SetLevels], lines 179-210. *)
Definition SetLevels (levels : QString) (st : Statics) : Statics :=
  match sClassLevels st with
  | None => st
  | Some m =>
      let r := fold_left apply_item (split "," levels) (sDefaultLevel st, m) in
      mkStatics (fst r) (Some (snd r))
  end.

(** [logging::Init], lines 164-177, as far as the statics go. *)
Definition Init (st : Statics) : Statics :=
  mkStatics (sDefaultLevel st) (Some ∅).

(** The condition the loop body tests before it applies an item, in words:
    one or two colon-separated fields, the last one an integer between
    [Level_Error] and [Level_Debug]; [cn] is the class name (empty when the
    item has one field) and [lv] the level. *)
Definition conforming (item : QString) (cn : QString) (lv : Z) : Prop :=
  let fields := split ":" item in
  ((length fields = 1%nat /\ cn = EmptyString)
   \/ (length fields = 2%nat /\ cn = first fields))
  /\ toInt (last fields) = (true, lv)
  /\ Level_Error <= lv <= Level_Debug.

End SetLevels.

(** ** The logger's header *)

(** [QString::indexOf(QChar)] and [QString::lastIndexOf(QChar)]: the index
    of the first and of the last occurrence, -1 when there is none. *)
Fixpoint indexOf (c : ascii) (s : QString) : Z :=
  match s with
  | EmptyString => -1
  | String a rest =>
      if Ascii.eqb a c then 0
      else let i := indexOf c rest in if i =? -1 then -1 else i + 1
  end.

Fixpoint lastIndexOf (c : ascii) (s : QString) : Z :=
  match s with
  | EmptyString => -1
  | String a rest =>
      let i := lastIndexOf c rest in
      if i =? -1 then (if Ascii.eqb a c then 0 else -1) else i + 1
  end.

(** [QString::lastIndexOf(const QString &str, int from)] for a [from] that
    is not negative: the greatest index not above [from] at which [str]
    occurs, -1 when there is none.  [i] is the index of the first character
    of [s] in the whole string, [best] the greatest index found so far. *)
Fixpoint lastIndexOf_from (str s : QString) (i from best : Z) : Z :=
  let best' := if String.prefix str s && (i <=? from) then i else best in
  match s with
  | EmptyString => best'
  | String _ rest => lastIndexOf_from str rest (i + 1) from best'
  end.

Definition lastIndexOf_string (str s : QString) (from : Z) : Z :=
  lastIndexOf_from str s 0 from (-1).

(** [QString::left(n)]: the whole string when [n] is negative or not less
    than the size.  [QString::mid(position)]: empty when [position] is
    beyond the end. *)
Fixpoint left_nat (n : nat) (s : QString) : QString :=
  match n, s with
  | S k, String c rest => String c (left_nat k rest)
  | _, _ => EmptyString
  end.

Definition left (n : Z) (s : QString) : QString :=
  if n <? 0 then s else left_nat (Z.to_nat n) s.

Fixpoint mid_nat (n : nat) (s : QString) : QString :=
  match n, s with
  | S k, String _ rest => mid_nat k rest
  | _, _ => s
  end.

Definition mid (position : Z) (s : QString) : QString :=
  mid_nat (Z.to_nat position) s.

(** [logging::ParsePrettyFunction], lines 212-233. *)
Definition ParsePrettyFunction (pretty_function : string) : QString :=
  let class_name := pretty_function in
  let paren := indexOf "(" class_name in
  let class_name :=
    if negb (paren =? -1) then
      let colons := lastIndexOf_string "::" class_name paren in
      if negb (colons =? -1) then left colons class_name
      else left paren class_name
    else class_name in
  let space := lastIndexOf " " class_name in
  if negb (space =? -1) then mid (space + 1) class_name else class_name.

(** [QtMsgType], as far as [CreateLogger] uses it. *)
Inductive QtMsgType := QtDebugMsg | QtFatalMsg.

(** What [CreateLogger] writes to the logger it returns: the message type
    the logger is built with, the time, the name of the level and the
    justified location. *)
Record LogHeader := mkLogHeader {
  header_type : QtMsgType;
  header_time : string;
  header_level_name : option string;
  header_function_line : string;
}.

(** [QString::leftJustified(width)]: padded with spaces, never cut. *)
Fixpoint spaces (n : nat) : string :=
  match n with O => EmptyString | S k => String " " (spaces k) end.

Definition leftJustified (width : nat) (s : QString) : QString :=
  (s ++ spaces (width - String.length s))%string.

Section CreateLogger.

(** The enumerators of [enum Level] of logging.h. *)
Variables Level_Fatal Level_Error Level_Warning Level_Info Level_Debug : Z.

(** [QString::number(int)], and the time of day as
    [QDateTime::currentDateTime().toString("hh:mm:ss.zzz")] prints it. *)
Variable number : Z -> QString.
Variable current_time : string.

Definition level_name (level : Z) : option string :=
  if level =? Level_Debug then Some " DEBUG "
  else if level =? Level_Info then Some " INFO  "
  else if level =? Level_Warning then Some " WARN  "
  else if level =? Level_Error then Some " ERROR "
  else if level =? Level_Fatal then Some " FATAL "
  else None.

(** The local [threshold_level] of [CreateLogger], lines 250-254. *)
Definition threshold_level (st : Statics) (filter_category : QString) : Z :=
  match sClassLevels st with
  | Some m =>
      match m !! filter_category with
      | Some level => level
      | None => sDefaultLevel st
      end
  | None => sDefaultLevel st
  end.

(** [logging::CreateLogger], lines 235-278: [None] is the logger [T()]
    that writes nowhere. *)
Definition CreateLogger (st : Statics) (level : Z) (class_name : QString)
  (line : Z) (category : option string) : option LogHeader :=
  let filter_category :=
    match category with Some c => c | None => class_name end in
  if level >? threshold_level st filter_category then None
  else
    let function_line := class_name in
    let function_line :=
      if negb (line =? -1) then (function_line ++ ":" ++ number line)%string
      else function_line in
    let function_line :=
      match category with
      | Some c => (function_line ++ "(" ++ c ++ ")")%string
      | None => function_line
      end in
    Some (mkLogHeader
            (if level =? Level_Fatal then QtFatalMsg else QtDebugMsg)
            current_time (level_name level)
            (leftJustified 32 function_line)).

(** The macro [qCreateLogger], line 354. *)
Definition qCreateLogger (st : Statics) (line : Z) (pretty_function : string)
  (category : option string) (level : Z) : option LogHeader :=
  CreateLogger st level (ParsePrettyFunction pretty_function) line category.

End CreateLogger.

(** The levels every class is held to: the default level and every class
    level lie between [lo] and [hi]. *)
Definition levels_within (lo hi : Z) (st : Statics) : Prop :=
  lo <= sDefaultLevel st <= hi
  /\ forall m cn lv, sClassLevels st = Some m -> m !! cn = Some lv ->
       lo <= lv <= hi.

(** The statics before [Init]: [sDefaultLevel = Level_Debug] (3 with the
    levels numbered from [Level_Error = 0]) and [sClassLevels = nullptr]. *)
Definition statics_at_start : Statics := mkStatics 3 None.

(** [QString::number(int)] prints in base 10. *)
Definition number_decimal (n : Z) : QString := pretty n.

End Logging.

(* ===================================================================== *)
(** * src/widgets/stretchheaderview.cpp *)
(* ===================================================================== *)

(** ** QDataStream, reading

    A stream over a byte array is the list of bytes not yet read.  Integers
    are big-endian.  A read that finds too few bytes yields 0 and leaves the
    stream at its end.  A container is read as a 32-bit count followed by the
    elements; if an element cannot be read the container comes out empty. *)
Module QDataStream.

Definition byte_val (b : Byte.byte) : Z := Z.of_N (Byte.to_N b).

Definition be_unsigned (bs : list Byte.byte) : Z :=
  fold_left (fun acc b => acc * 256 + byte_val b) bs 0.

Definition read_bytes (n : nat) (s : QByteArray) : option (list Byte.byte * QByteArray) :=
  if (n <=? length s)%nat then Some (take n s, drop n s) else None.

Definition atEnd (s : QByteArray) : bool :=
  match s with [] => true | _ => false end.

Definition try_qint32 (s : QByteArray) : option (Z * QByteArray) :=
  match read_bytes 4 s with
  | Some (bs, rest) => Some (wrap_int (be_unsigned bs), rest)
  | None => None
  end.

Definition read_qint32 (s : QByteArray) : Z * QByteArray :=
  default (0, []) (try_qint32 s).

Definition read_quint32 (s : QByteArray) : Z * QByteArray :=
  match read_bytes 4 s with
  | Some (bs, rest) => (be_unsigned bs, rest)
  | None => (0, [])
  end.

Definition read_bool (s : QByteArray) : bool * QByteArray :=
  match read_bytes 1 s with
  | Some (bs, rest) => (negb (be_unsigned bs =? 0), rest)
  | None => (false, [])
  end.

Definition try_double `{DoubleOps double} (s : QByteArray)
  : option (double * QByteArray) :=
  match read_bytes 8 s with
  | Some (bs, rest) => Some (d_of_bits (be_unsigned bs), rest)
  | None => None
  end.

Fixpoint read_elements {A} (rd : QByteArray -> option (A * QByteArray))
  (n : nat) (s : QByteArray) (acc : list A) : list A * QByteArray :=
  match n with
  | O => (acc, s)
  | S k =>
      match rd s with
      | Some (x, rest) => read_elements rd k rest (acc ++ [x])
      | None => ([], [])
      end
  end.

Definition read_QList {A} (rd : QByteArray -> option (A * QByteArray))
  (s : QByteArray) : list A * QByteArray :=
  let '(n, s1) := read_quint32 s in
  read_elements rd (Z.to_nat n) s1 [].

(** Writing, for the examples: a 32-bit integer in big-endian order. *)
Definition byte_of (z : Z) : Byte.byte :=
  default Byte.x00 (Byte.of_N (Z.to_N (z mod 256))).

Definition write_qint32 (z : Z) : QByteArray :=
  [byte_of (Z.shiftr z 24); byte_of (Z.shiftr z 16);
   byte_of (Z.shiftr z 8); byte_of z].

(** ** QDataStream, writing

    [operator<<] appends to the byte array: a [bool] as one byte, a
    [double] as its 64-bit pattern, a [QList] as its 32-bit count followed
    by its elements. *)
Definition write_quint32 (z : Z) : QByteArray := write_qint32 z.

Definition write_bool (b : bool) : QByteArray :=
  [if b then Byte.x01 else Byte.x00].

Definition write_quint64 (z : Z) : QByteArray :=
  write_qint32 (Z.shiftr z 32) ++ write_qint32 z.

Definition write_double `{DoubleBits double} (x : double) : QByteArray :=
  write_quint64 (d_to_bits x).

Definition write_QList {A} (wr : A -> QByteArray) (l : list A) : QByteArray :=
  write_quint32 (Z.of_nat (length l)) ++ concat (map wr l).

End QDataStream.

Module StretchHeaderView.

Import QDataStream.

Definition kMinimumColumnWidth : Z := 10.
Definition kMagicNumber : Z := 0x502c950f.

(** The state [QHeaderView] keeps per section: whether it is hidden, and
    its size (kept while the section is hidden and restored when it is
    shown again). *)
Record HeaderSection := mkSection {
  sec_hidden : bool;
  sec_size : Z;
}.

Inductive Signal := StretchEnabledChanged (enabled : bool).

Section View.

Context {double : Type} `{DO : DoubleOps double}.

(** [ColumnWidthType] is a typedef of stretchheaderview.h. *)
Definition ColumnWidthType := double.

(** The header: the part that lives in the [QHeaderView] base class
    (sections by logical index, the logical indices in visual order, the
    sort indicator, the widget's width) and the members of
    [StretchHeaderView]. *)
Record View := mkView {
  sections : list HeaderSection;
  visual_order : list nat;
  sort_indicator_section : Z;
  sort_indicator_order : Z;
  width : Z;
  stretch_enabled_ : bool;
  column_widths_ : list ColumnWidthType;
}.

Definition with_sections (ss : list HeaderSection) (v : View) : View :=
  mkView ss (visual_order v) (sort_indicator_section v)
    (sort_indicator_order v) (width v) (stretch_enabled_ v) (column_widths_ v).

Definition with_visual_order (vo : list nat) (v : View) : View :=
  mkView (sections v) vo (sort_indicator_section v)
    (sort_indicator_order v) (width v) (stretch_enabled_ v) (column_widths_ v).

Definition with_column_widths (ws : list ColumnWidthType) (v : View) : View :=
  mkView (sections v) (visual_order v) (sort_indicator_section v)
    (sort_indicator_order v) (width v) (stretch_enabled_ v) ws.

Definition with_stretch_enabled (b : bool) (v : View) : View :=
  mkView (sections v) (visual_order v) (sort_indicator_section v)
    (sort_indicator_order v) (width v) b (column_widths_ v).

(** *** QHeaderView *)

Definition count (v : View) : nat := length (sections v).

Definition section_at (v : View) (logical : Z) : option HeaderSection :=
  if logical <? 0 then None else sections v !! Z.to_nat logical.

Definition isSectionHidden (v : View) (logical : Z) : bool :=
  match section_at v logical with
  | Some s => sec_hidden s
  | None => false
  end.

Definition sectionSize (v : View) (logical : Z) : Z :=
  match section_at v logical with
  | Some s => if sec_hidden s then 0 else sec_size s
  | None => 0
  end.

Definition setSectionHidden (logical : Z) (hide : bool) (v : View) : View :=
  if logical <? 0 then v
  else with_sections
         (alter (fun s => mkSection hide (sec_size s)) (Z.to_nat logical)
                (sections v)) v.

Definition hideSection (logical : Z) (v : View) : View :=
  setSectionHidden logical true v.

Definition showSection (logical : Z) (v : View) : View :=
  setSectionHidden logical false v.

Definition resizeSection (logical size : Z) (v : View) : View :=
  if (logical <? 0) || (size <? 0) then v
  else with_sections
         (alter (fun s => mkSection (sec_hidden s) size) (Z.to_nat logical)
                (sections v)) v.

Fixpoint index_of (x : nat) (l : list nat) : option nat :=
  match l with
  | [] => None
  | y :: rest => if (x =? y)%nat then Some O else S <$> index_of x rest
  end.

Definition visualIndex (v : View) (logical : Z) : Z :=
  if (logical <? 0) || (Z.of_nat (count v) <=? logical) then -1
  else match index_of (Z.to_nat logical) (visual_order v) with
       | Some i => Z.of_nat i
       | None => -1
       end.

Definition moveSection (from to : Z) (v : View) : View :=
  if (from <? 0) || (Z.of_nat (count v) <=? from)
     || (to <? 0) || (Z.of_nat (count v) <=? to) then v
  else
    match visual_order v !! Z.to_nat from with
    | Some x =>
        let rest := delete (Z.to_nat from) (visual_order v) in
        with_visual_order
          (take (Z.to_nat to) rest ++ x :: drop (Z.to_nat to) rest) v
    | None => v
    end.

Definition setSortIndicator (logical order : Z) (v : View) : View :=
  mkView (sections v) (visual_order v) logical order (width v)
    (stretch_enabled_ v) (column_widths_ v).

(** *** StretchHeaderView *)

Definition contains (secs : list Z) (i : nat) : bool :=
  existsb (Z.eqb (Z.of_nat i)) secs.

(** The loop of lines 74-77: [column_widths_[i]] for [i < count()]; an
    index past the end of [column_widths_] is an error ([None]). *)
Fixpoint selected_sum_loop (secs : list Z) (ws : list ColumnWidthType)
  (idxs : list nat) (acc : ColumnWidthType) : option ColumnWidthType :=
  match idxs with
  | [] => Some acc
  | i :: rest =>
      if contains secs i then
        match ws !! i with
        | Some w => selected_sum_loop secs ws rest (d_add acc w)
        | None => None
        end
      else selected_sum_loop secs ws rest acc
  end.

(** [StretchHeaderView::NormaliseWidths], lines 65-88. *)
Definition NormaliseWidths (secs : list Z) (v : View) : option View :=
  if negb (stretch_enabled_ v) then Some v
  else
    let total_sum := fold_left d_add (column_widths_ v) (d_of_int 0) in
    match (if isEmpty secs then Some total_sum
           else selected_sum_loop secs (column_widths_ v) (seq 0 (count v))
                  (d_of_int 0)) with
    | None => None
    | Some selected_sum =>
        if negb (d_eqb total_sum (d_of_int 0))
           && negb (qFuzzyCompare total_sum (d_of_int 1))
        then
          let mult := d_div (d_add selected_sum (d_sub (d_of_int 1) total_sum))
                            selected_sum in
          Some (with_column_widths
                  (imap (fun i w => if isEmpty secs || contains secs i
                                    then d_mul w mult else w)
                        (column_widths_ v)) v)
        else Some v
    end.

(** One turn of the loop of [UpdateWidths], lines 96-116. *)
Definition UpdateWidths_step (secs : list Z) (v : View)
  (iw : nat * ColumnWidthType) : View :=
  let i := Z.of_nat (fst iw) in
  let pixels := d_to_int (d_mul (snd iw) (d_of_int (width v))) in
  if negb (isEmpty secs) && negb (contains secs (fst iw)) then v
  else
    let v1 :=
      if (pixels =? 0) && negb (isSectionHidden v i) then hideSection i v
      else if negb (pixels =? 0) && isSectionHidden v i then showSection i v
      else v in
    if negb (pixels =? 0) then resizeSection i pixels v1 else v1.

(** [StretchHeaderView::UpdateWidths], lines 90-118. *)
Definition UpdateWidths (secs : list Z) (v : View) : View :=
  if negb (stretch_enabled_ v) then v
  else fold_left (UpdateWidths_step secs) (imap pair (column_widths_ v)) v.

(** The test of lines 123-129: no section other than [logical] is shown
    with a positive size. *)
Definition all_hidden (logical : Z) (v : View) : bool :=
  forallb (fun i => negb (negb (Z.of_nat i =? logical)
                          && negb (isSectionHidden v (Z.of_nat i))
                          && (sectionSize v (Z.of_nat i) >? 0)))
          (seq 0 (count v)).

(** [column_widths_[logical] = x]; an index out of range is an error. *)
Definition set_column_width (logical : Z) (x : ColumnWidthType) (v : View)
  : option View :=
  if (logical <? 0) || (Z.of_nat (length (column_widths_ v)) <=? logical)
  then None
  else Some (with_column_widths
               (<[Z.to_nat logical := x]> (column_widths_ v)) v).

(** [StretchHeaderView::HideSection], lines 120-143. *)
Definition HideSection (logical : Z) (v : View) : option View :=
  if all_hidden logical v then Some v
  else if negb (stretch_enabled_ v) then Some (hideSection logical v)
  else
    match set_column_width logical (d_of_int 0) v with
    | None => None
    | Some v1 =>
        match NormaliseWidths [] v1 with
        | None => None
        | Some v2 => Some (UpdateWidths [] v2)
        end
    end.

(** A sequence of [HideSection] calls. *)
Fixpoint HideSections (ls : list Z) (v : View) : option View :=
  match ls with
  | [] => Some v
  | l :: rest =>
      match HideSection l v with
      | Some v1 => HideSections rest v1
      | None => None
      end
  end.

(** Some section is shown. *)
Definition some_visible (v : View) : bool :=
  existsb (fun s => negb (sec_hidden s)) (sections v).

(** One turn of the loop of [RestoreState], lines 292-299. *)
Definition restore_column (pixel_widths visual_indices : list Z) (v : View)
  (i : nat) : View :=
  let pw := default 0 (pixel_widths !! i) in
  let vi := default 0 (visual_indices !! i) in
  let v1 := setSectionHidden (Z.of_nat i) (pw <=? kMinimumColumnWidth) v in
  let v2 := moveSection (visualIndex v1 vi) (Z.of_nat i) v1 in
  if negb (stretch_enabled_ v2) then resizeSection (Z.of_nat i) pw v2 else v2.

(** [StretchHeaderView::RestoreState], lines 263-315. *)
Definition RestoreState (sdata : QByteArray) (v : View)
  : bool * View * list Signal :=
  let '(magic_number, s1) := read_qint32 sdata in
  if negb (magic_number =? kMagicNumber) || atEnd s1 then (false, v, [])
  else
    let '(stretch, s2) := read_bool s1 in
    let '(pixel_widths, s3) := read_QList try_qint32 s2 in
    let '(visual_indices, s4) := read_QList try_qint32 s3 in
    let '(widths, s5) := read_QList try_double s4 in
    let '(sort_order, s6) := read_qint32 s5 in
    let '(sort_section, _) := read_qint32 s6 in
    let v1 := with_column_widths widths (with_stretch_enabled stretch v) in
    let v2 := setSortIndicator sort_section sort_order v1 in
    let persisted_column_count :=
      Nat.min (Nat.min (length visual_indices) (length pixel_widths))
              (length widths) in
    let v3 := fold_left (restore_column pixel_widths visual_indices)
                (seq 0 (Nat.min (count v2) persisted_column_count)) v2 in
    let v4 := with_column_widths
                (column_widths_ v3
                 ++ replicate (count v3 - length (column_widths_ v3))
                      (d_of_int 0)) v3 in
    let v5 := if stretch_enabled_ v4 then UpdateWidths [] v4 else v4 in
    (true, v5, [StretchEnabledChanged (stretch_enabled_ v5)]).

(** *** Showing columns, stretch mode, saving *)

Context `{DB : DoubleBits double}.

(** [QHeaderView::logicalIndex]. *)
Definition logicalIndex (v : View) (visual : Z) : Z :=
  if visual <? 0 then -1
  else match visual_order v !! Z.to_nat visual with
       | Some logical => Z.of_nat logical
       | None => -1
       end.

(** The local [visible_count] of [ShowSection], lines 153-158. *)
Definition visible_count (v : View) : Z :=
  Z.of_nat (length (filter (fun i => isSectionHidden v (Z.of_nat i) = false)
                           (seq 0 (count v)))).

(** [StretchHeaderView::ShowSection], lines 145-164. *)
Definition ShowSection (logical : Z) (v : View) : option View :=
  if negb (stretch_enabled_ v) then Some (showSection logical v)
  else
    let w := if visible_count v =? 0 then d_of_int 1
             else d_div (d_of_int 1) (d_of_int (visible_count v)) in
    match set_column_width logical w v with
    | None => None
    | Some v1 =>
        match NormaliseWidths [] v1 with
        | None => None
        | Some v2 => Some (UpdateWidths [] v2)
        end
    end.

(** [StretchHeaderView::SetSectionHidden], lines 166-175. *)
Definition SetSectionHidden (logical : Z) (hidden : bool) (v : View)
  : option View :=
  if hidden then HideSection logical v else ShowSection logical v.

(** [StretchHeaderView::SetStretchEnabled], lines 226-244. *)
Definition SetStretchEnabled (enabled : bool) (v : View)
  : option (View * list Signal) :=
  let v1 := with_stretch_enabled enabled v in
  if enabled then
    let ws := map (fun i => d_div (d_of_int (sectionSize v1 (Z.of_nat i)))
                                  (d_of_int (width v1)))
                  (seq 0 (count v1)) in
    match NormaliseWidths [] (with_column_widths ws v1) with
    | None => None
    | Some v2 => Some (UpdateWidths [] v2, [StretchEnabledChanged enabled])
    end
  else Some (v1, [StretchEnabledChanged enabled]).

(** [StretchHeaderView::ToggleStretchEnabled], lines 222-224. *)
Definition ToggleStretchEnabled (v : View) : option (View * list Signal) :=
  SetStretchEnabled (negb (stretch_enabled_ v)) v.

(** [StretchHeaderView::SetColumnWidth], lines 246-261. *)
Definition SetColumnWidth (logical : Z) (w : ColumnWidthType) (v : View)
  : option View :=
  if negb (stretch_enabled_ v) then Some v
  else
    match set_column_width logical w v with
    | None => None
    | Some v1 =>
        let other_columns :=
          map Z.of_nat
            (filter (fun i => isSectionHidden v1 (Z.of_nat i) = false
                              /\ Z.of_nat i <> logical)
                    (seq 0 (count v1))) in
        NormaliseWidths other_columns v1
    end.

(** [StretchHeaderView::SaveState], lines 317-346. *)
Definition SaveState (v : View) : QByteArray :=
  let pixel_widths :=
    map (fun i => sectionSize v (Z.of_nat i)) (seq 0 (count v)) in
  let visual_indices :=
    map (fun i => logicalIndex v (Z.of_nat i)) (seq 0 (count v)) in
  write_qint32 kMagicNumber
  ++ write_bool (stretch_enabled_ v)
  ++ write_QList write_qint32 pixel_widths
  ++ write_QList write_qint32 visual_indices
  ++ write_QList write_double (column_widths_ v)
  ++ write_qint32 (sort_indicator_order v)
  ++ write_qint32 (sort_indicator_section v).

(** [StretchHeaderView::ResetState], lines 348-384: the byte array it
    returns, and the header with the signal of the [RestoreState] call at
    its end. *)
Definition ResetState (v : View) : QByteArray * View * list Signal :=
  let v1 := with_column_widths
              (replicate (count v)
                 (d_div (d_of_int 1) (d_of_int (Z.of_nat (count v)))))
              (with_stretch_enabled true v) in
  let pixel_widths := replicate (count v1) 10 in
  let visual_indices := replicate (count v1) (Z.of_nat (count v1)) in
  let ret :=
    write_qint32 kMagicNumber
    ++ write_bool (stretch_enabled_ v1)
    ++ write_QList write_qint32 pixel_widths
    ++ write_QList write_qint32 visual_indices
    ++ write_QList write_double (column_widths_ v1)
    ++ write_qint32 0
    ++ write_qint32 0 in
  let '(_, v2, signals) := RestoreState ret v1 in
  (ret, v2, signals).

(** What Qt keeps true of a header with [n] sections: the visual order is
    a permutation of the logical indices below [n]. *)
Definition arranged (vo : list nat) (n : nat) : Prop := vo ≡ₚ seq 0 n.

(** The section [RestoreState] makes of [s] from the saved pixel width. *)
Definition restored_section (stretch : bool) (pixel_width : Z)
  (s : HeaderSection) : HeaderSection :=
  mkSection (pixel_width <=? kMinimumColumnWidth)
            (if stretch then sec_size s else pixel_width).

(** The header after [k] turns of the loop of [RestoreState], lines
    292-299, started on [v0] with the saved widths [pixel_widths] and the
    saved visual order [order]: the first [k] visual positions and the
    first [k] sections are restored, everything else is as in [v0]. *)
Definition restored_up_to (pixel_widths : list Z) (order : list nat)
  (v0 : View) (k : nat) (v : View) : Prop :=
  count v = count v0
  /\ arranged (visual_order v) (count v0)
  /\ take k (visual_order v) = take k order
  /\ stretch_enabled_ v = stretch_enabled_ v0
  /\ column_widths_ v = column_widths_ v0
  /\ sort_indicator_section v = sort_indicator_section v0
  /\ sort_indicator_order v = sort_indicator_order v0
  /\ width v = width v0
  /\ forall j,
       sections v !! j
       = if (j <? k)%nat
         then restored_section (stretch_enabled_ v0)
                (default 0 (pixel_widths !! j)) <$> sections v0 !! j
         else sections v0 !! j.

(** The section one turn of [UpdateWidths] makes of [s] for a column that
    gets [pixels] pixels, lines 106-115. *)
Definition stretched_section (pixels : Z) (s : HeaderSection)
  : HeaderSection :=
  if pixels =? 0 then mkSection true (sec_size s)
  else mkSection false (if pixels <? 0 then sec_size s else pixels).

(** The pixels of a column of proportional width [w], line 98. *)
Definition column_pixels (v : View) (w : ColumnWidthType) : Z :=
  d_to_int (d_mul w (d_of_int (width v))).

(** Two headers that differ at most in the state of their sections. *)
Definition same_frame (v v' : View) : Prop :=
  visual_order v' = visual_order v
  /\ stretch_enabled_ v' = stretch_enabled_ v
  /\ column_widths_ v' = column_widths_ v
  /\ sort_indicator_section v' = sort_indicator_section v
  /\ sort_indicator_order v' = sort_indicator_order v
  /\ width v' = width v
  /\ count v' = count v.

End View.

(** ** Concrete headers used in the examples *)

(** Two shown columns of 100 pixels each in stretch mode, each with half of
    the width, on a widget of width 0. *)
Definition two_columns_width0 : @View Q :=
  mkView [mkSection false 100; mkSection false 100] [0%nat; 1%nat] 0 0
    0 true [Qmake 1 2; Qmake 1 2].

(** The same two columns with stretch mode off on a widget 200 wide. *)
Definition two_columns_fixed : @View Q :=
  mkView [mkSection false 100; mkSection false 100] [0%nat; 1%nat] 0 0
    200 false [].

(** Two shown columns of 50 and 120 pixels, the second one moved to the
    front, sorted by column 1 in descending order, stretch mode off; the
    proportional widths are a half each. *)
Definition two_columns_swapped : @View Q :=
  mkView [mkSection false 50; mkSection false 120] [1%nat; 0%nat] 1 1
    200 false [Qmake 1 2; Qmake 1 2].

(** Three shown columns in stretch mode on a widget 400 wide, with a half
    and two quarters of the width. *)
Definition three_columns_stretch : @View Q :=
  mkView [mkSection false 200; mkSection false 100; mkSection false 100]
    [0%nat; 1%nat; 2%nat] 0 0 400 true [Qmake 1 2; Qmake 1 4; Qmake 1 4].

(** The same with widths that sum up to three quarters. *)
Definition three_columns_short : @View Q :=
  mkView [mkSection false 100; mkSection false 100; mkSection false 100]
    [0%nat; 1%nat; 2%nat] 0 0 400 true [Qmake 1 4; Qmake 1 4; Qmake 1 4].

End StretchHeaderView.

(* ===================================================================== *)
(** * qobuz/qobuzstreamurlrequest.cpp (src/unnamed/part_000) *)
(* ===================================================================== *)

Module QobuzStreamURLRequest.

(** [QJsonValue], as far as the request reads it. *)
Inductive QJsonValue {double : Type} :=
| JsonNull
| JsonBool (b : bool)
| JsonDouble (d : double)
| JsonString (s : QString)
| JsonOther.
Arguments QJsonValue : clear implicits.

(** [Song::FileType] is declared in core/song.h; the request names two of
    its enumerators, the others are told apart by a number. *)
Inductive FileType :=
| FileType_Unknown
| FileType_Stream
| FileType_Other (n : Z).

#[global] Instance FileType_eq_dec : EqDecision FileType.
Proof. solve_decision. Defined.

(** The signal [StreamURLFinished(id, original_url, stream_url, filetype,
    samplerate, bit_depth, duration, error)]; the last argument defaults to
    an empty string. *)
Inductive Signal :=
| StreamURLFinished (id : Z) (original_url stream_url : QUrl)
    (filetype : FileType) (samplerate bit_depth duration : Z) (error : QString).

(** The members of the request. *)
Record Request := mkRequest {
  reply_ : ptr;
  original_url_ : QUrl;
  id_ : Z;
  song_id_ : Z;
  tries_ : Z;
  need_login_ : bool;
  errors_ : list QString;
}.

Definition with_reply (rp : ptr) (r : Request) : Request :=
  mkRequest rp (original_url_ r) (id_ r) (song_id_ r) (tries_ r)
    (need_login_ r) (errors_ r).

Definition with_need_login (b : bool) (r : Request) : Request :=
  mkRequest (reply_ r) (original_url_ r) (id_ r) (song_id_ r) (tries_ r)
    b (errors_ r).

(** [QobuzStreamURLRequest::Error], lines 242-250 (logging left out). *)
Definition Error (error : QString) (r : Request) : Request :=
  if String.eqb error EmptyString then r
  else mkRequest (reply_ r) (original_url_ r) (id_ r) (song_id_ r) (tries_ r)
         (need_login_ r) (errors_ r ++ [error]).

(** No recorded error is the empty string: [Error] never appends one. *)
Definition no_empty_error (r : Request) : Prop :=
  Forall (fun e => e <> EmptyString) (errors_ r).

(** The helpers of the base class report their errors through the virtual
    [Error]. *)
Definition report (errs : list QString) (r : Request) : Request :=
  fold_left (fun r e => Error e r) errs r.

Section Request.

Context {double : Type} `{DO : DoubleOps double}.

Local Abbreviation QJsonObject := (gmap string (QJsonValue double)).

(** What the request asks of its surroundings: the service's login state,
    the helpers [GetReplyData] and [ExtractJsonObj] of [QobuzBaseRequest]
    (each returns its result together with the errors it reported),
    [QUrl::isValid], the suffixes [QMimeDatabase] lists for a MIME type,
    [Song::FiletypeByExtension], and [kNsecPerSec]. *)
Record Surroundings := mkSurroundings {
  authenticated : bool;
  login_sent : bool;
  GetReplyData : positive -> QByteArray * list QString;
  ExtractJsonObj : QByteArray -> QJsonObject * list QString;
  isValid : QUrl -> bool;
  suffixes_for_mime : QString -> list QString;
  FiletypeByExtension : QString -> FileType;
  kNsecPerSec : Z;
}.

(** [QJsonValue::toInt()]: the value if it is a double holding a whole
    number in the range of [int], otherwise 0. *)
Definition toInt (v : option (QJsonValue double)) : Z :=
  match v with
  | Some (JsonDouble d) =>
      let i := d_to_int d in
      if d_eqb (d_of_int i) d && (- 2 ^ 31 <=? i) && (i <? 2 ^ 31) then i
      else 0
  | _ => 0
  end.

(** [static_cast<int>(value.toDouble())]. *)
Definition toDouble_int (v : option (QJsonValue double)) : Z :=
  match v with
  | Some (JsonDouble d) => d_to_int d
  | _ => 0
  end.

Definition toString (v : option (QJsonValue double)) : QString :=
  match v with
  | Some (JsonString s) => s
  | _ => EmptyString
  end.

Definition contains (obj : QJsonObject) (key : string) : bool :=
  bool_decide (is_Some (obj !! key)).

(** The loop of lines 209-212 with the default of lines 213-216. *)
Fixpoint first_known_filetype (env : Surroundings) (suffixes : list QString)
  : FileType :=
  match suffixes with
  | [] => FileType_Unknown
  | suffix :: rest =>
      let filetype := FiletypeByExtension env suffix in
      if bool_decide (filetype <> FileType_Unknown) then filetype
      else first_known_filetype env rest
  end.

Definition filetype_for (env : Surroundings) (mimetype : QString) : FileType :=
  let filetype := first_known_filetype env (suffixes_for_mime env mimetype) in
  if bool_decide (filetype = FileType_Unknown) then FileType_Stream
  else filetype.

(** [emit StreamURLFinished(id_, original_url_, original_url_, filetype,
    -1, -1, -1, errors_.first())].  [QList::first()] on an empty list is
    undefined; the model has no result there. *)
Definition emit_failure (filetype : FileType) (r : Request)
  : option (Request * list Signal) :=
  match errors_ r with
  | [] => None
  | e :: _ =>
      Some (r, [StreamURLFinished (id_ r) (original_url_ r) (original_url_ r)
                  filetype (-1) (-1) (-1) e])
  end.

(** [QobuzStreamURLRequest::StreamURLReceived], lines 160-240. *)
Definition StreamURLReceived (env : Surroundings) (r : Request)
  : option (Request * list Signal) :=
  match reply_ r with
  | None => Some (r, [])
  | Some rp =>
      let '(data, errs) := GetReplyData env rp in
      let r1 := report errs (with_reply None r) in
      if isEmpty data then
        if negb (authenticated env) && login_sent env && (tries_ r1 <=? 1)
        then Some (with_need_login true r1, [])
        else emit_failure FileType_Stream r1
      else
        let '(json_obj, errs2) := ExtractJsonObj env data in
        let r2 := report errs2 r1 in
        if bool_decide (json_obj = ∅) then emit_failure FileType_Stream r2
        else if negb (contains json_obj "track_id") then
          emit_failure FileType_Stream
            (Error "Invalid Json reply, stream url is missing track_id." r2)
        else
          let track_id := toInt (json_obj !! "track_id"%string) in
          if negb (track_id =? song_id_ r2) then
            emit_failure FileType_Stream
              (Error "Incorrect track ID returned." r2)
          else if negb (contains json_obj "mime_type")
                  || negb (contains json_obj "url") then
            emit_failure FileType_Stream
              (Error "Invalid Json reply, stream url is missing url or mime_type." r2)
          else
            let url := toString (json_obj !! "url"%string) in
            let mimetype := toString (json_obj !! "mime_type"%string) in
            let filetype := filetype_for env mimetype in
            if negb (isValid env url) then
              emit_failure filetype
                (Error "Returned stream url is invalid." r2)
            else
              let duration :=
                if contains json_obj "duration"
                then toInt (json_obj !! "duration"%string) * kNsecPerSec env
                else -1 in
              let samplerate :=
                if contains json_obj "sampling_rate"
                then wrap_int (toDouble_int (json_obj !! "sampling_rate"%string) * 1000)
                else -1 in
              let bit_depth :=
                if contains json_obj "bit_depth"
                then toDouble_int (json_obj !! "bit_depth"%string)
                else -1 in
              Some (r2, [StreamURLFinished (id_ r2) (original_url_ r2) url
                           filetype samplerate bit_depth duration EmptyString])
  end.

(** What the claim calls an error result: one [StreamURLFinished] that
    carries the original URL in both URL arguments, -1 for the stream
    properties, and an error message. *)
Definition is_failure (r : Request) (sigs : list Signal) : Prop :=
  exists filetype e,
    sigs = [StreamURLFinished (id_ r) (original_url_ r) (original_url_ r)
              filetype (-1) (-1) (-1) e]
    /\ e <> EmptyString.

(** ** Starting, repeating and cancelling the request *)

(** What the request reads through [QobuzBaseRequest] besides the above:
    the id and the secret of the application, the token of the user and
    the stream format. *)
Record Account := mkAccount {
  app_id : QString;
  app_secret : QString;
  user_auth_token : QString;
  format : Z;
}.

(** What a call does to the outside: the signals [StreamURLFinished] and
    [TryLogin], the calls on a network reply, and [CreateRequest] of
    [QobuzBaseRequest] together with the reply it returns. *)
Inductive Effect :=
| Emit (s : Signal)
| Emit_TryLogin
| Reply_disconnect (rp : positive)
| Reply_abort (rp : positive)
| Reply_deleteLater (rp : positive)
| Call_CreateRequest (ressource_name : QString)
    (params : list (QString * QString)) (reply : positive)
| Connect_finished (rp : positive).

(** The state of the outside at a call: the service and the helpers, the
    account, which replies are running, the time in seconds since the
    epoch, and the reply the next [CreateRequest] returns. *)
Record World := mkWorld {
  surroundings : Surroundings;
  account : Account;
  isRunning : positive -> bool;
  timestamp : Z;
  new_reply : positive;
}.

(** [tr] and the digest of lines 136-137
    ([QCryptographicHash::hash(..., Md5).toHex()], right-justified to 32
    characters, in lower case) are taken as given; [QString::number] prints
    in base 10. *)
Variable tr : string -> QString.
Variable md5_signature : QString -> QString.

Definition number (n : Z) : QString := pretty n.

(** [operator<=] of [QPair<QString, QString>], and [std::sort] with it. *)
Definition param_leb (a b : QString * QString) : bool :=
  match String.compare (fst a) (fst b) with
  | Lt => true
  | Eq => String.leb (snd a) (snd b)
  | Gt => false
  end.

Definition sort_params (params : list (QString * QString))
  : list (QString * QString) :=
  @merge_sort (QString * QString) (fun a b => param_leb a b = true)
    (fun a b => decide (param_leb a b = true)) params.

(** The request as the constructor leaves it, lines 48-56; [song_id] is
    [original_url.path().toInt()]. *)
Definition new_request (original_url : QUrl) (id song_id : Z) : Request :=
  mkRequest None original_url id song_id 0 false [].

(** Lines 60-64 and 113-117: the reply the request holds is let go. *)
Definition drop_reply (w : World) (r : Request) : list Effect :=
  match reply_ r with
  | Some rp =>
      [Reply_disconnect rp]
      ++ (if isRunning w rp then [Reply_abort rp] else [])
      ++ [Reply_deleteLater rp]
  | None => []
  end.

(** [QobuzStreamURLRequest::~QobuzStreamURLRequest], lines 58-66. *)
Definition Destructor (w : World) (r : Request) : list Effect :=
  drop_reply w r.

(** [emit StreamURLFinished(id_, original_url_, original_url_,
    Song::FileType_Stream, -1, -1, -1, error)]. *)
Definition failure (error : QString) (r : Request) : Effect :=
  Emit (StreamURLFinished (id_ r) (original_url_ r) (original_url_ r)
          FileType_Stream (-1) (-1) (-1) error).

(** [QobuzStreamURLRequest::GetStreamURL], lines 109-158; [++tries_] on
    the largest [int] has no defined result. *)
Definition GetStreamURL (w : World) (r : Request)
  : option (Request * list Effect) :=
  if negb (tries_ r <? 2 ^ 31 - 1) then None
  else
    let secret := app_secret (account w) in
    let params_to_sign :=
      sort_params [("format_id"%string, number (format (account w)));
                   ("track_id"%string, number (song_id_ r))] in
    let data_to_sign :=
      ("trackgetFileUrl"
       ++ String.concat EmptyString
            (map (fun p => fst p ++ snd p) params_to_sign)
       ++ number (timestamp w) ++ secret)%string in
    let signature := md5_signature data_to_sign in
    let params :=
      sort_params
        (params_to_sign
         ++ [("request_ts"%string, number (timestamp w));
             ("request_sig"%string, signature);
             ("user_auth_token"%string, user_auth_token (account w))]) in
    Some (mkRequest (Some (new_reply w)) (original_url_ r) (id_ r)
            (song_id_ r) (tries_ r + 1) (need_login_ r) (errors_ r),
          drop_reply w r
          ++ [Call_CreateRequest "track/getFileUrl" params (new_reply w);
              Connect_finished (new_reply w)]).

(** [QobuzStreamURLRequest::Process], lines 82-96. *)
Definition Process (w : World) (r : Request)
  : option (Request * list Effect) :=
  if String.eqb (app_id (account w)) EmptyString
     || String.eqb (app_secret (account w)) EmptyString
  then Some (r, [failure (tr "Missing Qobuz app ID or secret.") r])
  else if negb (authenticated (surroundings w))
  then Some (with_need_login true r, [Emit_TryLogin])
  else GetStreamURL w r.

(** [QobuzStreamURLRequest::LoginComplete], lines 68-80. *)
Definition LoginComplete (w : World) (success : bool) (error : QString)
  (r : Request) : option (Request * list Effect) :=
  if negb (need_login_ r) then Some (r, [])
  else
    let r1 := with_need_login false r in
    if negb success then Some (r1, [failure error r1])
    else Process w r1.

(** [QobuzStreamURLRequest::Cancel], lines 98-107.  The signal [finished]
    that [abort] leads to is an event of its own. *)
Definition Cancel (w : World) (r : Request)
  : option (Request * list Effect) :=
  match reply_ r with
  | Some rp =>
      if isRunning w rp then Some (r, [Reply_abort rp])
      else Some (r, [failure (tr "Cancelled.") r])
  | None => Some (r, [failure (tr "Cancelled.") r])
  end.

(** [StreamURLReceived] as the slot of [finished], with what lines 166-168
    do to the reply. *)
Definition reply_finished (w : World) (r : Request)
  : option (Request * list Effect) :=
  match StreamURLReceived (surroundings w) r with
  | None => None
  | Some (r', sigs) =>
      Some (r',
            match reply_ r with
            | Some rp => [Reply_disconnect rp; Reply_deleteLater rp]
            | None => []
            end ++ map Emit sigs)
  end.

(** The calls and signals that reach a request. *)
Inductive Event :=
| Call_Process
| Call_LoginComplete (success : bool) (error : QString)
| Call_Cancel
| Reply_finished.

Definition step (w : World) (ev : Event) (r : Request)
  : option (Request * list Effect) :=
  match ev with
  | Call_Process => Process w r
  | Call_LoginComplete success error => LoginComplete w success error r
  | Call_Cancel => Cancel w r
  | Reply_finished => reply_finished w r
  end.

Fixpoint run (evs : list (World * Event)) (r : Request)
  : option (Request * list Effect) :=
  match evs with
  | [] => Some (r, [])
  | (w, ev) :: rest =>
      match step w ev r with
      | None => None
      | Some (r1, effs1) =>
          match run rest r1 with
          | None => None
          | Some (r2, effs2) => Some (r2, effs1 ++ effs2)
          end
      end
  end.

(** Reading a list of effects as the life of the replies: [live] is the
    reply that exists.  A reply is created only when none exists, and it
    is disconnected, aborted, connected and deleted only while it exists. *)
Fixpoint reply_trace (live : ptr) (effs : list Effect) : option ptr :=
  match effs with
  | [] => Some live
  | Call_CreateRequest _ _ rp :: rest =>
      match live with
      | None => reply_trace (Some rp) rest
      | Some _ => None
      end
  | Reply_deleteLater rp :: rest =>
      if bool_decide (live = Some rp) then reply_trace None rest else None
  | Reply_disconnect rp :: rest
  | Reply_abort rp :: rest
  | Connect_finished rp :: rest =>
      if bool_decide (live = Some rp) then reply_trace live rest else None
  | _ :: rest => reply_trace live rest
  end.

(** A reply that is taken in without an answer: the request holds a reply,
    [finished] arrives, and no signal is emitted. *)
Definition silent (effs : list Effect) : bool :=
  forallb (fun e => match e with Emit _ => false | _ => true end) effs.

Definition waits_for_login (w : World) (ev : Event) (r : Request) : bool :=
  match ev, reply_ r, step w ev r with
  | Reply_finished, Some _, Some (_, effs) => silent effs
  | _, _, _ => false
  end.

(** How often that happens over a list of events. *)
Fixpoint login_waits (evs : list (World * Event)) (r : Request) : nat :=
  match evs with
  | [] => 0
  | (w, ev) :: rest =>
      match step w ev r with
      | None => 0
      | Some (r1, _) =>
          (if waits_for_login w ev r then 1 else 0) + login_waits rest r1
      end
  end%nat.

End Request.

(** ** Concrete surroundings used in the examples *)

(** The service is not logged in, a login has been sent, the network reply
    came back empty with an error, and no JSON can be extracted. *)
Definition login_pending : @Surroundings Q :=
  mkSurroundings false true
    (fun _ => ([], ["Authentication is required"%string]))
    (fun _ => (∅, ["Empty reply"%string]))
    (fun u => negb (String.eqb u EmptyString))
    (fun _ => []) (fun _ => FileType_Unknown) 1000000000.

(** The first try of the request for track 42. *)
Definition first_try : Request :=
  mkRequest (Some 1%positive) "qobuz:42" 7 42 1 false [].

(** A logged-in service whose reply is the JSON object
    [{track_id: 42, mime_type: audio/flac, url: https://host/42.flac,
      duration: 180}]. *)
Definition track_42_reply : gmap string (QJsonValue Q) :=
  {[ "track_id"%string := JsonDouble (inject_Z 42);
     "mime_type"%string := JsonString "audio/flac";
     "url"%string := JsonString "https://host/42.flac";
     "duration"%string := JsonDouble (inject_Z 180) ]}.

Definition logged_in : @Surroundings Q :=
  mkSurroundings true true
    (fun _ => ([Byte.x7b; Byte.x7d], []))
    (fun _ => (track_42_reply, []))
    (fun u => negb (String.eqb u EmptyString))
    (fun m => if String.eqb m "audio/flac" then ["flac"%string] else [])
    (fun sfx => if String.eqb sfx "flac" then FileType_Other 2 else FileType_Unknown)
    1000000000.

(** Stand-ins for [tr] (no translation is installed) and for the digest
    (nothing below depends on its value). *)
Definition tr_none (s : string) : QString := s.

Definition no_digest (data : QString) : QString :=
  "00000000000000000000000000000000".

(** An account, and the outside at two moments: while the login is
    pending, and once the service is logged in. *)
Definition account_42 : Account := mkAccount "app" "secret" "token" 27.

Definition world_login_pending : @World Q :=
  mkWorld login_pending account_42 (fun _ => false) 1700000000 1%positive.

Definition world_logged_in : @World Q :=
  mkWorld logged_in account_42 (fun _ => false) 1700000000 2%positive.

(** A request whose first reply comes back empty while the login is
    pending, and which is repeated after the login. *)
Definition retry_after_login : list (@World Q * Event) :=
  [(world_logged_in, Call_Process);
   (world_login_pending, Reply_finished);
   (world_logged_in, Call_LoginComplete true EmptyString);
   (world_logged_in, Reply_finished)].

End QobuzStreamURLRequest.

(* ===================================================================== *)
(** * src/playlist/playlistbackend.cpp *)
(* ===================================================================== *)

Module PlaylistBackend.

#[global] Instance byte_eq_dec : EqDecision Byte.byte := Byte.byte_eq_dec.

(** A row of the table [playlists]; its ROWID is the key under which the
    table holds it. *)
Record PlaylistRow := mkPlaylistRow {
  name : QString;
  last_played : Z;
  special_type : QString;
  ui_path : QString;
  is_favorite : Z;
  ui_order : Z;
  dynamic_playlist_type : Z;
  dynamic_playlist_data : QByteArray;
  dynamic_playlist_backend : QString;
}.

(** What [SavePlaylist] reads from a non-null [PlaylistGeneratorPtr]:
    [type()], [Save()] and [collection()->songs_table()]. *)
Record Generator := mkGenerator {
  gen_type : Z;
  gen_Save : QByteArray;
  gen_songs_table : QString;
}.

(** A row of the table [playlist_items]: ROWID, the column [playlist], and
    the values [PlaylistItem::BindToQuery] binds (type, collection_id and
    the song columns). *)
Record ItemRow {BoundValues : Type} := mkItemRow {
  item_rowid : Z;
  item_playlist : Z;
  item_values : BoundValues;
}.
Arguments ItemRow : clear implicits.
Arguments mkItemRow {BoundValues}.

(** A row of the query of [GetPlaylistItems]: the row of [playlist_items]
    and the row of [songs] the LEFT JOIN found for its collection_id. *)
Record SqlRow {BoundValues SongRow : Type} := mkSqlRow {
  row_song : option SongRow;
  row_item : ItemRow BoundValues;
}.
Arguments SqlRow : clear implicits.
Arguments mkSqlRow {BoundValues SongRow}.

(** The classes the backend works with ([PlaylistItem], [Song],
    [CueParser]) live in other files, and the file system is outside the
    program.  The backend is parametrised over what it calls. *)
Class ItemOps (PlaylistItem Song BoundValues SongRow : Type) := {
  BindToQuery : PlaylistItem -> BoundValues;        (* item->BindToQuery(&q) *)
  collection_id : BoundValues -> Z;                 (* column collection_id *)
  type_column : BoundValues -> Z;                   (* column type *)
  NewFromSource : Z -> option PlaylistItem;         (* PlaylistItem::NewFromSource *)
  InitFromQuery : SqlRow BoundValues SongRow -> PlaylistItem -> PlaylistItem;
  source : PlaylistItem -> Z;                       (* item->source() *)
  Source_LocalFile : Z;
  Metadata : PlaylistItem -> Song;                  (* item->Metadata() *)
  Reload : PlaylistItem -> PlaylistItem;            (* item->Reload() *)
  SongPlaylistItem : Song -> PlaylistItem;          (* make_shared<SongPlaylistItem>(song) *)
  has_cue : Song -> bool;
  cue_path : Song -> QString;
  url_encoded : Song -> QByteArray;                 (* url().toEncoded() *)
  beginning_nanosec : Song -> Z;
  file_exists : QString -> bool;                    (* QFile::exists *)
  cue_load : QString -> option (list Song);         (* open the file, CueParser::Load *)
}.

Section Backend.

Context {PlaylistItem Song BoundValues SongRow : Type}.
Context `{IO : ItemOps PlaylistItem Song BoundValues SongRow}.

Local Abbreviation ItemRow := (ItemRow BoundValues).
Local Abbreviation SqlRow := (SqlRow BoundValues SongRow).

(** The tables the backend reads and writes. [playlist_items] is kept in
    ROWID order, the order in which a SELECT without ORDER BY scans it. *)
Record Database := mkDatabase {
  playlists : gmap Z PlaylistRow;
  playlist_items : list ItemRow;
  songs : gmap Z SongRow;
}.

(** *** The SQL statements *)

(** [DELETE FROM playlist_items WHERE playlist = :playlist] *)
Definition delete_playlist_items (playlist : Z) (db : Database) : Database :=
  mkDatabase (playlists db)
    (filter (fun r => item_playlist r <> playlist) (playlist_items db))
    (songs db).

(** The ROWID SQLite gives a new row: one more than the largest in use. *)
Definition next_rowid (rows : list ItemRow) : Z :=
  1 + fold_right (fun r m => Z.max (item_rowid r) m) 0 rows.

(** [INSERT INTO playlist_items (playlist, type, collection_id, ...) VALUES
    (...)] *)
Definition insert_playlist_item (playlist : Z) (values : BoundValues)
  (db : Database) : Database :=
  mkDatabase (playlists db)
    (playlist_items db
     ++ [mkItemRow (next_rowid (playlist_items db)) playlist values])
    (songs db).

(** [UPDATE playlists SET last_played=..., dynamic_playlist_type=...,
    dynamic_playlist_data=..., dynamic_playlist_backend=... WHERE
    ROWID=:playlist], with the values lines 368-378 bind. *)
Definition update_playlist (playlist last : Z) (dynamic : option Generator)
  (db : Database) : Database :=
  let dyn_type := match dynamic with Some g => gen_type g | None => 0 end in
  let dyn_data := match dynamic with Some g => gen_Save g | None => [] end in
  let dyn_backend :=
    match dynamic with Some g => gen_songs_table g | None => EmptyString end in
  mkDatabase
    (alter (fun p => mkPlaylistRow (name p) last (special_type p) (ui_path p)
                       (is_favorite p) (ui_order p) dyn_type dyn_data
                       dyn_backend) playlist (playlists db))
    (playlist_items db) (songs db).

(** [DELETE FROM playlists WHERE ROWID=:id] *)
Definition delete_playlist (id : Z) (db : Database) : Database :=
  mkDatabase (delete id (playlists db)) (playlist_items db) (songs db).

(** The rows of [SELECT ... FROM playlist_items AS p LEFT JOIN songs ON
    p.collection_id = songs.ROWID WHERE p.playlist = :playlist]. *)
Definition select_playlist_items (playlist : Z) (db : Database) : list SqlRow :=
  map (fun r => mkSqlRow (songs db !! collection_id (item_values r)) r)
      (filter (fun r => item_playlist r = playlist) (playlist_items db)).

(** *** Transactions *)

(** Modelled from the spec: [ScopedTransaction] is declared in
    core/scopedtransaction.h, outside the files embedded here.  Its
    constructor begins a transaction, [Commit] commits it, and its
    destructor rolls back a transaction that was not committed.  While the
    transaction is open the statements work on [tx_work]; [tx_stored] is
    what a rollback restores. *)
Record ScopedTransaction := mkTx {
  tx_stored : Database;
  tx_work : Database;
}.

Definition transaction (db : Database) : ScopedTransaction := mkTx db db.

Definition Commit (tx : ScopedTransaction) : Database := tx_work tx.

Definition rollback (tx : ScopedTransaction) : Database := tx_stored tx.

(** [q.Exec()]: [ok] tells whether the statement succeeds; a statement that
    fails changes nothing. *)
Definition Exec (ok : bool) (stmt : Database -> Database)
  (tx : ScopedTransaction) : option ScopedTransaction :=
  if ok then Some (mkTx (tx_stored tx) (stmt (tx_work tx))) else None.

(** *** The backend *)

(** The loop of [SavePlaylist], lines 352-362; [k] numbers the statements
    of the call. *)
Fixpoint insert_items (exec_ok : nat -> bool) (k : nat) (playlist : Z)
  (items : list PlaylistItem) (tx : ScopedTransaction)
  : option ScopedTransaction :=
  match items with
  | [] => Some tx
  | item :: rest =>
      match Exec (exec_ok k)
              (insert_playlist_item playlist (BindToQuery item)) tx with
      | Some tx1 => insert_items exec_ok (S k) playlist rest tx1
      | None => None
      end
  end.

(** [PlaylistBackend::SavePlaylist], lines 331-388.  [exec_ok k] tells
    whether the [k]-th statement of the call succeeds: statement 0 is the
    DELETE, statements 1 to n are the INSERTs, statement n+1 is the UPDATE.
    The result is the database after the call. *)
Definition SavePlaylist (exec_ok : nat -> bool) (playlist : Z)
  (items : list PlaylistItem) (last : Z) (dynamic : option Generator)
  (db : Database) : Database :=
  let tx := transaction db in
  match Exec (exec_ok O) (delete_playlist_items playlist) tx with
  | None => rollback tx
  | Some tx1 =>
      match insert_items exec_ok 1 playlist items tx1 with
      | None => rollback tx1
      | Some tx2 =>
          match Exec (exec_ok (S (length items)))
                  (update_playlist playlist last dynamic) tx2 with
          | None => rollback tx2
          | Some tx3 => Commit tx3
          end
      end
  end.

(** [PlaylistBackend::RemovePlaylist], lines 408-437; [ok1] and [ok2] tell
    whether the two DELETE statements succeed. *)
Definition RemovePlaylist (ok1 ok2 : bool) (id : Z) (db : Database) : Database :=
  let tx := transaction db in
  match Exec ok1 (delete_playlist id) tx with
  | None => rollback tx
  | Some tx1 =>
      match Exec ok2 (delete_playlist_items id) tx1 with
      | None => rollback tx1
      | Some tx2 => Commit tx2
      end
  end.

(** [NewSongFromQueryState::cached_cues_]. *)
Local Abbreviation CueCache := (gmap string (list Song)).

(** The section of a CUE sheet that matches a song, lines 311-316. *)
Definition matching_section (song : Song) (song_list : list Song) : option Song :=
  List.find (fun from_list =>
               bool_decide (url_encoded from_list = url_encoded song)
               && (beginning_nanosec from_list =? beginning_nanosec song))
            song_list.

(** [PlaylistBackend::RestoreCueData], lines 276-323. *)
Definition RestoreCueData (item : PlaylistItem) (cache : CueCache)
  : PlaylistItem * CueCache :=
  if negb (source item =? Source_LocalFile) then (item, cache)
  else
    let song := Metadata item in
    if negb (has_cue song) then (item, cache)
    else
      let path := cue_path song in
      if negb (file_exists path) then (Reload item, cache)
      else
        let loaded :=
          match cache !! path with
          | Some song_list => Some (song_list, cache)
          | None =>
              match cue_load path with
              | Some song_list => Some (song_list, <[path := song_list]> cache)
              | None => None
              end
          end in
        match loaded with
        | None => (item, cache)
        | Some (song_list, cache1) =>
            match matching_section song song_list with
            | Some from_list => (SongPlaylistItem from_list, cache1)
            | None => (Reload item, cache1)
            end
        end.

(** [PlaylistBackend::NewPlaylistItemFromQuery], lines 252-266; the result
    is a [PlaylistItemPtr], null when [NewFromSource] returns null. *)
Definition NewPlaylistItemFromQuery (row : SqlRow) (cache : CueCache)
  : option PlaylistItem * CueCache :=
  match NewFromSource (type_column (item_values (row_item row))) with
  | Some item =>
      let '(item1, cache1) := RestoreCueData (InitFromQuery row item) cache in
      (Some item1, cache1)
  | None => (None, cache)
  end.

(** The loop [while (q.next())] of [GetPlaylistItems], lines 203-205. *)
Fixpoint items_from_rows (rows : list SqlRow) (cache : CueCache)
  : list (option PlaylistItem) :=
  match rows with
  | [] => []
  | row :: rest =>
      let '(item, cache1) := NewPlaylistItemFromQuery row cache in
      item :: items_from_rows rest cache1
  end.

(** [PlaylistBackend::GetPlaylistItems], lines 181-215; [select_ok] tells
    whether the query succeeds. *)
Definition GetPlaylistItems (select_ok : bool) (playlist : Z) (db : Database)
  : list (option PlaylistItem) :=
  if negb select_ok then []
  else items_from_rows (select_playlist_items playlist db) ∅.

(** The row the query of [GetPlaylistItems] yields for an item that
    [SavePlaylist] stored under ROWID [rowid]: the bound values of the item
    joined with the song of its collection_id. *)
Definition saved_row (db : Database) (playlist rowid : Z) (item : PlaylistItem)
  : SqlRow :=
  mkSqlRow (songs db !! collection_id (BindToQuery item))
           (mkItemRow rowid playlist (BindToQuery item)).

(** The item [NewPlaylistItemFromQuery] builds from a row when the cache of
    CUE sheets is empty. *)
Definition item_of_row (row : SqlRow) : option PlaylistItem :=
  fst (NewPlaylistItemFromQuery row ∅).

(** Every cached CUE sheet is what loading its file gives. *)
Definition cache_sound (cache : CueCache) : Prop :=
  forall path song_list,
    cache !! path = Some song_list -> cue_load path = Some song_list.

(** *** The table of playlists *)

(** [PlaylistBackend::Playlist], declared in playlistbackend.h. *)
Record Playlist := mkPlaylist {
  pl_id : Z;
  pl_name : QString;
  pl_last_played : Z;
  pl_special_type : QString;
  pl_ui_path : QString;
  pl_favorite : bool;
  pl_dynamic_type : Z;
  pl_dynamic_data : QByteArray;
  pl_dynamic_backend : QString;
}.

(** The locals [p] of [GetPlaylists] and [GetPlaylist] after the nine
    assignments from [q.value(0)] to [q.value(8)]: [toInt] narrows a 64-bit
    column to [int], [toBool] tests for non-zero. *)
Definition playlist_of_row (rowid : Z) (row : PlaylistRow) : Playlist :=
  mkPlaylist (wrap_int rowid) (name row) (wrap_int (last_played row))
    (special_type row) (ui_path row) (negb (is_favorite row =? 0))
    (wrap_int (dynamic_playlist_type row)) (dynamic_playlist_data row)
    (dynamic_playlist_backend row).

(** The same assignments when the query is not positioned on a record:
    every [q.value(i)] is an invalid [QVariant]. *)
Definition playlist_of_no_row : Playlist :=
  mkPlaylist 0 EmptyString 0 EmptyString EmptyString false 0 [] EmptyString.

(** The default-constructed [Playlist()], and the enumerators of
    [GetPlaylistsFlags]: declarations of playlistbackend.h. *)
Variable Playlist_default : Playlist.
Variables GetPlaylists_OpenInUi GetPlaylists_Favorite GetPlaylists_All : Z.

(** [ORDER BY ui_order] is SQLite's; which of two rows with the same
    [ui_order] comes first is its choice. *)
Variable order_by_ui_order :
  list (Z * PlaylistRow) -> list (Z * PlaylistRow).

(** The WHERE clause [GetPlaylists] puts together, lines 113-123. *)
Definition playlists_condition (flags : Z) (row : PlaylistRow) : bool :=
  let open_in_ui := negb (Z.land flags GetPlaylists_OpenInUi =? 0) in
  let favorite := negb (Z.land flags GetPlaylists_Favorite =? 0) in
  if negb open_in_ui && negb favorite then true
  else (open_in_ui && negb (ui_order row =? -1))
       || (favorite && negb (is_favorite row =? 0)).

(** [PlaylistBackend::GetPlaylists], lines 106-148. *)
Definition GetPlaylists (select_ok : bool) (flags : Z) (db : Database)
  : list Playlist :=
  if negb select_ok then []
  else
    map (fun r => playlist_of_row (fst r) (snd r))
        (order_by_ui_order
           (filter (fun r => playlists_condition flags (snd r) = true)
                   (map_to_list (playlists db)))).

(** Lines 94-104. *)
Definition GetAllPlaylists (select_ok : bool) (db : Database) :=
  GetPlaylists select_ok GetPlaylists_All db.

Definition GetAllOpenPlaylists (select_ok : bool) (db : Database) :=
  GetPlaylists select_ok GetPlaylists_OpenInUi db.

Definition GetAllFavoritePlaylists (select_ok : bool) (db : Database) :=
  GetPlaylists select_ok GetPlaylists_Favorite db.

(** [PlaylistBackend::GetPlaylist], lines 150-179. *)
Definition GetPlaylist (select_ok : bool) (id : Z) (db : Database)
  : Playlist :=
  if negb select_ok then Playlist_default
  else match playlists db !! id with
       | Some row => playlist_of_row id row
       | None => playlist_of_no_row
       end.

(** [PlaylistBackend::NewSongFromQuery], lines 268-272: the item pointer is
    dereferenced; a null pointer gives no song ([None]). *)
Definition NewSongFromQuery (row : SqlRow) (cache : CueCache)
  : option Song * CueCache :=
  let '(item, cache1) := NewPlaylistItemFromQuery row cache in
  (Metadata <$> item, cache1).

(** The loop [while (q.next())] of [GetPlaylistSongs], lines 237-239. *)
Fixpoint songs_from_rows (rows : list SqlRow) (cache : CueCache)
  : option (list Song) :=
  match rows with
  | [] => Some []
  | row :: rest =>
      let '(song, cache1) := NewSongFromQuery row cache in
      match song with
      | None => None
      | Some s =>
          match songs_from_rows rest cache1 with
          | Some ss => Some (s :: ss)
          | None => None
          end
      end
  end.

(** [PlaylistBackend::GetPlaylistSongs], lines 217-250; [None] when a null
    item is dereferenced. *)
Definition GetPlaylistSongs (select_ok : bool) (playlist : Z) (db : Database)
  : option (list Song) :=
  if negb select_ok then Some []
  else songs_from_rows (select_playlist_items playlist db) ∅.

(** The ROWID SQLite gives a new row of [playlists]. *)
Definition next_playlist_id (m : gmap Z PlaylistRow) : Z :=
  1 + fold_right Z.max 0 (map fst (map_to_list m)).

(** The row [INSERT INTO playlists (name, special_type) VALUES (...)]
    makes: the other columns get the defaults of the schema, which is not
    part of the sources embedded here. *)
Variable playlists_column_defaults : PlaylistRow.

Definition new_playlist_row (n st : QString) : PlaylistRow :=
  mkPlaylistRow n (last_played playlists_column_defaults) st
    (ui_path playlists_column_defaults)
    (is_favorite playlists_column_defaults)
    (ui_order playlists_column_defaults)
    (dynamic_playlist_type playlists_column_defaults)
    (dynamic_playlist_data playlists_column_defaults)
    (dynamic_playlist_backend playlists_column_defaults).

(** [PlaylistBackend::CreatePlaylist], lines 390-406: the id it returns
    ([lastInsertId().toInt()], or -1) and the database. *)
Definition CreatePlaylist (insert_ok : bool) (n st : QString) (db : Database)
  : Z * Database :=
  if negb insert_ok then (-1, db)
  else
    let id := next_playlist_id (playlists db) in
    (wrap_int id,
     mkDatabase (<[id := new_playlist_row n st]> (playlists db))
       (playlist_items db) (songs db)).

(** [UPDATE playlists SET <column>=... WHERE ROWID=:id] *)
Definition update_playlist_row (f : PlaylistRow -> PlaylistRow) (id : Z)
  (db : Database) : Database :=
  mkDatabase (alter f id (playlists db)) (playlist_items db) (songs db).

Definition set_name (n : QString) (p : PlaylistRow) : PlaylistRow :=
  mkPlaylistRow n (last_played p) (special_type p) (ui_path p)
    (is_favorite p) (ui_order p) (dynamic_playlist_type p)
    (dynamic_playlist_data p) (dynamic_playlist_backend p).

Definition set_is_favorite (b : Z) (p : PlaylistRow) : PlaylistRow :=
  mkPlaylistRow (name p) (last_played p) (special_type p) (ui_path p)
    b (ui_order p) (dynamic_playlist_type p)
    (dynamic_playlist_data p) (dynamic_playlist_backend p).

Definition set_ui_order (i : Z) (p : PlaylistRow) : PlaylistRow :=
  mkPlaylistRow (name p) (last_played p) (special_type p) (ui_path p)
    (is_favorite p) i (dynamic_playlist_type p)
    (dynamic_playlist_data p) (dynamic_playlist_backend p).

Definition set_ui_path (path : QString) (p : PlaylistRow) : PlaylistRow :=
  mkPlaylistRow (name p) (last_played p) (special_type p) path
    (is_favorite p) (ui_order p) (dynamic_playlist_type p)
    (dynamic_playlist_data p) (dynamic_playlist_backend p).

(** [PlaylistBackend::RenamePlaylist], lines 439-452, and
    [PlaylistBackend::FavoritePlaylist], lines 454-467: one statement
    outside any transaction. *)
Definition RenamePlaylist (ok : bool) (id : Z) (new_name : QString)
  (db : Database) : Database :=
  if ok then update_playlist_row (set_name new_name) id db else db.

Definition FavoritePlaylist (ok : bool) (id : Z) (favorite : bool)
  (db : Database) : Database :=
  if ok then update_playlist_row
               (set_is_favorite (if favorite then 1 else 0)) id db
  else db.

(** [UPDATE playlists SET ui_order=-1] *)
Definition reset_ui_order (db : Database) : Database :=
  mkDatabase (set_ui_order (-1) <$> playlists db) (playlist_items db)
    (songs db).

(** The loop of [SetPlaylistOrder], lines 482-489, from index [i] on;
    statement [S i] is the UPDATE for [ids[i]]. *)
Fixpoint order_playlists (exec_ok : nat -> bool) (i : nat) (ids : list Z)
  (tx : ScopedTransaction) : option ScopedTransaction :=
  match ids with
  | [] => Some tx
  | id :: rest =>
      match Exec (exec_ok (S i))
              (update_playlist_row (set_ui_order (Z.of_nat i)) id) tx with
      | Some tx1 => order_playlists exec_ok (S i) rest tx1
      | None => None
      end
  end.

(** [PlaylistBackend::SetPlaylistOrder], lines 469-494; statement 0 is the
    UPDATE of all rows. *)
Definition SetPlaylistOrder (exec_ok : nat -> bool) (ids : list Z)
  (db : Database) : Database :=
  let tx := transaction db in
  match Exec (exec_ok O) reset_ui_order tx with
  | None => rollback tx
  | Some tx1 =>
      match order_playlists exec_ok 0 ids tx1 with
      | None => rollback tx1
      | Some tx2 => Commit tx2
      end
  end.

(** [PlaylistBackend::SetPlaylistUiPath], lines 496-514. *)
Definition SetPlaylistUiPath (ok : bool) (id : Z) (path : QString)
  (db : Database) : Database :=
  let tx := transaction db in
  match Exec ok (update_playlist_row (set_ui_path path) id) tx with
  | None => rollback tx
  | Some tx1 => Commit tx1
  end.

End Backend.

(** ** A small collection used in the examples

    A song is a URL, a start offset, the path of its CUE sheet (empty if it
    has none) and a title; an item is a source and a song; the bound values
    are the item itself.  One CUE sheet exists on disk. *)
Record ExSong := mkExSong {
  ex_url : QByteArray;
  ex_beginning : Z;
  ex_cue : QString;
  ex_title : QString;
}.

Record ExItem := mkExItem {
  ex_source : Z;
  ex_song : ExSong;
}.

Definition ex_cue_sheet : list ExSong :=
  [mkExSong [Byte.x61] 0 "/music/album.cue" "Title from the CUE sheet"].

#[global] Instance ExOps : ItemOps ExItem ExSong ExItem unit := {
  BindToQuery := fun item => item;
  collection_id := fun _ => -1;
  type_column := ex_source;
  NewFromSource := fun src => Some (mkExItem src (mkExSong [] 0 EmptyString EmptyString));
  InitFromQuery := fun row _ => item_values (row_item row);
  source := ex_source;
  Source_LocalFile := 1;
  Metadata := ex_song;
  Reload := fun item => item;
  SongPlaylistItem := mkExItem 1;
  has_cue := fun s => negb (String.eqb (ex_cue s) EmptyString);
  cue_path := ex_cue;
  url_encoded := ex_url;
  beginning_nanosec := ex_beginning;
  file_exists := fun path => String.eqb path "/music/album.cue";
  cue_load := fun path =>
    if String.eqb path "/music/album.cue" then Some ex_cue_sheet else None;
}.

(** A stream (source 5) and a local file with a CUE sheet whose title was
    edited in the playlist. *)
Definition ex_stream : ExItem :=
  mkExItem 5 (mkExSong [Byte.x62] 0 EmptyString "Radio").

Definition ex_cue_track : ExItem :=
  mkExItem 1 (mkExSong [Byte.x61] 0 "/music/album.cue" "Edited title").

(** A database with playlists 1 and 2; playlist 1 holds one item. *)
Definition ex_playlist_row (n : QString) : PlaylistRow :=
  mkPlaylistRow n (-1) EmptyString EmptyString 0 0 0 [] EmptyString.

Definition ex_db : @Database ExItem unit :=
  mkDatabase
    {[ 1 := ex_playlist_row "First"; 2 := ex_playlist_row "Second" ]}
    [mkItemRow 1 1 ex_stream; mkItemRow 2 2 ex_stream]
    ∅.

Definition all_ok : nat -> bool := fun _ => true.

(** One reading of [ORDER BY ui_order]: a stable merge sort. *)
Definition sort_by_ui_order : list (Z * PlaylistRow) -> list (Z * PlaylistRow) :=
  @merge_sort (Z * PlaylistRow)
    (fun a b => ui_order (snd a) <= ui_order (snd b))
    (fun a b => decide (ui_order (snd a) <= ui_order (snd b))).

End PlaylistBackend.

(* ===================================================================== *)
(** * Proof steps shared by the properties below *)
(* ===================================================================== *)

(** Induction over two lists that are zipped together: the cases with one
    list empty compute, the step case rewrites with the hypothesis [IH]. *)
Ltac zip_induction rowids items :=
  revert items;
  induction rowids as [|? rowids IH]; intros [|? items];
  cbn; try reflexivity; try (now rewrite IH).

(** Splits a conjunction of any length into its parts. *)
Ltac split_all :=
  repeat match goal with |- _ /\ _ => split end.

(* ===================================================================== *)
(** * Properties *)
(* ===================================================================== *)

Section GstEnginePipelineFacts.

Import GstEnginePipeline.

Context {qreal QTimeLine : Type}.
Context `{QR : DoubleOps qreal} `{TL : QTimeLineOps qreal QTimeLine}.

Local Abbreviation Pipeline := (@Pipeline qreal QTimeLine).

(** C3. A buffering message whose source is not [audioqueue_] is ignored.
    Otherwise: at 0 percent while PLAYING and not buffering the flag is set,
    [BufferingStarted] is emitted and PAUSED is requested; at 100 percent
    while buffering the flag is cleared, [BufferingFinished] is emitted and
    PLAYING is requested; at any other percentage while buffering only
    [BufferingProgress percent] is emitted and the pipeline is unchanged; in
    every remaining case nothing happens.  [set_buffering_] writes the flag
    and nothing else (the last part: what is written is read back, a second
    write overrides the first, writing the current value changes nothing). *)
Theorem BufferingMessageReceived_transitions :
  forall (q : GstQuery) (msg : GstMessage) (p : Pipeline),
    (msg_src msg <> audioqueue_ p ->
       BufferingMessageReceived q msg p = (p, []))
    /\ (msg_src msg = audioqueue_ p ->
          (msg_percent msg = 0 -> state q p = GST_STATE_PLAYING ->
           buffering_ p = false ->
             BufferingMessageReceived q msg p
             = (set_buffering_ true p,
                [Emit_BufferingStarted; Call_SetState GST_STATE_PAUSED]))
          /\ (msg_percent msg = 100 -> buffering_ p = true ->
                BufferingMessageReceived q msg p
                = (set_buffering_ false p,
                   [Emit_BufferingFinished; Call_SetState GST_STATE_PLAYING]))
          /\ (msg_percent msg <> 100 -> buffering_ p = true ->
                BufferingMessageReceived q msg p
                = (p, [Emit_BufferingProgress (msg_percent msg)]))
          /\ (buffering_ p = false ->
              msg_percent msg <> 0 \/ state q p <> GST_STATE_PLAYING ->
                BufferingMessageReceived q msg p = (p, [])))
    /\ (forall b b',
          buffering_ (set_buffering_ b p) = b
          /\ set_buffering_ b' (set_buffering_ b p) = set_buffering_ b' p
          /\ set_buffering_ (buffering_ p) p = p).
Proof.
  intros q msg p. unfold BufferingMessageReceived.
  split; [|split].
  - intros Hsrc. now rewrite bool_decide_eq_false_2.
  - intros Hsrc. rewrite bool_decide_eq_true_2 by assumption. cbn [negb].
    repeat split.
    + intros H0 Hst Hb. rewrite H0, Hst, Hb. cbn.
      now rewrite bool_decide_eq_true_2.
    + intros H100 Hb. rewrite H100, Hb. cbn. reflexivity.
    + intros Hn Hb. rewrite Hb. cbn. rewrite andb_false_r. cbn.
      destruct (Z.eqb_spec (msg_percent msg) 100); [contradiction|reflexivity].
    + intros Hb Hor. rewrite Hb. cbn. rewrite !andb_false_r.
      destruct Hor as [Hn|Hn].
      * destruct (Z.eqb_spec (msg_percent msg) 0); [contradiction|reflexivity].
      * rewrite (bool_decide_eq_false_2 _ Hn).
        now rewrite andb_false_r.
  - intros b b'. split; [reflexivity|]. split; [reflexivity|now destruct p].
Qed.

Lemma AboutToFinishCallback_when_set (h : Pipeline -> bool) (p : Pipeline) :
  next_uri_set_ p = true -> AboutToFinishCallback h p = (p, []).
Proof.
  intros H. unfold AboutToFinishCallback. rewrite H.
  now rewrite andb_false_r.
Qed.

Lemma about_to_finish_run_when_set (h : Pipeline -> bool) (n : nat) :
  forall p : Pipeline,
    next_uri_set_ p = true -> about_to_finish_run h n p = (p, []).
Proof.
  induction n as [|n IH]; intros p H; cbn [about_to_finish_run].
  - reflexivity.
  - rewrite (AboutToFinishCallback_when_set h p H).
    now rewrite (IH p H).
Qed.

Lemma AboutToFinishCallback_cases (h : Pipeline -> bool) (p : Pipeline) :
  AboutToFinishCallback h p = (p, [])
  \/ (h p = true /\ next_uri_set_ p = false
      /\ AboutToFinishCallback h p
         = (set_next_uri_set_ true p,
            [GObjectSet_uri (pipeline_ p) (next_stream_url_ p)])).
Proof.
  unfold AboutToFinishCallback, g_object_set_uri.
  destruct (h p); destruct (next_uri_set_ p); cbn; auto.
Qed.

Lemma about_to_finish_run_assigns_once (h : Pipeline -> bool) (n : nat) :
  forall p : Pipeline,
    (length (List.filter is_uri_assignment
               (snd (about_to_finish_run h n p))) <= 1)%nat.
Proof.
  induction n as [|n IH]; intros p; cbn [about_to_finish_run].
  - cbn. lia.
  - destruct (AboutToFinishCallback_cases h p) as [E|(_ & _ & E)]; rewrite E.
    + specialize (IH p).
      destruct (about_to_finish_run h n p) as [p2 e2]. exact IH.
    + rewrite about_to_finish_run_when_set by reflexivity. cbn. lia.
Qed.

Lemma run_events_when_set (h : Pipeline -> bool) (evs : list Event) :
  forall p : Pipeline,
    Forall keeps_next_uri_set evs -> next_uri_set_ p = true ->
    snd (run_events h evs p) = [].
Proof.
  induction evs as [|ev evs IH]; intros p Hk Hset; [reflexivity|].
  inversion Hk as [|? ? Hev Hrest]; subst.
  destruct ev as [|f]; cbn [run_events].
  - rewrite (AboutToFinishCallback_when_set h p Hset).
    specialize (IH p Hrest Hset).
    destruct (run_events h evs p) as [p2 e2]. exact IH.
  - apply IH; [exact Hrest|]. now apply Hev.
Qed.

Lemma run_events_assigns_once (h : Pipeline -> bool) (evs : list Event) :
  forall p : Pipeline,
    Forall keeps_next_uri_set evs ->
    (length (List.filter is_uri_assignment (snd (run_events h evs p))) <= 1)%nat.
Proof.
  induction evs as [|ev evs IH]; intros p Hk; [cbn; lia|].
  inversion Hk as [|? ? Hev Hrest]; subst.
  destruct ev as [|f]; cbn [run_events].
  - destruct (AboutToFinishCallback_cases h p) as [E|(_ & _ & E)]; rewrite E.
    + specialize (IH p Hrest).
      destruct (run_events h evs p) as [p2 e2]. exact IH.
    + pose proof (run_events_when_set h evs (set_next_uri_set_ true p)
                    Hrest eq_refl) as Hnil.
      destruct (run_events h evs (set_next_uri_set_ true p)) as [p2 e2].
      cbn [snd] in *. subst e2. cbn. lia.
  - now apply IH.
Qed.

(** C4. The callback assigns the playbin's uri exactly when
    [has_next_valid_url()] holds and [next_uri_set_] is false; the value is
    the stored next stream URL (the one [SetNextUrl] put there) and the call
    is made in a state where the flag is already true.  Otherwise the
    callback does nothing.  Hence a run of callbacks started with the flag
    set does nothing at all, any run of callbacks contains at most one
    assignment, and so does any history in which the callbacks alternate
    with other code that does not clear the flag.  The flag is cleared
    elsewhere, for instance when the next stream starts. *)
Theorem AboutToFinishCallback_sets_uri_once :
  forall (has_next_valid_url : Pipeline -> bool) (p : Pipeline),
    (has_next_valid_url p = true -> next_uri_set_ p = false ->
       AboutToFinishCallback has_next_valid_url p
       = g_object_set_uri (next_stream_url_ p) (set_next_uri_set_ true p)
       /\ snd (AboutToFinishCallback has_next_valid_url p)
          = [GObjectSet_uri (pipeline_ p) (next_stream_url_ p)]
       /\ next_uri_set_ (fst (AboutToFinishCallback has_next_valid_url p))
          = true)
    /\ (has_next_valid_url p = false \/ next_uri_set_ p = true ->
          AboutToFinishCallback has_next_valid_url p = (p, []))
    /\ (forall u o b e,
          next_stream_url_ (SetNextUrl u o b e p) = u
          /\ next_uri_set_ (SetNextUrl u o b e p) = next_uri_set_ p)
    /\ (forall n, next_uri_set_ p = true ->
          about_to_finish_run has_next_valid_url n p = (p, []))
    /\ (forall n,
          (length (List.filter is_uri_assignment
                     (snd (about_to_finish_run has_next_valid_url n p)))
           <= 1)%nat)
    /\ (forall evs, Forall keeps_next_uri_set evs ->
          (length (List.filter is_uri_assignment
                     (snd (run_events has_next_valid_url evs p)))
           <= 1)%nat)
    /\ next_uri_set_ (fst (StreamStartMessageReceived p)) = false.
Proof.
  intros h p. split_all.
  - intros H H0. unfold AboutToFinishCallback. rewrite H, H0. auto.
  - intros [H|H]; unfold AboutToFinishCallback; rewrite H; cbn;
      [reflexivity | now rewrite andb_false_r].
  - intros u o b e. split; reflexivity.
  - intros n H. now apply about_to_finish_run_when_set.
  - intros n. apply about_to_finish_run_assigns_once.
  - intros evs Hk. now apply run_events_assigns_once.
  - unfold StreamStartMessageReceived.
    destruct (next_uri_set_ p) eqn:E; [reflexivity|exact E].
Qed.

Variable kNsecPerMsec : Z.

Lemma start_time_no_running_fader (duration_nanosec : Z) (dir : Direction)
  (p : Pipeline) :
  (forall f, fader_ p = Some f -> tl_state f <> Running) ->
  start_time kNsecPerMsec duration_nanosec dir p
  = match dir with
    | Forward => 0
    | Backward => duration_msec kNsecPerMsec duration_nanosec
    end.
Proof.
  intros H. unfold start_time.
  destruct (fader_ p) as [f|].
  - rewrite (bool_decide_eq_false_2 _ (H f eq_refl)). now destruct dir.
  - now destruct dir.
Qed.

Lemma SetVolumeModifier_fields (v : qreal) (p : Pipeline) :
  volume_ (fst (SetVolumeModifier v p)) = volume_ p
  /\ volume_percent_ (fst (SetVolumeModifier v p)) = volume_percent_ p
  /\ fader_ (fst (SetVolumeModifier v p)) = fader_ p
  /\ use_fudge_timer_ (fst (SetVolumeModifier v p)) = use_fudge_timer_ p.
Proof. unfold SetVolumeModifier. destruct (volume_ p) eqn:E; cbn; auto. Qed.

Lemma deliver_valueChanged_fields (values : list qreal) :
  forall p : Pipeline,
    volume_ (fst (deliver_valueChanged values p)) = volume_ p
    /\ volume_percent_ (fst (deliver_valueChanged values p)) = volume_percent_ p.
Proof.
  induction values as [|v rest IH]; intros p; cbn [deliver_valueChanged];
    [auto|].
  destruct (SetVolumeModifier_fields v p) as (Hv & Hp & _).
  destruct (SetVolumeModifier v p) as [p1 e1]. cbn [fst] in Hv, Hp.
  specialize (IH p1). destruct (deliver_valueChanged rest p1) as [p2 e2].
  cbn [fst] in *. destruct IH as (-> & ->). auto.
Qed.

Lemma deliver_valueChanged_without_volume (values : list qreal) :
  forall p : Pipeline,
    volume_ p = None -> deliver_valueChanged values p = (p, []).
Proof.
  induction values as [|v rest IH]; intros p Hv; cbn [deliver_valueChanged];
    [reflexivity|].
  unfold SetVolumeModifier. rewrite Hv. now rewrite (IH p Hv).
Qed.

(** C5 (as amended). While another fader is running the new start time is
    the old fader's current time if the durations agree, and otherwise
    [qRound (new_duration * (old_current / old_duration))] in [qreal]
    arithmetic; with no running fader it is 0 for a forward fade and the full
    duration for a backward fade.  The new fader is created with the new
    duration, gets direction, easing curve and that start time, and is
    resumed.  Its current value becomes the volume modifier, and is the last
    volume sent to the volume element, before [StartFader] returns when the
    pipeline has a volume element; without one the modifier is left as it
    was and nothing is sent to GStreamer. *)
Theorem StartFader_start_time :
  forall (duration_nanosec : Z) (dir : Direction) (shape : Z)
         (use_fudge_timer : bool) (p : Pipeline),
    let d := duration_msec kNsecPerMsec duration_nanosec in
    let t := start_time kNsecPerMsec duration_nanosec dir p in
    let f' := new_fader kNsecPerMsec duration_nanosec dir shape p in
    let r := StartFader kNsecPerMsec duration_nanosec dir shape
               use_fudge_timer p in
    (forall f, fader_ p = Some f -> tl_state f = Running ->
       (d = tl_duration f -> t = currentTime f)
       /\ (d <> tl_duration f ->
             t = qRound (d_mul (d_of_int d)
                           (d_div (d_of_int (currentTime f))
                                      (d_of_int (tl_duration f))))))
    /\ ((forall f, fader_ p = Some f -> tl_state f <> Running) ->
          t = match dir with Forward => 0 | Backward => d end)
    /\ f' = resume (setCurrentTime (wrap_int t)
                      (setEasingCurve shape
                         (setDirection dir (QTimeLine_new (wrap_int d)))))
    /\ fader_ (fst r) = Some f'
    /\ use_fudge_timer_ (fst r) = use_fudge_timer
    /\ (volume_ p <> None ->
          volume_modifier_ (fst r) = currentValue f'
          /\ exists earlier,
               snd r = earlier
                       ++ [GObjectSet_volume (volume_ p)
                             (d_mul
                                (d_mul (d_of_int (volume_percent_ p)) d_centi)
                                (currentValue f'))])
    /\ (volume_ p = None ->
          volume_modifier_ (fst r) = volume_modifier_ p /\ snd r = []).
Proof.
  intros duration_nanosec dir shape use_fudge_timer p. cbv zeta.
  split; [|split; [|split; [|split; [|split; [|split]]]]].
  - intros f Hf Hrun. unfold start_time. rewrite Hf.
    rewrite (bool_decide_eq_true_2 _ Hrun). split; intros Hd.
    + now rewrite (proj2 (Z.eqb_eq _ _) Hd).
    + now rewrite (proj2 (Z.eqb_neq _ _) Hd).
  - apply start_time_no_running_fader.
  - reflexivity.
  - unfold StartFader.
    destruct (deliver_valueChanged _ _) as [p1 e1].
    unfold SetVolumeModifier. cbn. now destruct (volume_ p1).
  - unfold StartFader.
    destruct (deliver_valueChanged _ _) as [p1 e1].
    unfold SetVolumeModifier. cbn. now destruct (volume_ p1).
  - intros Hv. unfold StartFader.
    match goal with |- context [deliver_valueChanged ?vs ?q] =>
      destruct (deliver_valueChanged_fields vs q) as (Hv1 & Hp1);
      destruct (deliver_valueChanged vs q) as [p1 e1] end.
    cbn in Hv1, Hp1.
    unfold SetVolumeModifier, UpdateVolume. cbn. rewrite Hv1, Hp1.
    destruct (volume_ p) eqn:E; [|contradiction]. cbn.
    split; [reflexivity|]. exists e1. reflexivity.
  - intros Hv. unfold StartFader.
    rewrite deliver_valueChanged_without_volume by exact Hv.
    unfold SetVolumeModifier. cbn. rewrite Hv. cbn. auto.
Qed.

End GstEnginePipelineFacts.

(** C5, as the claim states it, fails in two ways.  On a pipeline without
    a volume element a forward fade over 4000 ms starts at value 0, but
    [SetVolumeModifier] returns at its guard and the modifier stays 1.  And
    a fader that takes over a linear fade a quarter through (modifier 1/4)
    with the easing curve [InQuad] starts at the same relative position,
    where its value is 1/16: the modifier jumps. *)
Lemma StartFader_modifier_not_carried_over :
  GstEnginePipeline.volume_ GstEnginePipeline.pipeline_without_volume = None
  /\ GstEnginePipeline.currentValue
       (GstEnginePipeline.new_fader 1000000 4000000000
          GstEnginePipeline.Forward 0 GstEnginePipeline.pipeline_without_volume)
     = Qmake 0 1
  /\ GstEnginePipeline.volume_modifier_
       (fst (GstEnginePipeline.StartFader 1000000 4000000000
               GstEnginePipeline.Forward 0 false
               GstEnginePipeline.pipeline_without_volume))
     = Qmake 1 1
  /\ snd (GstEnginePipeline.StartFader 1000000 4000000000
            GstEnginePipeline.Forward 0 false
            GstEnginePipeline.pipeline_without_volume) = []
  /\ (GstEnginePipeline.currentValue
        <$> GstEnginePipeline.fader_ GstEnginePipeline.pipeline_fading)
     = Some (Qmake 1 4)
  /\ GstEnginePipeline.volume_modifier_
       (fst (GstEnginePipeline.StartFader 1000000 2000000000
               GstEnginePipeline.Forward 1 false
               GstEnginePipeline.pipeline_fading))
     = Qmake 1 16.
Proof. repeat split. Qed.

Section StartFaderExact.

Import GstEnginePipeline.

Context {QTimeLine : Type} `{TL : QTimeLineOps Q QTimeLine}.

Lemma rescaled_time_exact (d c o : Z) :
  0 < o ->
  qRound (d_mul (d_of_int d) (d_div (d_of_int c) (d_of_int o)))
  = (2 * d * c + o) / (2 * o).
Proof.
  intros Ho. cbn [qRound d_mul d_div d_of_int DoubleOps_Q].
  rewrite Zdiv_Qdiv. apply Qfloor_comp.
  rewrite Qred_correct.
  setoid_rewrite (Qred_correct (inject_Z c / inject_Z o)).
  rewrite !inject_Z_plus, !inject_Z_mult.
  assert (Hne : ~ inject_Z o == 0).
  { change 0%Q with (inject_Z 0). rewrite inject_Z_injective. lia. }
  field. exact Hne.
Qed.


End StartFaderExact.


(** Taking over a fade that is a quarter through: the new fader over 2000
    ms starts at 500 ms, and the volume element gets 100 * 0.01 * 1/4. *)
Example StartFader_takes_over :
  snd (GstEnginePipeline.StartFader 1000000 2000000000
         GstEnginePipeline.Forward 0 false GstEnginePipeline.pipeline_fading)
  = [GstEnginePipeline.GObjectSet_volume (Some 3%positive) (Qmake 1 4);
     GstEnginePipeline.GObjectSet_volume (Some 3%positive) (Qmake 1 4)].
Proof. vm_compute. reflexivity. Qed.

(** Three callbacks after [SetNextUrl] stored a URL: one assignment. *)
Example AboutToFinishCallback_three_times :
  snd (GstEnginePipeline.about_to_finish_run
         GstEnginePipeline.next_url_not_empty 3
         (GstEnginePipeline.SetNextUrl [Byte.x61] "next" 0 (-1)
            GstEnginePipeline.pipeline_with_volume))
  = [GstEnginePipeline.GObjectSet_uri (Some 1%positive) [Byte.x61]].
Proof. reflexivity. Qed.

(** Once the next stream has started (which clears the flag) and another
    URL is stored, the next callback assigns again. *)
Example AboutToFinishCallback_after_stream_start :
  snd (GstEnginePipeline.run_events GstEnginePipeline.next_url_not_empty
         [GstEnginePipeline.EvAboutToFinish;
          GstEnginePipeline.EvAboutToFinish;
          GstEnginePipeline.EvOther
            (fun p => GstEnginePipeline.SetNextUrl [Byte.x62] "later" 0 (-1)
                        (fst (GstEnginePipeline.StreamStartMessageReceived p)));
          GstEnginePipeline.EvAboutToFinish]
         (GstEnginePipeline.SetNextUrl [Byte.x61] "next" 0 (-1)
            GstEnginePipeline.pipeline_with_volume))
  = [GstEnginePipeline.GObjectSet_uri (Some 1%positive) [Byte.x61];
     GstEnginePipeline.GObjectSet_uri (Some 1%positive) [Byte.x62]].
Proof. reflexivity. Qed.

(** A buffering cycle: 0 percent while playing, 40 percent, 100 percent. *)
Example BufferingMessageReceived_cycle :
  let q := (GstEnginePipeline.GST_STATE_CHANGE_SUCCESS,
            GstEnginePipeline.GST_STATE_PLAYING) in
  let msg := GstEnginePipeline.Build_GstMessage (Some 2%positive) in
  let r1 := GstEnginePipeline.BufferingMessageReceived q (msg 0)
              GstEnginePipeline.pipeline_with_volume in
  let r2 := GstEnginePipeline.BufferingMessageReceived q (msg 40) (fst r1) in
  let r3 := GstEnginePipeline.BufferingMessageReceived q (msg 100) (fst r2) in
  snd r1 ++ snd r2 ++ snd r3
  = [GstEnginePipeline.Emit_BufferingStarted;
     GstEnginePipeline.Call_SetState GstEnginePipeline.GST_STATE_PAUSED;
     GstEnginePipeline.Emit_BufferingProgress 40;
     GstEnginePipeline.Emit_BufferingFinished;
     GstEnginePipeline.Call_SetState GstEnginePipeline.GST_STATE_PLAYING]
  /\ fst r3 = GstEnginePipeline.pipeline_with_volume.
Proof. split; reflexivity. Qed.

Section LoggingFacts.

Import Logging.

Variables Level_Error Level_Debug : Z.
Variable toInt : QString -> bool * Z.

Local Abbreviation parse_item := (parse_item Level_Error toInt).
Local Abbreviation apply_item := (apply_item Level_Error Level_Debug toInt).
Local Abbreviation conforming := (conforming Level_Error Level_Debug toInt).

Lemma parse_item_conforming (item cn : QString) (lv : Z) :
  conforming item cn lv -> parse_item item = (cn, true, lv).
Proof.
  intros ([[Hlen Hcn]|[Hlen Hcn]] & Hint & _); unfold Logging.parse_item;
    rewrite Hlen; cbn [Nat.eqb]; rewrite Hint; subst cn; reflexivity.
Qed.

Lemma apply_item_conforming (item cn : QString) (lv : Z) (st : Z * gmap string Z) :
  conforming item cn lv ->
  apply_item st item
  = if String.eqb cn EmptyString || String.eqb cn "*"
    then (lv, snd st) else (fst st, <[cn := lv]> (snd st)).
Proof.
  intros Hc. unfold Logging.apply_item.
  rewrite (parse_item_conforming item cn lv Hc).
  destruct Hc as (_ & _ & Hlo & Hhi). cbn [negb orb].
  rewrite (proj2 (Z.ltb_ge _ _) Hlo).
  rewrite Z.gtb_ltb, (proj2 (Z.ltb_ge _ _) Hhi).
  reflexivity.
Qed.

Lemma apply_item_changes_only_if_conforming (item : QString) (st : Z * gmap string Z) :
  apply_item st item <> st -> exists cn lv, conforming item cn lv.
Proof.
  unfold Logging.apply_item, Logging.conforming, Logging.parse_item.
  destruct (length (split ":" item) =? 1)%nat eqn:E1;
    [|destruct (length (split ":" item) =? 2)%nat eqn:E2].
  - destruct (toInt (last (split ":" item))) as [ok v] eqn:Hint. cbn [fst snd].
    destruct ok; cbn [negb orb]; [|congruence].
    destruct (v <? Level_Error) eqn:Hlo; cbn [orb]; [congruence|].
    destruct (v >? Level_Debug) eqn:Hhi; [congruence|]. intros _.
    exists EmptyString, v. apply Nat.eqb_eq in E1. apply Z.ltb_ge in Hlo.
    rewrite Z.gtb_ltb in Hhi. apply Z.ltb_ge in Hhi. auto.
  - destruct (toInt (last (split ":" item))) as [ok v] eqn:Hint. cbn [fst snd].
    destruct ok; cbn [negb orb]; [|congruence].
    destruct (v <? Level_Error) eqn:Hlo; cbn [orb]; [congruence|].
    destruct (v >? Level_Debug) eqn:Hhi; [congruence|]. intros _.
    exists (first (split ":" item)), v. apply Nat.eqb_eq in E2.
    apply Z.ltb_ge in Hlo. rewrite Z.gtb_ltb in Hhi. apply Z.ltb_ge in Hhi.
    auto.
  - cbn [negb orb]. congruence.
Qed.

(** C10 (as amended). Once [Init] has created the class-level map,
    [SetLevels] runs the loop body over the comma-separated items in order.
    The body changes a level only for an item with one or two
    colon-separated fields whose last field reads as an integer between
    [Level_Error] and [Level_Debug]; such an item sets the default level when
    its class name is empty or "*" and the level of its class otherwise, and
    every other item leaves the default level and all class levels alone.
    Before [Init], [SetLevels] returns at its first line and changes
    nothing. *)
Theorem SetLevels_skips_malformed :
  (forall levels d m,
     SetLevels Level_Error Level_Debug toInt levels (mkStatics d (Some m))
     = mkStatics (fst (fold_left apply_item (split "," levels) (d, m)))
                 (Some (snd (fold_left apply_item (split "," levels) (d, m)))))
  /\ (forall item st, apply_item st item <> st ->
        exists cn lv, conforming item cn lv)
  /\ (forall item cn lv d m, conforming item cn lv ->
        (cn = EmptyString \/ cn = "*"%string -> apply_item (d, m) item = (lv, m))
        /\ (cn <> EmptyString -> cn <> "*"%string ->
              apply_item (d, m) item = (d, <[cn := lv]> m)))
  /\ (forall item st, (forall cn lv, ~ conforming item cn lv) ->
        apply_item st item = st)
  /\ (forall levels d,
        SetLevels Level_Error Level_Debug toInt levels (mkStatics d None)
        = mkStatics d None).
Proof.
  split; [|split; [|split; [|split]]].
  - reflexivity.
  - apply apply_item_changes_only_if_conforming.
  - intros item cn lv d m Hc. rewrite (apply_item_conforming _ _ _ _ Hc).
    split.
    + intros [->| ->]; reflexivity.
    + intros H1 H2. apply String.eqb_neq in H1, H2. now rewrite H1, H2.
  - intros item st Hn.
    destruct (decide (apply_item st item = st)) as [E|E]; [exact E|].
    destruct (apply_item_changes_only_if_conforming item st E) as (cn & lv & Hc).
    now destruct (Hn cn lv).
  - reflexivity.
Qed.

End LoggingFacts.

(** C10, as the claim states it, fails before [Init]: the item "0" has one
    field that reads as the level 0 = [Level_Error], so it conforms with an
    empty class name, yet [SetLevels] leaves the default level at 3. *)
Lemma SetLevels_before_Init :
  Logging.conforming 0 3 Logging.toInt_decimal "0" EmptyString 0
  /\ Logging.sDefaultLevel
       (Logging.SetLevels 0 3 Logging.toInt_decimal "0" Logging.statics_at_start)
     = 3.
Proof.
  split; [|reflexivity].
  unfold Logging.conforming. cbn. split; [left; auto|]. split; [reflexivity|lia].
Qed.

(** The default string [kDefaultLogLevels] after [Init]. *)
Example SetLevels_default_levels :
  let st := Logging.SetLevels 0 3 Logging.toInt_decimal
              "GstEnginePipeline:2,*:3" (Logging.Init Logging.statics_at_start) in
  Logging.sDefaultLevel st = 3
  /\ Logging.sClassLevels st = Some {[ "GstEnginePipeline"%string := 2 ]}.
Proof. vm_compute. split; reflexivity. Qed.

(** Malformed items are skipped, the others are applied in order. *)
Example SetLevels_mixed_items :
  let st := Logging.SetLevels 0 3 Logging.toInt_decimal
              "a:b:c,Foo:9,:1,Bar:x,Baz:0,7" (Logging.Init Logging.statics_at_start) in
  Logging.sDefaultLevel st = 1
  /\ Logging.sClassLevels st = Some {[ "Baz"%string := 0 ]}.
Proof. vm_compute. split; reflexivity. Qed.

Section StretchHeaderViewFacts.

Import QDataStream StretchHeaderView.

Context {double : Type} `{DO : DoubleOps double}.

Local Abbreviation View := (@View double).

Lemma section_at_of_nat (v : View) (i : nat) :
  section_at v (Z.of_nat i) = sections v !! i.
Proof.
  unfold section_at. destruct (Z.ltb_spec (Z.of_nat i) 0); [lia|].
  now rewrite Nat2Z.id.
Qed.

Lemma all_hidden_true (logical : Z) (v : View) :
  (forall i, (i < count v)%nat -> Z.of_nat i <> logical ->
     isSectionHidden v (Z.of_nat i) = true \/ sectionSize v (Z.of_nat i) = 0) ->
  all_hidden logical v = true.
Proof.
  intros H. unfold all_hidden. apply forallb_forall. intros i Hi.
  apply in_seq in Hi.
  destruct (Z.eqb_spec (Z.of_nat i) logical) as [E|E]; [reflexivity|].
  destruct (H i ltac:(lia) E) as [Hh|Hs].
  - rewrite Hh. reflexivity.
  - rewrite Hs. cbn. now rewrite andb_false_r.
Qed.

Lemma forallb_false_exists {A} (f : A -> bool) (l : list A) :
  forallb f l = false -> exists x, In x l /\ f x = false.
Proof.
  induction l as [|a l IH]; cbn; [discriminate|].
  destruct (f a) eqn:Ha; cbn.
  - intros H. destruct (IH H) as (x & Hx & Hf). eauto.
  - intros _. eauto.
Qed.

Lemma all_hidden_false (logical : Z) (v : View) :
  all_hidden logical v = false ->
  exists i s, Z.of_nat i <> logical /\ sections v !! i = Some s
              /\ sec_hidden s = false.
Proof.
  unfold all_hidden. intros H.
  destruct (forallb_false_exists _ _ H) as (i & Hi & Hf).
  apply negb_false_iff in Hf.
  apply andb_prop in Hf as [Hf _]. apply andb_prop in Hf as [Hne Hh].
  apply negb_true_iff in Hne, Hh. apply Z.eqb_neq in Hne.
  unfold isSectionHidden in Hh. rewrite section_at_of_nat in Hh.
  destruct (sections v !! i) as [s|] eqn:Hs.
  - exists i, s. auto.
  - apply in_seq in Hi. apply lookup_ge_None in Hs. unfold count in Hi. lia.
Qed.

Lemma some_visible_lookup (v : View) (i : nat) (s : HeaderSection) :
  sections v !! i = Some s -> sec_hidden s = false -> some_visible v = true.
Proof.
  intros Hs Hh. unfold some_visible. apply existsb_exists. exists s.
  split; [|now rewrite Hh].
  apply list_elem_of_In, list_elem_of_lookup. eauto.
Qed.

Lemma hideSection_other (logical : Z) (v : View) (i : nat) :
  Z.of_nat i <> logical ->
  sections (hideSection logical v) !! i = sections v !! i.
Proof.
  intros Hne. unfold hideSection, setSectionHidden.
  destruct (Z.ltb_spec logical 0); [reflexivity|]. cbn.
  apply list_lookup_alter_ne. lia.
Qed.

Lemma HideSection_non_stretch (logical : Z) (v : View) :
  stretch_enabled_ v = false -> some_visible v = true ->
  exists v', HideSection logical v = Some v'
             /\ some_visible v' = true /\ stretch_enabled_ v' = false.
Proof.
  intros Hst Hvis. unfold HideSection.
  destruct (all_hidden logical v) eqn:Ha.
  - exists v. auto.
  - rewrite Hst. cbn [negb]. exists (hideSection logical v).
    split; [reflexivity|]. split.
    + destruct (all_hidden_false _ _ Ha) as (i & s & Hne & Hs & Hh).
      apply (some_visible_lookup _ i s); [|exact Hh].
      now rewrite hideSection_other.
    + unfold hideSection, setSectionHidden.
      now destruct (logical <? 0).
Qed.

Lemma HideSections_non_stretch (ls : list Z) :
  forall v : View,
    stretch_enabled_ v = false -> some_visible v = true ->
    exists v', HideSections ls v = Some v'
               /\ some_visible v' = true /\ stretch_enabled_ v' = false.
Proof.
  induction ls as [|l ls IH]; intros v Hst Hvis; cbn [HideSections].
  - exists v. auto.
  - destruct (HideSection_non_stretch l v Hst Hvis) as (v1 & E & Hvis1 & Hst1).
    rewrite E. now apply IH.
Qed.

(** C8 (as amended). If every section other than [logical] is hidden or has
    size 0, [HideSection logical] returns the header as it is: no section's
    visibility and no stored column width changes.  With stretch mode off,
    any sequence of [HideSection] calls on a header that shows a section
    runs to its end and leaves a section shown. *)
Theorem HideSection_keeps_last_section :
  forall v : View,
    (forall logical,
       (forall i, (i < count v)%nat -> Z.of_nat i <> logical ->
          isSectionHidden v (Z.of_nat i) = true
          \/ sectionSize v (Z.of_nat i) = 0) ->
       HideSection logical v = Some v)
    /\ (stretch_enabled_ v = false -> some_visible v = true ->
        forall ls, exists v',
          HideSections ls v = Some v'
          /\ some_visible v' = true /\ stretch_enabled_ v' = false).
Proof.
  intros v. split.
  - intros logical H. unfold HideSection.
    now rewrite (all_hidden_true logical v H).
  - intros Hst Hvis ls. now apply HideSections_non_stretch.
Qed.

Lemma RestoreState_bad_magic (sdata : QByteArray) (v : View) :
  fst (read_qint32 sdata) <> kMagicNumber ->
  RestoreState sdata v = (false, v, []).
Proof.
  intros H. unfold RestoreState.
  destruct (read_qint32 sdata) as [magic s1]. cbn [fst] in H.
  apply Z.eqb_neq in H. now rewrite H.
Qed.

Lemma RestoreState_nothing_after_magic (sdata : QByteArray) (v : View) :
  snd (read_qint32 sdata) = [] ->
  RestoreState sdata v = (false, v, []).
Proof.
  intros H. unfold RestoreState.
  destruct (read_qint32 sdata) as [magic s1]. cbn [snd] in H. subst s1.
  cbn [atEnd]. now rewrite orb_true_r.
Qed.

(** C9. If the first integer read from the data is not [kMagicNumber], or
    the stream is at its end right after that integer, [RestoreState]
    returns false, emits nothing and leaves the header (stretch flag, column
    widths, sort indicator, every section's visibility, position and size)
    exactly as it was. *)
Theorem RestoreState_rejects_foreign_data :
  forall (sdata : QByteArray) (v : View),
    fst (read_qint32 sdata) <> kMagicNumber
    \/ snd (read_qint32 sdata) = [] ->
    RestoreState sdata v = (false, v, []).
Proof.
  intros sdata v [H|H].
  - now apply RestoreState_bad_magic.
  - now apply RestoreState_nothing_after_magic.
Qed.

(** A byte array that starts with the magic number and has more data is
    accepted. *)
Lemma RestoreState_accepts (sdata : QByteArray) (v : View) :
  fst (read_qint32 sdata) = kMagicNumber ->
  snd (read_qint32 sdata) <> [] ->
  fst (fst (RestoreState sdata v)) = true.
Proof.
  intros Hm Hs. unfold RestoreState.
  destruct (read_qint32 sdata) as [magic s1]. cbn [fst snd] in Hm, Hs.
  rewrite Hm, Z.eqb_refl. cbn [negb orb].
  destruct s1 as [|b s1]; [contradiction|]. cbn [atEnd].
  destruct (read_bool (b :: s1)) as [stretch s2].
  destruct (read_QList try_qint32 s2) as [pw s3].
  destruct (read_QList try_qint32 s3) as [vi s4].
  destruct (read_QList try_double s4) as [ws s5].
  destruct (read_qint32 s5) as [so s6].
  destruct (read_qint32 s6) as [ss s7].
  reflexivity.
Qed.

End StretchHeaderViewFacts.

(** C8, as the claim states it, fails in stretch mode: on a widget of width
    0 every column comes to 0 pixels, so [UpdateWidths] hides both columns,
    the one asked for and the last one shown. *)
Lemma HideSection_stretch_hides_all :
  StretchHeaderView.some_visible StretchHeaderView.two_columns_width0 = true
  /\ StretchHeaderView.all_hidden 0 StretchHeaderView.two_columns_width0 = false
  /\ StretchHeaderView.some_visible
       <$> StretchHeaderView.HideSection 0 StretchHeaderView.two_columns_width0
     = Some false.
Proof. repeat split. Qed.

Example HideSections_two_columns_fixed :
  StretchHeaderView.sections
    <$> StretchHeaderView.HideSections [0; 1] StretchHeaderView.two_columns_fixed
  = Some [StretchHeaderView.mkSection true 100;
          StretchHeaderView.mkSection false 100].
Proof. reflexivity. Qed.

(** C9 at a byte array that holds the magic number and nothing else. *)
Lemma RestoreState_rejects_foreign_data_witness :
  (fst (QDataStream.read_qint32
          (QDataStream.write_qint32 StretchHeaderView.kMagicNumber))
   <> StretchHeaderView.kMagicNumber
   \/ snd (QDataStream.read_qint32
             (QDataStream.write_qint32 StretchHeaderView.kMagicNumber)) = [])
  /\ StretchHeaderView.RestoreState
       (QDataStream.write_qint32 StretchHeaderView.kMagicNumber)
       StretchHeaderView.two_columns_fixed
     = (false, StretchHeaderView.two_columns_fixed, []).
Proof.
  split.
  - right. reflexivity.
  - apply (RestoreState_rejects_foreign_data
             (QDataStream.write_qint32 StretchHeaderView.kMagicNumber)
             StretchHeaderView.two_columns_fixed).
    right. reflexivity.
Defined.

(** The magic number followed by one byte is accepted. *)
Lemma RestoreState_accepts_witness :
  fst (fst (StretchHeaderView.RestoreState
              (QDataStream.write_qint32 StretchHeaderView.kMagicNumber
               ++ [Byte.x00])
              StretchHeaderView.two_columns_fixed)) = true.
Proof.
  apply (RestoreState_accepts
           (QDataStream.write_qint32 StretchHeaderView.kMagicNumber ++ [Byte.x00])
           StretchHeaderView.two_columns_fixed).
  - reflexivity.
  - discriminate.
Defined.

(** A saved state for two columns: stretch mode off, pixel widths 50 and 5,
    the columns swapped, proportional widths 1/2 each, sorted by column 1 in
    descending order.  Column 1 is narrower than [kMinimumColumnWidth] and
    comes back hidden. *)
Example RestoreState_two_columns :
  let w32 := QDataStream.write_qint32 in
  let half := [Byte.x3f; Byte.xe0; Byte.x00; Byte.x00;
               Byte.x00; Byte.x00; Byte.x00; Byte.x00] in
  StretchHeaderView.RestoreState
    (w32 StretchHeaderView.kMagicNumber ++ [Byte.x00]
     ++ w32 2 ++ w32 50 ++ w32 5
     ++ w32 2 ++ w32 1 ++ w32 0
     ++ w32 2 ++ half ++ half
     ++ w32 1 ++ w32 1)
    StretchHeaderView.two_columns_fixed
  = (true,
     StretchHeaderView.mkView
       [StretchHeaderView.mkSection false 50;
        StretchHeaderView.mkSection true 5]
       [1%nat; 0%nat] 1 1 200 false [Qmake 1 2; Qmake 1 2],
     [StretchHeaderView.StretchEnabledChanged false]).
Proof. vm_compute. reflexivity. Qed.

Example RestoreState_wrong_magic :
  StretchHeaderView.RestoreState
    (QDataStream.write_qint32 1 ++ [Byte.x01]) StretchHeaderView.two_columns_fixed
  = (false, StretchHeaderView.two_columns_fixed, []).
Proof. reflexivity. Qed.

Example RestoreState_short_data :
  StretchHeaderView.RestoreState [Byte.x50; Byte.x2c; Byte.x95]
    StretchHeaderView.two_columns_fixed
  = (false, StretchHeaderView.two_columns_fixed, []).
Proof. reflexivity. Qed.

Section QobuzStreamURLRequestFacts.

Import QobuzStreamURLRequest.

Context {double : Type} `{DO : DoubleOps double}.

Local Abbreviation Surroundings := (@Surroundings double).

Lemma Error_fields (msg : QString) (r : Request) :
  reply_ (Error msg r) = reply_ r /\ original_url_ (Error msg r) = original_url_ r
  /\ id_ (Error msg r) = id_ r /\ song_id_ (Error msg r) = song_id_ r
  /\ tries_ (Error msg r) = tries_ r /\ need_login_ (Error msg r) = need_login_ r.
Proof. unfold Error. destruct (String.eqb msg EmptyString); cbn; auto 10. Qed.

Lemma Error_no_empty (msg : QString) (r : Request) :
  no_empty_error r -> no_empty_error (Error msg r).
Proof.
  unfold no_empty_error, Error. intros H.
  destruct (String.eqb_spec msg EmptyString); [exact H|]. cbn.
  apply Forall_app. split; [exact H|]. now constructor.
Qed.

Lemma report_cons (e : QString) (errs : list QString) (r : Request) :
  report (e :: errs) r = report errs (Error e r).
Proof. reflexivity. Qed.

Lemma report_fields (errs : list QString) :
  forall r : Request,
    reply_ (report errs r) = reply_ r
    /\ original_url_ (report errs r) = original_url_ r
    /\ id_ (report errs r) = id_ r /\ song_id_ (report errs r) = song_id_ r
    /\ tries_ (report errs r) = tries_ r
    /\ need_login_ (report errs r) = need_login_ r.
Proof.
  induction errs as [|e errs IH]; intros r; [cbn; auto 10|].
  rewrite report_cons.
  destruct (IH (Error e r)) as (-> & -> & -> & -> & -> & ->).
  apply Error_fields.
Qed.

Lemma report_no_empty (errs : list QString) :
  forall r : Request, no_empty_error r -> no_empty_error (report errs r).
Proof.
  induction errs as [|e errs IH]; intros r H; [exact H|].
  rewrite report_cons. apply IH. now apply Error_no_empty.
Qed.

Lemma emit_failure_recorded (filetype : FileType) (r : Request) :
  no_empty_error r -> errors_ r <> [] ->
  exists e,
    emit_failure filetype r
    = Some (r, [StreamURLFinished (id_ r) (original_url_ r) (original_url_ r)
                  filetype (-1) (-1) (-1) e])
    /\ e <> EmptyString.
Proof.
  unfold emit_failure, no_empty_error. intros Hne Herr.
  destruct (errors_ r) as [|e rest]; [contradiction|].
  exists e. split; [reflexivity|]. now inversion Hne.
Qed.

Lemma emit_failure_after_Error (filetype : FileType) (msg : QString) (r : Request) :
  no_empty_error r -> msg <> EmptyString ->
  exists e,
    emit_failure filetype (Error msg r)
    = Some (Error msg r,
            [StreamURLFinished (id_ r) (original_url_ r) (original_url_ r)
               filetype (-1) (-1) (-1) e])
    /\ e <> EmptyString.
Proof.
  intros Hne Hmsg.
  destruct (emit_failure_recorded filetype (Error msg r)) as (e & E & He).
  - now apply Error_no_empty.
  - unfold Error. apply String.eqb_neq in Hmsg. rewrite Hmsg. cbn.
    now destruct (errors_ r).
  - exists e. split; [|exact He]. rewrite E.
    destruct (Error_fields msg r) as (_ & -> & -> & _). reflexivity.
Qed.

Lemma contains_None (obj : gmap string (QJsonValue double)) (key : string) :
  obj !! key = None -> contains obj key = false.
Proof.
  intros H. unfold contains. apply bool_decide_eq_false_2.
  rewrite H. apply is_Some_None.
Qed.

Lemma contains_Some (obj : gmap string (QJsonValue double)) (key : string) :
  is_Some (obj !! key) -> contains obj key = true.
Proof. intros H. unfold contains. now apply bool_decide_eq_true_2. Qed.

(** C6 (as amended). A reply is processed when [reply_] is set.  If its
    data is empty while the service is not authenticated, a login has been
    sent and at most one try was made, the request sets [need_login_] and
    emits nothing.  Otherwise empty data, and likewise an empty JSON object,
    lead to [StreamURLFinished] with the original URL and the first recorded
    error (the helper of the base class must have recorded one).  A JSON
    object without [track_id], with a [track_id] other than the requested
    song id, without [mime_type] or [url], or with an invalid [url] leads to
    [StreamURLFinished] with the original URL and an error message.  Only
    when all these checks pass is [StreamURLFinished] emitted with the
    returned URL and an empty error. *)
Theorem StreamURLReceived_validation :
  forall (env : Surroundings) (r : Request) (rp : positive),
    reply_ r = Some rp ->
    no_empty_error r ->
    let data := fst (GetReplyData env rp) in
    let r1 := report (snd (GetReplyData env rp)) (with_reply None r) in
    let json := fst (ExtractJsonObj env data) in
    let r2 := report (snd (ExtractJsonObj env data)) r1 in
    (data = [] -> authenticated env = false -> login_sent env = true ->
     tries_ r <= 1 ->
       StreamURLReceived env r = Some (with_need_login true r1, []))
    /\ (data = [] ->
        authenticated env = true \/ login_sent env = false \/ 1 < tries_ r ->
          StreamURLReceived env r = emit_failure FileType_Stream r1
          /\ (errors_ r1 <> [] ->
              exists sigs, StreamURLReceived env r = Some (r1, sigs)
                           /\ is_failure r sigs))
    /\ (data <> [] -> json = ∅ ->
          StreamURLReceived env r = emit_failure FileType_Stream r2
          /\ (errors_ r2 <> [] ->
              exists sigs, StreamURLReceived env r = Some (r2, sigs)
                           /\ is_failure r sigs))
    /\ (data <> [] -> json <> ∅ ->
        json !! "track_id"%string = None
        \/ toInt (json !! "track_id"%string) <> song_id_ r
        \/ json !! "mime_type"%string = None
        \/ json !! "url"%string = None
        \/ isValid env (toString (json !! "url"%string)) = false ->
          exists r' sigs, StreamURLReceived env r = Some (r', sigs)
                          /\ is_failure r sigs)
    /\ (data <> [] -> json <> ∅ ->
        is_Some (json !! "track_id"%string) ->
        toInt (json !! "track_id"%string) = song_id_ r ->
        is_Some (json !! "mime_type"%string) ->
        is_Some (json !! "url"%string) ->
        isValid env (toString (json !! "url"%string)) = true ->
          exists filetype samplerate bit_depth duration,
            StreamURLReceived env r
            = Some (r2, [StreamURLFinished (id_ r) (original_url_ r)
                           (toString (json !! "url"%string)) filetype
                           samplerate bit_depth duration EmptyString])).
Proof.
  intros env r rp Hreply Hne. cbv zeta.
  unfold StreamURLReceived. rewrite Hreply.
  destruct (GetReplyData env rp) as [data errs]. cbn [fst snd].
  set (r1 := report errs (with_reply None r)).
  assert (Hf1 : original_url_ r1 = original_url_ r /\ id_ r1 = id_ r
                /\ song_id_ r1 = song_id_ r /\ tries_ r1 = tries_ r).
  { subst r1. destruct (report_fields errs (with_reply None r))
      as (_ & -> & -> & -> & -> & _). cbn. auto. }
  destruct Hf1 as (Hu1 & Hi1 & Hs1 & Ht1).
  assert (Hne1 : no_empty_error r1) by (subst r1; now apply report_no_empty).
  split; [|split; [|split; [|split]]].
  - intros -> Ha Hl Ht. cbn [isEmpty]. rewrite Ha, Hl, Ht1. cbn.
    now rewrite (proj2 (Z.leb_le _ _) Ht).
  - intros -> Hgate. cbn [isEmpty].
    assert (Hg : negb (authenticated env) && login_sent env && (tries_ r1 <=? 1) = false).
    { destruct Hgate as [H|[H|H]].
      - now rewrite H.
      - rewrite H. now rewrite andb_false_r.
      - rewrite Ht1. rewrite (proj2 (Z.leb_gt _ _) H). now rewrite andb_false_r. }
    rewrite Hg. split; [reflexivity|]. intros Herr.
    destruct (emit_failure_recorded FileType_Stream r1 Hne1 Herr) as (e & E & He).
    rewrite E, Hu1, Hi1. eexists; split; [reflexivity|].
    exists FileType_Stream, e. auto.
  - intros Hd Hj. destruct data as [|b data]; [contradiction|]. cbn [isEmpty].
    destruct (ExtractJsonObj env (b :: data)) as [json errs2]. cbn [fst snd] in *.
    rewrite bool_decide_eq_true_2 by assumption.
    split; [reflexivity|]. intros Herr.
    set (r2 := report errs2 r1) in *.
    assert (Hne2 : no_empty_error r2) by (subst r2; now apply report_no_empty).
    destruct (emit_failure_recorded FileType_Stream r2 Hne2 Herr) as (e & E & He).
    rewrite E. subst r2.
    destruct (report_fields errs2 r1) as (_ & -> & -> & _).
    rewrite Hu1, Hi1. eexists; split; [reflexivity|].
    exists FileType_Stream, e. auto.
  - intros Hd Hj Hbad. destruct data as [|b data]; [contradiction|]. cbn [isEmpty].
    destruct (ExtractJsonObj env (b :: data)) as [json errs2]. cbn [fst snd] in *.
    rewrite bool_decide_eq_false_2 by assumption.
    set (r2 := report errs2 r1) in *.
    assert (Hne2 : no_empty_error r2) by (subst r2; now apply report_no_empty).
    assert (Hf2 : original_url_ r2 = original_url_ r /\ id_ r2 = id_ r
                  /\ song_id_ r2 = song_id_ r).
    { subst r2. destruct (report_fields errs2 r1) as (_ & -> & -> & -> & _). auto. }
    destruct Hf2 as (Hu2 & Hi2 & Hs2).
    assert (Hfail : forall ft msg, msg <> EmptyString ->
              exists r' sigs, emit_failure ft (Error msg r2) = Some (r', sigs)
                              /\ is_failure r sigs).
    { intros ft msg Hmsg.
      destruct (emit_failure_after_Error ft msg r2 Hne2 Hmsg) as (e & E & He).
      rewrite E, Hu2, Hi2. do 2 eexists; split; [reflexivity|].
      exists ft, e. auto. }
    destruct (contains json "track_id") eqn:C1; cbn [negb];
      [|apply Hfail; discriminate].
    rewrite Hs2.
    destruct (Z.eqb_spec (toInt (json !! "track_id"%string)) (song_id_ r));
      cbn [negb]; [|apply Hfail; discriminate].
    destruct (contains json "mime_type") eqn:C2; cbn [negb orb];
      [|apply Hfail; discriminate].
    destruct (contains json "url") eqn:C3; cbn [negb orb];
      [|apply Hfail; discriminate].
    destruct (isValid env (toString (json !! "url"%string))) eqn:C4; cbn [negb];
      [|apply Hfail; discriminate].
    exfalso. destruct Hbad as [H|[H|[H|[H|H]]]].
    + apply contains_None in H. congruence.
    + contradiction.
    + apply contains_None in H. congruence.
    + apply contains_None in H. congruence.
    + discriminate.
  - intros Hd Hj Ht Hid Hm Hu Hv.
    destruct data as [|b data]; [contradiction|]. cbn [isEmpty].
    destruct (ExtractJsonObj env (b :: data)) as [json errs2]. cbn [fst snd] in *.
    rewrite bool_decide_eq_false_2 by assumption.
    set (r2 := report errs2 r1) in *.
    assert (Hf2 : original_url_ r2 = original_url_ r /\ id_ r2 = id_ r
                  /\ song_id_ r2 = song_id_ r).
    { subst r2. destruct (report_fields errs2 r1) as (_ & -> & -> & -> & _). auto. }
    destruct Hf2 as (Hu2 & Hi2 & Hs2).
    rewrite (contains_Some _ _ Ht), (contains_Some _ _ Hm), (contains_Some _ _ Hu).
    cbn [negb orb]. rewrite Hs2, Hid, Z.eqb_refl, Hv. cbn [negb].
    rewrite Hu2, Hi2. do 4 eexists. reflexivity.
Qed.

End QobuzStreamURLRequestFacts.

(** C6, as the claim states it, fails on the first try of a request whose
    reply data is empty while a login is pending: the request only sets
    [need_login_] and emits no [StreamURLFinished]. *)
Lemma StreamURLReceived_login_pending :
  fst (QobuzStreamURLRequest.GetReplyData QobuzStreamURLRequest.login_pending 1)
  = []
  /\ (snd <$> QobuzStreamURLRequest.StreamURLReceived
                QobuzStreamURLRequest.login_pending
                QobuzStreamURLRequest.first_try) = Some []
  /\ (QobuzStreamURLRequest.need_login_ ∘ fst
        <$> QobuzStreamURLRequest.StreamURLReceived
              QobuzStreamURLRequest.login_pending
              QobuzStreamURLRequest.first_try) = Some true.
Proof. repeat split. Qed.

(** C6 at a reply that passes every check: the stream URL is emitted with
    an empty error. *)
Lemma StreamURLReceived_validation_witness :
  QobuzStreamURLRequest.reply_ QobuzStreamURLRequest.first_try = Some 1%positive
  /\ QobuzStreamURLRequest.no_empty_error QobuzStreamURLRequest.first_try
  /\ exists filetype samplerate bit_depth duration,
       QobuzStreamURLRequest.StreamURLReceived QobuzStreamURLRequest.logged_in
         QobuzStreamURLRequest.first_try
       = Some (QobuzStreamURLRequest.with_reply None
                 QobuzStreamURLRequest.first_try,
               [QobuzStreamURLRequest.StreamURLFinished 7 "qobuz:42"
                  "https://host/42.flac" filetype samplerate bit_depth
                  duration EmptyString]).
Proof.
  split; [reflexivity|]. split; [constructor|].
  pose proof (StreamURLReceived_validation QobuzStreamURLRequest.logged_in
                QobuzStreamURLRequest.first_try 1%positive eq_refl
                ltac:(constructor)) as H.
  cbv zeta in H. destruct H as (_ & _ & _ & _ & H).
  apply H.
  - discriminate.
  - intros E. apply (f_equal (fun m => m !! "url"%string)) in E.
    vm_compute in E. discriminate.
  - vm_compute. eauto.
  - reflexivity.
  - vm_compute. eauto.
  - vm_compute. eauto.
  - reflexivity.
Defined.

Example StreamURLReceived_track_42 :
  snd <$> QobuzStreamURLRequest.StreamURLReceived
            QobuzStreamURLRequest.logged_in QobuzStreamURLRequest.first_try
  = Some [QobuzStreamURLRequest.StreamURLFinished 7 "qobuz:42"
            "https://host/42.flac" (QobuzStreamURLRequest.FileType_Other 2)
            (-1) (-1) 180000000000 EmptyString].
Proof. vm_compute. reflexivity. Qed.

Section PlaylistBackendFacts.

Import PlaylistBackend.

Context {PlaylistItem Song BoundValues SongRow : Type}.
Context `{IO : ItemOps PlaylistItem Song BoundValues SongRow}.

Local Abbreviation Database := (@Database BoundValues SongRow).
Local Abbreviation ScopedTransaction := (@ScopedTransaction BoundValues SongRow).
Local Abbreviation ItemRow := (ItemRow BoundValues).
Local Abbreviation CueCache := (gmap string (list Song)).
Local Abbreviation insert_all :=
  (fun playlist => fold_left (fun (d : Database) (item : PlaylistItem) =>
                     insert_playlist_item playlist (BindToQuery item) d)).

(** *** The statements of [SavePlaylist] *)

Lemma insert_items_Some (exec_ok : nat -> bool) (playlist : Z)
  (items : list PlaylistItem) :
  forall (k : nat) (tx : ScopedTransaction),
    (forall j, (k <= j < k + length items)%nat -> exec_ok j = true) ->
    insert_items exec_ok k playlist items tx
    = Some (mkTx (tx_stored tx) (insert_all playlist items (tx_work tx))).
Proof.
  induction items as [|item rest IH]; intros k tx Hok; cbn.
  - now destruct tx.
  - rewrite (Hok k) by (cbn; lia). cbn.
    rewrite IH; [reflexivity|]. intros j Hj. apply Hok. cbn. lia.
Qed.

Lemma insert_items_None (exec_ok : nat -> bool) (playlist : Z)
  (items : list PlaylistItem) :
  forall (k : nat) (tx : ScopedTransaction),
    insert_items exec_ok k playlist items tx = None ->
    exists j, (k <= j < k + length items)%nat /\ exec_ok j = false.
Proof.
  induction items as [|item rest IH]; intros k tx; cbn; [discriminate|].
  destruct (exec_ok k) eqn:Hk; cbn.
  - intros H. destruct (IH _ _ H) as (j & Hj & Hf). exists j. split; [lia|exact Hf].
  - intros _. exists k. split; [lia|exact Hk].
Qed.

Lemma insert_items_stored (exec_ok : nat -> bool) (playlist : Z)
  (items : list PlaylistItem) :
  forall (k : nat) (tx tx' : ScopedTransaction),
    insert_items exec_ok k playlist items tx = Some tx' ->
    tx_stored tx' = tx_stored tx
    /\ forall j, (k <= j < k + length items)%nat -> exec_ok j = true.
Proof.
  induction items as [|item rest IH]; intros k tx tx'; cbn.
  - intros [= <-]. split; [reflexivity|]. intros j Hj. lia.
  - destruct (exec_ok k) eqn:Hk; cbn; [|discriminate].
    intros H. destruct (IH _ _ _ H) as (Hs & Hok). split; [exact Hs|].
    intros j Hj. destruct (decide (j = k)) as [->|Hne]; [exact Hk|].
    apply Hok. lia.
Qed.

Lemma SavePlaylist_all_ok (exec_ok : nat -> bool) (playlist : Z)
  (items : list PlaylistItem) (last : Z) (dynamic : option Generator)
  (db : Database) :
  (forall k, (k <= S (length items))%nat -> exec_ok k = true) ->
  SavePlaylist exec_ok playlist items last dynamic db
  = update_playlist playlist last dynamic
      (insert_all playlist items (delete_playlist_items playlist db)).
Proof.
  intros Hok. unfold SavePlaylist, Exec, transaction.
  rewrite (Hok O) by lia.
  rewrite insert_items_Some by (intros j Hj; apply Hok; cbn in *; lia).
  rewrite (Hok (S (length items))) by lia. reflexivity.
Qed.

Lemma SavePlaylist_failure (exec_ok : nat -> bool) (playlist : Z)
  (items : list PlaylistItem) (last : Z) (dynamic : option Generator)
  (db : Database) :
  (exists k, (k <= S (length items))%nat /\ exec_ok k = false) ->
  SavePlaylist exec_ok playlist items last dynamic db = db.
Proof.
  intros (k & Hk & Hf). unfold SavePlaylist, Exec, transaction, rollback, Commit.
  destruct (exec_ok O) eqn:H0; [|reflexivity].
  destruct (insert_items exec_ok 1 playlist items _) as [tx2|] eqn:Hins;
    [|reflexivity].
  destruct (insert_items_stored _ _ _ _ _ _ Hins) as (Hst & Hok).
  destruct (exec_ok (S (length items))) eqn:Hlast; [|exact Hst].
  exfalso.
  assert (exec_ok k = true); [|congruence].
  destruct (decide (k = O)) as [->|?]; [exact H0|].
  destruct (decide (k = S (length items))) as [->|?]; [exact Hlast|].
  apply Hok. lia.
Qed.

(** C2. [SavePlaylist] opens one transaction, runs the DELETE, one INSERT
    per item and the UPDATE in it, and commits after the last of them.  If
    any of these statements fails the call returns before [Commit], the
    transaction is rolled back, and the database (the items of the playlist,
    its [last_played] and dynamic fields, and everything else) is what it
    was before the call.  If all succeed the database is the result of the
    DELETE, the INSERTs in order and the UPDATE. *)
Theorem SavePlaylist_atomic :
  forall (exec_ok : nat -> bool) (playlist : Z) (items : list PlaylistItem)
         (last : Z) (dynamic : option Generator) (db : Database),
    ((exists k, (k <= S (length items))%nat /\ exec_ok k = false) ->
       SavePlaylist exec_ok playlist items last dynamic db = db)
    /\ ((forall k, (k <= S (length items))%nat -> exec_ok k = true) ->
          SavePlaylist exec_ok playlist items last dynamic db
          = Commit (mkTx db
              (update_playlist playlist last dynamic
                 (insert_all playlist items
                    (delete_playlist_items playlist db))))).
Proof.
  intros. split.
  - apply SavePlaylist_failure.
  - apply SavePlaylist_all_ok.
Qed.

(** *** The rows of the saved playlist *)

Lemma insert_all_rows (playlist : Z) (items : list PlaylistItem) :
  forall db : Database,
    exists rowids,
      length rowids = length items
      /\ playlist_items (insert_all playlist items db)
         = playlist_items db
           ++ zip_with (fun rid item => mkItemRow rid playlist (BindToQuery item))
                       rowids items
      /\ playlists (insert_all playlist items db) = playlists db
      /\ songs (insert_all playlist items db) = songs db.
Proof.
  induction items as [|item rest IH]; intros db; cbn [fold_left].
  - exists []. cbn. now rewrite app_nil_r.
  - destruct (IH (insert_playlist_item playlist (BindToQuery item) db))
      as (rowids & Hlen & Hrows & Hpl & Hso).
    exists (next_rowid (playlist_items db) :: rowids).
    split; [cbn; lia|]. split; [|split].
    + rewrite Hrows. cbn. now rewrite <- app_assoc.
    + now rewrite Hpl.
    + now rewrite Hso.
Qed.

Lemma filter_playlist_removed (playlist : Z) (rows : list ItemRow) :
  filter (fun r => item_playlist r = playlist)
         (filter (fun r => item_playlist r <> playlist) rows) = [].
Proof.
  induction rows as [|r rows IH]; [reflexivity|].
  rewrite (filter_cons (fun r => item_playlist r <> playlist)).
  destruct (decide (item_playlist r <> playlist)) as [Hne|He]; [|exact IH].
  rewrite filter_cons. destruct (decide (item_playlist r = playlist)); [contradiction|exact IH].
Qed.

Lemma filter_playlist_inserted (playlist : Z) (rowids : list Z)
  (items : list PlaylistItem) :
  filter (fun r : ItemRow => item_playlist r = playlist)
         (zip_with (fun rid item => mkItemRow rid playlist (BindToQuery item))
                   rowids items)
  = zip_with (fun rid item => mkItemRow rid playlist (BindToQuery item))
             rowids items.
Proof.
  revert items. induction rowids as [|rid rowids IH]; intros [|item items];
    cbn [zip_with]; try reflexivity.
  rewrite filter_cons. cbn [item_playlist].
  rewrite decide_True by reflexivity.
  now rewrite IH.
Qed.

Lemma select_after_SavePlaylist (exec_ok : nat -> bool) (playlist : Z)
  (items : list PlaylistItem) (last : Z) (dynamic : option Generator)
  (db : Database) :
  (forall k, (k <= S (length items))%nat -> exec_ok k = true) ->
  exists rowids,
    length rowids = length items
    /\ select_playlist_items playlist
         (SavePlaylist exec_ok playlist items last dynamic db)
       = zip_with (saved_row db playlist) rowids items.
Proof.
  intros Hok. rewrite SavePlaylist_all_ok by exact Hok.
  destruct (insert_all_rows playlist items (delete_playlist_items playlist db))
    as (rowids & Hlen & Hrows & _ & Hso).
  exists rowids. split; [exact Hlen|].
  unfold select_playlist_items, update_playlist.
  cbn [playlist_items songs]. rewrite Hrows, Hso. cbn [playlist_items songs delete_playlist_items].
  rewrite filter_app, filter_playlist_removed, filter_playlist_inserted.
  cbn [app]. clear. zip_induction rowids items.
Qed.

(** *** The cache of CUE sheets does not change what is built *)

Lemma cache_sound_empty : cache_sound (∅ : CueCache).
Proof. intros path l H. now rewrite lookup_empty in H. Qed.

Lemma RestoreCueData_cache (item : PlaylistItem) (cache : CueCache) :
  cache_sound cache ->
  fst (RestoreCueData item cache) = fst (RestoreCueData item ∅)
  /\ cache_sound (snd (RestoreCueData item cache)).
Proof.
  intros Hc. unfold RestoreCueData.
  destruct (negb (source item =? Source_LocalFile)); [auto|].
  destruct (negb (has_cue (Metadata item))); [auto|].
  destruct (negb (file_exists (cue_path (Metadata item)))); [auto|].
  rewrite lookup_empty.
  destruct (cache !! cue_path (Metadata item)) as [l|] eqn:Hl.
  - rewrite (Hc _ _ Hl).
    destruct (matching_section (Metadata item) l); auto.
  - destruct (cue_load (cue_path (Metadata item))) as [l|] eqn:Hload; [|auto].
    assert (cache_sound (<[cue_path (Metadata item) := l]> cache)).
    { intros path l' H. destruct (decide (cue_path (Metadata item) = path)) as [<-|Hne].
      - rewrite lookup_insert_eq in H. congruence.
      - rewrite lookup_insert_ne in H by exact Hne. now apply Hc. }
    destruct (matching_section (Metadata item) l); auto.
Qed.

Lemma NewPlaylistItemFromQuery_cache (row : SqlRow BoundValues SongRow)
  (cache : CueCache) :
  cache_sound cache ->
  fst (NewPlaylistItemFromQuery row cache) = item_of_row row
  /\ cache_sound (snd (NewPlaylistItemFromQuery row cache)).
Proof.
  intros Hc. unfold item_of_row, NewPlaylistItemFromQuery.
  destruct (NewFromSource _) as [item|]; [|auto].
  destruct (RestoreCueData_cache (InitFromQuery row item) cache Hc) as (E & Hs).
  destruct (RestoreCueData (InitFromQuery row item) cache) as [i1 c1].
  destruct (RestoreCueData (InitFromQuery row item) ∅) as [i2 c2].
  cbn in *. now subst.
Qed.

Lemma items_from_rows_map (rows : list (SqlRow BoundValues SongRow)) :
  forall cache : CueCache,
    cache_sound cache -> items_from_rows rows cache = map item_of_row rows.
Proof.
  induction rows as [|row rows IH]; intros cache Hc; cbn; [reflexivity|].
  destruct (NewPlaylistItemFromQuery_cache row cache Hc) as (E & Hs).
  destruct (NewPlaylistItemFromQuery row cache) as [item cache1].
  cbn in *. now rewrite E, IH.
Qed.

(** C1 (as amended). After a [SavePlaylist] all of whose statements
    succeed, the query of [GetPlaylistItems] yields one row per saved item,
    in the saved order, each holding the values bound for its item;
    [GetPlaylistItems] returns the items [NewPlaylistItemFromQuery] builds
    from these rows, so as many as were saved and in the same order.  They
    are the saved items whenever [NewPlaylistItemFromQuery] builds each
    saved item back from its row.  If the query fails, [GetPlaylistItems]
    returns an empty list. *)
Theorem SavePlaylist_GetPlaylistItems :
  forall (exec_ok : nat -> bool) (playlist : Z) (items : list PlaylistItem)
         (last : Z) (dynamic : option Generator) (db : Database),
    (forall k, (k <= S (length items))%nat -> exec_ok k = true) ->
    exists rowids,
      length rowids = length items
      /\ select_playlist_items playlist
           (SavePlaylist exec_ok playlist items last dynamic db)
         = zip_with (saved_row db playlist) rowids items
      /\ GetPlaylistItems true playlist
           (SavePlaylist exec_ok playlist items last dynamic db)
         = zip_with (fun rid item => item_of_row (saved_row db playlist rid item))
                    rowids items
      /\ length (GetPlaylistItems true playlist
                   (SavePlaylist exec_ok playlist items last dynamic db))
         = length items
      /\ ((forall rid item, In item items ->
             item_of_row (saved_row db playlist rid item) = Some item) ->
          GetPlaylistItems true playlist
            (SavePlaylist exec_ok playlist items last dynamic db)
          = map Some items)
      /\ GetPlaylistItems false playlist
           (SavePlaylist exec_ok playlist items last dynamic db) = [].
Proof.
  intros exec_ok playlist items last dynamic db Hok.
  destruct (select_after_SavePlaylist exec_ok playlist items last dynamic db Hok)
    as (rowids & Hlen & Hsel).
  exists rowids.
  assert (Hget : GetPlaylistItems true playlist
                   (SavePlaylist exec_ok playlist items last dynamic db)
                 = zip_with (fun rid item =>
                               item_of_row (saved_row db playlist rid item))
                            rowids items).
  { unfold GetPlaylistItems. cbn [negb].
    rewrite items_from_rows_map by apply cache_sound_empty.
    rewrite Hsel. clear. zip_induction rowids items. }
  split; [exact Hlen|]. split; [exact Hsel|]. split; [exact Hget|].
  split; [|split].
  - rewrite Hget, length_zip_with. lia.
  - intros Hback. rewrite Hget. clear Hget Hsel Hok. revert items Hlen Hback.
    induction rowids as [|rid rowids IH]; intros [|item items] Hlen Hback;
      cbn in *; try reflexivity; try discriminate.
    rewrite Hback by auto. f_equal. apply IH; [lia|].
    intros rid' item' Hin. apply Hback. auto.
  - reflexivity.
Qed.

(** *** RemovePlaylist *)

Lemma filter_others_removed (id : Z) (rows : list ItemRow) :
  filter (fun r => item_playlist r <> id)
         (filter (fun r => item_playlist r <> id) rows)
  = filter (fun r => item_playlist r <> id) rows.
Proof.
  induction rows as [|r rows IH]; [reflexivity|].
  rewrite (filter_cons _ r rows).
  destruct (decide (item_playlist r <> id)) as [Hne|He]; [|exact IH].
  rewrite filter_cons. rewrite decide_True by exact Hne. now rewrite IH.
Qed.

(** C7 (as amended). [RemovePlaylist id] runs both DELETE statements in
    one transaction.  If both succeed, the [playlists] row with ROWID [id]
    and the [playlist_items] rows whose playlist is [id] are gone and
    nothing else has changed; if either fails, the transaction is rolled
    back and nothing is deleted.  In every case each other [playlists] row
    and each [playlist_items] row of another playlist is left as it was. *)
Theorem RemovePlaylist_frame :
  forall (ok1 ok2 : bool) (id : Z) (db : Database),
    (ok1 = true -> ok2 = true ->
       RemovePlaylist ok1 ok2 id db
       = mkDatabase (delete id (playlists db))
           (filter (fun r => item_playlist r <> id) (playlist_items db))
           (songs db))
    /\ (ok1 = false \/ ok2 = false -> RemovePlaylist ok1 ok2 id db = db)
    /\ (forall id', id' <> id ->
          playlists (RemovePlaylist ok1 ok2 id db) !! id' = playlists db !! id')
    /\ filter (fun r => item_playlist r <> id)
              (playlist_items (RemovePlaylist ok1 ok2 id db))
       = filter (fun r => item_playlist r <> id) (playlist_items db)
    /\ songs (RemovePlaylist ok1 ok2 id db) = songs db.
Proof.
  intros ok1 ok2 id db. split; [|split; [|split; [|split]]].
  - intros -> ->. reflexivity.
  - intros [-> | ->]; [reflexivity|]. now destruct ok1.
  - intros id' Hne. destruct ok1, ok2; cbn; try reflexivity.
    now apply lookup_delete_ne.
  - destruct ok1, ok2; cbn; try reflexivity. apply filter_others_removed.
  - now destruct ok1, ok2.
Qed.

End PlaylistBackendFacts.

(** C1 at a playlist of one stream: it comes back as saved. *)
Lemma SavePlaylist_GetPlaylistItems_witness :
  (forall k, (k <= S (length [PlaylistBackend.ex_stream]))%nat ->
     PlaylistBackend.all_ok k = true)
  /\ PlaylistBackend.GetPlaylistItems true 1
       (PlaylistBackend.SavePlaylist PlaylistBackend.all_ok 1
          [PlaylistBackend.ex_stream] 0 None PlaylistBackend.ex_db)
     = [Some PlaylistBackend.ex_stream].
Proof.
  assert (H : forall k, (k <= S (length [PlaylistBackend.ex_stream]))%nat ->
                PlaylistBackend.all_ok k = true) by reflexivity.
  split; [exact H|].
  destruct (SavePlaylist_GetPlaylistItems PlaylistBackend.all_ok 1
              [PlaylistBackend.ex_stream] 0 None PlaylistBackend.ex_db H)
    as (rowids & _ & _ & _ & _ & Hback & _).
  apply Hback. intros rid item [<-|[]]. reflexivity.
Defined.

(** C1, as the claim states it, fails in two ways.  When the query of
    [GetPlaylistItems] fails, the result is empty although two items were
    saved.  When it succeeds, the local file with a CUE sheet comes back as a
    new item built from the CUE sheet on disk, whose title is not the saved
    one. *)
Lemma GetPlaylistItems_not_the_saved_items :
  PlaylistBackend.GetPlaylistItems false 1
    (PlaylistBackend.SavePlaylist PlaylistBackend.all_ok 1
       [PlaylistBackend.ex_stream; PlaylistBackend.ex_cue_track] 0 None
       PlaylistBackend.ex_db)
  = []
  /\ PlaylistBackend.GetPlaylistItems true 1
       (PlaylistBackend.SavePlaylist PlaylistBackend.all_ok 1
          [PlaylistBackend.ex_stream; PlaylistBackend.ex_cue_track] 0 None
          PlaylistBackend.ex_db)
     = [Some PlaylistBackend.ex_stream;
        Some (PlaylistBackend.mkExItem 1
                (PlaylistBackend.mkExSong [Byte.x61] 0 "/music/album.cue"
                   "Title from the CUE sheet"))]
  /\ PlaylistBackend.ex_title
       (PlaylistBackend.ex_song PlaylistBackend.ex_cue_track)
     = "Edited title"%string.
Proof. repeat split. Qed.

(** A failing INSERT rolls the whole call back. *)
Example SavePlaylist_second_insert_fails :
  PlaylistBackend.SavePlaylist (fun k => negb (k =? 2)%nat) 1
    [PlaylistBackend.ex_stream; PlaylistBackend.ex_cue_track] 0 None
    PlaylistBackend.ex_db
  = PlaylistBackend.ex_db.
Proof. reflexivity. Qed.

(** C7, as the claim states it, fails when a DELETE statement fails: the
    call returns early, the transaction is rolled back, and the row of
    playlist 1 and its item are still there. *)
Lemma RemovePlaylist_failed_delete :
  PlaylistBackend.playlists
    (PlaylistBackend.RemovePlaylist true false 1 PlaylistBackend.ex_db) !! 1
  = Some (PlaylistBackend.ex_playlist_row "First")
  /\ PlaylistBackend.playlist_items
       (PlaylistBackend.RemovePlaylist true false 1 PlaylistBackend.ex_db)
     = [PlaylistBackend.mkItemRow 1 1 PlaylistBackend.ex_stream;
        PlaylistBackend.mkItemRow 2 2 PlaylistBackend.ex_stream].
Proof. split; reflexivity. Qed.

Example RemovePlaylist_ok :
  PlaylistBackend.playlists
    (PlaylistBackend.RemovePlaylist true true 1 PlaylistBackend.ex_db) !! 1
  = None
  /\ PlaylistBackend.playlist_items
       (PlaylistBackend.RemovePlaylist true true 1 PlaylistBackend.ex_db)
     = [PlaylistBackend.mkItemRow 2 2 PlaylistBackend.ex_stream].
Proof. split; reflexivity. Qed.

(* ===================================================================== *)
(** * Further properties of src/engine/gstenginepipeline.cpp *)
(* ===================================================================== *)

Section GstEnginePipelinePlayback.

Import GstEnginePipeline.

Context {qreal QTimeLine : Type}.
Context `{QR : DoubleOps qreal} `{TL : QTimeLineOps qreal QTimeLine}.

Local Abbreviation Pipeline := (@Pipeline qreal QTimeLine).
Local Abbreviation Members := (@Members qreal QTimeLine).
Local Abbreviation Action := (@Action qreal).

Lemma buffering_trace_app (n : nat) :
  forall (e1 e2 : list Action) (o o' : bool),
    (length e1 <= n)%nat ->
    buffering_trace o e1 = Some o' ->
    buffering_trace o (e1 ++ e2) = buffering_trace o' e2.
Proof.
  induction n as [|n IH]; intros e1 e2 o o' Hlen H.
  - destruct e1; [|cbn in Hlen; lia]. cbn in H. now inversion H.
  - destruct e1 as [|a e1]; [cbn in H; now inversion H|].
    cbn in Hlen.
    destruct a as [e| | | | | | | | | | |];
      try (cbn in H |- *; apply IH; [lia|exact H]).
    destruct e as [| | | | s | |];
      try (cbn in H |- *; apply IH; [lia|exact H]).
    + destruct e1 as [|[[| | | |[]| |]| | | | | | | | | | |] e1];
        try discriminate H.
      cbn in H |- *. destruct o; [discriminate H|].
      apply IH; [cbn in Hlen; lia|exact H].
    + cbn in H |- *. destruct o; [|discriminate H].
      apply IH; [lia|exact H].
    + destruct e1 as [|[[| | | |[]| |]| | | | | | | | | | |] e1];
        try discriminate H.
      cbn in H |- *. destruct o; [|discriminate H].
      apply IH; [cbn in Hlen; lia|exact H].
Qed.

Lemma buffering_trace_no_signal (acts : list Action) (o : bool) :
  Forall (fun a => match a with
                   | Base Emit_BufferingStarted
                   | Base Emit_BufferingFinished
                   | Base (Emit_BufferingProgress _) => False
                   | _ => True
                   end) acts ->
  buffering_trace o acts = Some o.
Proof.
  induction 1 as [|a acts Ha _ IH]; [reflexivity|].
  destruct a as [[| | | | | |]| | | | | | | | | | |];
    try contradiction; exact IH.
Qed.

Local Ltac no_signal :=
  repeat first [apply Forall_nil_2 | apply Forall_cons_2; [exact I|]].

Lemma SourceSetupCallback_trace (element : option SourceElement)
  (dev name version : QString) (m : Members) :
  buffering_trace (buffering_ (core m))
    (snd (SourceSetupCallback element dev name version m))
  = Some (buffering_ (core (fst (SourceSetupCallback element dev name version m)))).
Proof.
  unfold SourceSetupCallback. destruct element as [el|]; [|reflexivity].
  set (e_device := if find_property el "device" && _ then _ else _).
  set (e_agent := if find_property el "user-agent" then _ else _).
  set (e_proxy := if negb _ && find_property el "proxy" then _ else _).
  assert (H : forall o, buffering_trace o (e_device ++ e_agent ++ e_proxy)
                        = Some o).
  { intros o. apply buffering_trace_no_signal.
    rewrite !Forall_app. split_all.
    - subst e_device. destruct (find_property el "device" && _); no_signal.
    - subst e_agent. destruct (find_property el "user-agent"); no_signal.
    - subst e_proxy. destruct (negb _ && find_property el "proxy");
        [|no_signal].
      apply Forall_cons_2; [exact I|].
      destruct (proxy_authentication_ m && _ && _ && _ && _); no_signal. }
  destruct (buffering_ (core m)) eqn:Hb; cbn [fst snd].
  - rewrite !app_assoc, <- (app_assoc e_device).
    rewrite (buffering_trace_app _ _ _ true true (le_n _) (H true)).
    reflexivity.
  - rewrite H. now rewrite Hb.
Qed.

Lemma BufferingMessageReceived_trace (q : GstQuery) (msg : GstMessage)
  (m : Members) :
  buffering_trace (buffering_ (core m))
    (snd (on_core (BufferingMessageReceived q msg) m))
  = Some (buffering_ (core (fst (on_core (BufferingMessageReceived q msg) m)))).
Proof.
  unfold on_core, BufferingMessageReceived.
  destruct (negb _); [reflexivity|].
  destruct (buffering_ (core m)) eqn:Hb; rewrite ?andb_false_r; cbn.
  - destruct (msg_percent msg =? 100); cbn; now rewrite ?Hb.
  - destruct (_ && _); cbn; now rewrite ?Hb.
Qed.

Lemma StateChangedMessageReceived_trace (msg : StateChangedMessage)
  (m : Members) :
  buffering_trace (buffering_ (core m))
    (snd (StateChangedMessageReceived msg m))
  = Some (buffering_ (core (fst (StateChangedMessageReceived msg m)))).
Proof.
  unfold StateChangedMessageReceived.
  destruct (pipeline_ (core m)); [|reflexivity].
  destruct (negb (bool_decide _)); [reflexivity|].
  destruct (pipeline_is_initialized_ m) eqn:Hinit,
    (is_paused_or_playing (sc_new_state msg)) eqn:Hst,
    (pending_seek_nanosec_ m =? -1), (pipeline_is_connected_ m);
    cbn -[is_paused_or_playing]; rewrite ?Hinit, ?Hst;
    cbn -[is_paused_or_playing]; try reflexivity;
    destruct (next_uri_set_ (core m)),
      (bool_decide (sc_new_state msg = GST_STATE_READY)); reflexivity.
Qed.

(** X3. Over any sequence of buffering messages, source set-ups and state
    changes the buffering signals come in order: [BufferingStarted] only
    while the pipeline is not buffering, each time followed at once by the
    request for PAUSED; [BufferingFinished] only while it is buffering,
    each time followed at once by the request for PLAYING;
    [BufferingProgress] only in between.  The flag [buffering_] at the end
    says whether the last of them was a start. *)
Theorem buffering_signals_alternate :
  forall (evs : list BufferingEvent) (m : Members),
    buffering_trace (buffering_ (core m)) (snd (run_buffering_events evs m))
    = Some (buffering_ (core (fst (run_buffering_events evs m)))).
Proof.
  induction evs as [|ev evs IH]; intros m; [reflexivity|].
  cbn [run_buffering_events].
  assert (H1 : buffering_trace (buffering_ (core m))
                 (snd (run_buffering_event ev m))
               = Some (buffering_ (core (fst (run_buffering_event ev m))))).
  { destruct ev as [q msg|el dev name version|msg]; cbn [run_buffering_event].
    - apply BufferingMessageReceived_trace.
    - apply SourceSetupCallback_trace.
    - apply StateChangedMessageReceived_trace. }
  destruct (run_buffering_event ev m) as [m1 e1]. cbn [fst snd] in H1.
  specialize (IH m1).
  destruct (run_buffering_events evs m1) as [m2 e2]. cbn [fst snd] in IH |- *.
  rewrite (buffering_trace_app _ _ _ _ _ (le_n _) H1). exact IH.
Qed.

(** X4. The hand-over to the next track: once [SetNextUrl] has stored a
    valid next URL, the about-to-finish callback assigns it to the playbin,
    and the stream-start message that follows makes it the current track.
    The URL, the original URL and the end offset become those given to
    [SetNextUrl], the stored next track is cleared (offsets 0), the flag
    [next_uri_set_] is false again and [EndOfStreamReached(id, true)] is
    emitted once.  The beginning offset given to [SetNextUrl] is dropped. *)
Theorem gapless_handover :
  forall (h : Pipeline -> bool) (url : QByteArray) (orig : QUrl)
         (beginning_nanosec end_nanosec : Z) (p : Pipeline),
    next_uri_set_ p = false ->
    h (SetNextUrl url orig beginning_nanosec end_nanosec p) = true ->
    let r1 := AboutToFinishCallback h
                (SetNextUrl url orig beginning_nanosec end_nanosec p) in
    let r2 := StreamStartMessageReceived (fst r1) in
    snd r1 = [GObjectSet_uri (pipeline_ p) url]
    /\ snd r2 = [Emit_EndOfStreamReached true]
    /\ fst r2
       = mkPipeline (pipeline_ p) (audioqueue_ p) (volume_ p) (buffering_ p)
           url orig end_nanosec [] EmptyString 0 0 false
           (volume_percent_ p) (volume_modifier_ p) (use_fudge_timer_ p)
           (fader_ p) (fader_fudge_timer_ p)
    /\ StreamStartMessageReceived (fst r2) = (fst r2, []).
Proof.
  intros h url orig b e p Hset Hh. cbv zeta.
  unfold AboutToFinishCallback. rewrite Hh.
  unfold SetNextUrl. cbn. rewrite Hset. cbn. auto.
Qed.

Lemma is_paused_or_playing_not_ready :
  is_paused_or_playing GST_STATE_READY = false.
Proof. reflexivity. Qed.


Lemma StateChangedMessageReceived_ready (msg : StateChangedMessage)
  (m : Members) :
  pipeline_ (core m) <> None ->
  sc_src msg = pipeline_ (core m) ->
  sc_new_state msg = GST_STATE_READY ->
  pipeline_is_initialized_ m = true ->
  next_uri_set_ (core m) = true ->
  StateChangedMessageReceived msg m
  = (with_core (set_next_uri_set_ false (core m))
       (with_pipeline_is_initialized false m),
     [Base (GObjectSet_uri (pipeline_ (core m)) (stream_url_ (core m)));
      Base (Call_SetState GST_STATE_PLAYING)]).
Proof.
  intros Hpipe Hsrc Hst Hinit Hnext. unfold StateChangedMessageReceived.
  destruct (pipeline_ (core m)) as [a|] eqn:Hp; [|contradiction].
  rewrite (bool_decide_eq_true_2 _ Hsrc), Hinit, Hst. cbn.
  rewrite Hinit, Hnext. cbn. now rewrite Hp.
Qed.

Lemma StateChangedMessageReceived_initialises (msg : StateChangedMessage)
  (m : Members) :
  pipeline_ (core m) <> None ->
  sc_src msg = pipeline_ (core m) ->
  is_paused_or_playing (sc_new_state msg) = true ->
  pipeline_is_initialized_ m = false ->
  StateChangedMessageReceived msg m
  = (with_pipeline_is_initialized true m,
     if negb (pending_seek_nanosec_ m =? -1) && pipeline_is_connected_ m
     then [Queue_Seek (pending_seek_nanosec_ m)] else []).
Proof.
  intros Hpipe Hsrc Hst Hinit. unfold StateChangedMessageReceived.
  destruct (pipeline_ (core m)) as [a|] eqn:Hp; [|contradiction].
  rewrite (bool_decide_eq_true_2 _ Hsrc), Hinit, Hst.
  cbn. reflexivity.
Qed.


Section Handoff.

Variable has_next_valid_url : Pipeline -> bool.
Variable GST_FRAMES_TO_CLOCK_TIME : Z -> Z -> Z.
Variable float_to_int16 : Z -> Z.

Local Abbreviation HandoffCallback :=
  (HandoffCallback has_next_valid_url GST_FRAMES_TO_CLOCK_TIME float_to_int16).
Local Abbreviation scope_buffer :=
  (scope_buffer GST_FRAMES_TO_CLOCK_TIME float_to_int16).

(** X8. A buffer that ends after the end offset of the track ends the
    track.  When the stored next track is the next segment of the same
    stream (same URL, beginning where this one ends), the pipeline moves on
    without a new stream: the end offset becomes that of the next track,
    the stored next track is cleared, [EndOfStreamReached(id, true)] is
    emitted after the consumers got the buffer, and the seek the engine
    sends next is swallowed: it returns true, calls nothing and leaves the
    pending position alone, and only the seek after it is looked at again.
    Otherwise [EndOfStreamReached(id, false)] is emitted and no member but
    [unsupported_analyzer_] changes. *)
Theorem HandoffCallback_end_of_segment :
  forall (format : QString) (channels rate : Z) (buf : GstBuffer)
         (m : Members) (b : ScopeBuffer) (unsupported : bool),
    scope_buffer format channels rate buf m = Some (b, unsupported) ->
    0 < end_offset_nanosec_ (core m) ->
    end_offset_nanosec_ (core m) < end_time buf m ->
    let consumed := map (fun consumer => Call_ConsumeBuffer consumer b format)
                        (buffer_consumers_ m) in
    (has_next_valid_url (core m) = true ->
     next_stream_url_ (core m) = stream_url_ (core m) ->
     next_beginning_offset_nanosec_ (core m) = end_offset_nanosec_ (core m) ->
       exists m',
         HandoffCallback format channels rate buf m
         = Some (m', consumed ++ [Base (Emit_EndOfStreamReached true)])
         /\ end_offset_nanosec_ (core m') = next_end_offset_nanosec_ (core m)
         /\ stream_url_ (core m') = stream_url_ (core m)
         /\ next_stream_url_ (core m') = []
         /\ next_original_url_ (core m') = EmptyString
         /\ next_beginning_offset_nanosec_ (core m') = 0
         /\ next_end_offset_nanosec_ (core m') = 0
         /\ ignore_next_seek_ m' = true
         /\ forall seek_ok nanosec,
              Seek seek_ok nanosec m'
              = (with_ignore_next_seek false m', [], true)
              /\ pending_seek_nanosec_ (with_ignore_next_seek false m')
                 = pending_seek_nanosec_ m
              /\ ignore_next_seek_ (with_ignore_next_seek false m') = false)
    /\ (has_next_valid_url (core m) = false
        \/ next_stream_url_ (core m) <> stream_url_ (core m)
        \/ next_beginning_offset_nanosec_ (core m)
           <> end_offset_nanosec_ (core m) ->
          HandoffCallback format channels rate buf m
          = Some (with_unsupported_analyzer unsupported m,
                  consumed ++ [Base (Emit_EndOfStreamReached false)])).
Proof.
  intros format channels rate buf m b u Hb Hpos Hend. cbv zeta.
  unfold GstEnginePipeline.HandoffCallback. rewrite Hb.
  cbn [core with_unsupported_analyzer buffer_consumers_].
  change (end_time buf (with_unsupported_analyzer u m)) with (end_time buf m).
  rewrite (proj2 (Z.ltb_lt _ _) Hpos), (proj2 (Z.ltb_lt _ _) Hend).
  cbn [andb]. split.
  - intros Hh Hurl Hoff.
    rewrite Hh, (bool_decide_eq_true_2 _ Hurl), (proj2 (Z.eqb_eq _ _) Hoff).
    cbn [andb]. eexists. split; [reflexivity|]. cbn. split_all; try reflexivity.
    intros ok n. unfold Seek. cbn. auto.
  - intros [Hh|[Hurl|Hoff]].
    + now rewrite Hh.
    + now rewrite (bool_decide_eq_false_2 _ Hurl), andb_false_r.
    + now rewrite (proj2 (Z.eqb_neq _ _) Hoff), andb_false_r.
Qed.

End Handoff.

(** X9. The flags [InitFromUrl] writes to the playbin: the audio flag (bit
    1) is set, the video flag (bit 0) is cleared, the soft-volume flag
    (bit 4) is set exactly when volume control is enabled, and every other
    bit is the one read from the playbin. *)
Theorem playbin_flags_bits :
  forall (volume_enabled : bool) (flags : Z),
    Z.testbit (playbin_flags volume_enabled flags) 1 = true
    /\ Z.testbit (playbin_flags volume_enabled flags) 0 = false
    /\ Z.testbit (playbin_flags volume_enabled flags) 4 = volume_enabled
    /\ forall i, 0 <= i -> i <> 0 -> i <> 1 -> i <> 4 ->
         Z.testbit (playbin_flags volume_enabled flags) i = Z.testbit flags i.
Proof.
  intros ve flags.
  assert (B2 : forall i, 0 <= i -> Z.testbit 2 i = (i =? 1)).
  { intros i Hi. change 2 with (2 ^ 1). rewrite Z.pow2_bits_eqb by lia.
    apply Z.eqb_sym. }
  assert (B1 : forall i, 0 <= i -> Z.testbit 1 i = (i =? 0)).
  { intros i Hi. change 1 with (2 ^ 0). rewrite Z.pow2_bits_eqb by lia.
    apply Z.eqb_sym. }
  assert (B16 : forall i, 0 <= i -> Z.testbit 16 i = (i =? 4)).
  { intros i Hi. change 16 with (2 ^ 4). rewrite Z.pow2_bits_eqb by lia.
    apply Z.eqb_sym. }
  assert (H : forall i, 0 <= i ->
            Z.testbit (playbin_flags ve flags) i
            = if i =? 4 then ve
              else (Z.testbit flags i || (i =? 1)) && negb (i =? 0)).
  { intros i Hi. unfold playbin_flags. destruct ve.
    - rewrite Z.lor_spec, Z.land_spec, Z.lor_spec, Z.lnot_spec by lia.
      rewrite B1, B2, B16 by lia.
      destruct (Z.eqb_spec i 4) as [->|]; [apply orb_true_r|].
      now rewrite orb_false_r.
    - rewrite Z.land_spec, Z.land_spec, Z.lor_spec, !Z.lnot_spec by lia.
      rewrite B1, B2, B16 by lia.
      destruct (Z.eqb_spec i 4) as [->|]; [apply andb_false_r|].
      now rewrite andb_true_r. }
  split_all.
  - rewrite H by lia. cbn. now rewrite orb_true_r.
  - rewrite H by lia. cbn. now rewrite andb_false_r.
  - now rewrite H by lia.
  - intros i Hi H0 H1 H4. rewrite H by lia.
    rewrite (proj2 (Z.eqb_neq _ _) H4), (proj2 (Z.eqb_neq _ _) H1),
      (proj2 (Z.eqb_neq _ _) H0).
    now rewrite orb_false_r, andb_true_r.
Qed.

(** *** The conversions for the scope *)

Lemma le_unsigned_bound (bs : list Byte.byte) :
  0 <= le_unsigned bs < 256 ^ Z.of_nat (length bs).
Proof.
  induction bs as [|b bs IH]; [cbn; lia|].
  cbn [le_unsigned fold_right length].
  fold (le_unsigned bs).
  rewrite Nat2Z.inj_succ, Z.pow_succ_r by lia.
  assert (Hb : 0 <= Z.of_N (Byte.to_N b) < 256).
  { pose proof (Byte.to_N_bounded b). lia. }
  lia.
Qed.

Lemma read_le_in_bounds (off n : nat) (data : list Byte.byte) :
  (off + n <= length data)%nat ->
  exists v, read_le off n data = Some v /\ 0 <= v < 256 ^ Z.of_nat n.
Proof.
  intros H. unfold read_le.
  assert (Hlen : length (take n (drop off data)) = n).
  { rewrite length_take, length_drop. lia. }
  rewrite Hlen, Nat.eqb_refl. eexists. split; [reflexivity|].
  pose proof (le_unsigned_bound (take n (drop off data))) as Hb.
  now rewrite Hlen in Hb.
Qed.

Lemma narrow_S32LE_top (v : Z) :
  0 <= v < 2 ^ 32 ->
  narrow_S32LE v = to_signed 32 v / 65536
  /\ -32768 <= to_signed 32 v / 65536 <= 32767.
Proof.
  intros Hv. unfold narrow_S32LE, wrap_int16.
  rewrite Z.shiftr_div_pow2 by lia.
  assert (Hr : -32768 <= to_signed 32 v / 2 ^ 16 <= 32767).
  { unfold to_signed. destruct (Z.ltb_spec v (2 ^ (32 - 1))).
    - split.
      + transitivity 0; [lia|]. apply Z.div_pos; lia.
      + apply Z.lt_succ_r. apply Z.div_lt_upper_bound; lia.
    - split.
      + apply Z.div_le_lower_bound; lia.
      + apply Z.lt_succ_r. apply Z.div_lt_upper_bound; lia. }
  change (2 ^ 16) with 65536 in *. change (2 ^ 15) with 32768.
  split; [|exact Hr].
  rewrite Z.mod_small by lia. lia.
Qed.

Lemma loop32_spec (narrow : Z -> Z) (data : list Byte.byte) (count : nat) :
  forall i : nat,
    (4 * (i + count) <= length data)%nat ->
    exists d,
      loop32 narrow count i data = Some d
      /\ length d = count
      /\ forall j, (j < count)%nat ->
           exists v, read_le (4 * (i + j)) 4 data = Some v
                     /\ 0 <= v < 2 ^ 32
                     /\ d !! j = Some (narrow v).
Proof.
  induction count as [|count IH]; intros i Hlen.
  - exists []. split_all; [reflexivity|reflexivity|intros j Hj; lia].
  - cbn [loop32].
    destruct (read_le_in_bounds (4 * i) 4 data ltac:(lia)) as (v & Hv & Hb).
    rewrite Hv.
    destruct (IH (S i) ltac:(lia)) as (d & Hd & Hl & Hall).
    rewrite Hd. exists (narrow v :: d). split_all.
    + reflexivity.
    + cbn. now rewrite Hl.
    + intros [|j] Hj.
      * exists v. rewrite Nat.add_0_r. split_all; [exact Hv|lia|lia|reflexivity].
      * destruct (Hall j ltac:(lia)) as (w & Hw & Hwb & Hdj).
        exists w. replace (i + S j)%nat with (S i + j)%nat by lia.
        split_all; [exact Hw|lia|lia|exact Hdj].
Qed.

Lemma wrap_int_small (z : Z) : - 2 ^ 31 <= z < 2 ^ 31 -> wrap_int z = z.
Proof. intros H. unfold wrap_int. rewrite Z.mod_small; lia. Qed.

Section Conversions.

Variable GST_FRAMES_TO_CLOCK_TIME : Z -> Z -> Z.

Local Abbreviation convert_S32LE := (convert_S32LE GST_FRAMES_TO_CLOCK_TIME).
Local Abbreviation convert_S24LE := (convert_S24LE GST_FRAMES_TO_CLOCK_TIME).

(** X10. Converting a buffer of 32-bit samples for the scope keeps the
    upper 16 bits of every sample: with [channels] channels out of a buffer
    of [size] bytes, the first [(size / 4 / channels) * channels] samples
    are converted, each to the floor of its value divided by 65536, which
    fits 16 bits; no read leaves the buffer.  A trailing part of the buffer
    that does not make up a whole frame is dropped. *)
Theorem convert_S32LE_keeps_upper_bits :
  forall (data : list Byte.byte) (channels rate : Z),
    0 < channels < 2 ^ 31 ->
    Z.of_nat (length data) < 2 ^ 31 ->
    let samples := Z.of_nat (length data) / 4 / channels in
    exists d,
      convert_S32LE data channels rate
      = Some (Converted d
                (GST_FRAMES_TO_CLOCK_TIME (samples * 2 * channels) rate))
      /\ Z.of_nat (length d) = samples * channels
      /\ forall j, (j < length d)%nat ->
           exists v, read_le (4 * j) 4 data = Some v
                     /\ d !! j = Some (to_signed 32 v / 65536)
                     /\ -32768 <= to_signed 32 v / 65536 <= 32767.
Proof.
  intros data channels rate Hc Hsize samples.
  set (size := Z.of_nat (length data)) in *.
  assert (Hs0 : 0 <= size / 4) by (apply Z.div_pos; lia).
  assert (Hs4 : 4 * (size / 4) <= size)
    by (apply Z.mul_div_le; lia).
  assert (Hsam : 0 <= samples) by (apply Z.div_pos; lia).
  assert (Hprod : samples * channels <= size / 4).
  { rewrite Z.mul_comm. apply Z.mul_div_le. lia. }
  assert (Hsle : samples <= size / 4).
  { apply Z.div_le_upper_bound; nia. }
  unfold GstEnginePipeline.convert_S32LE, convert_32, sample_count.
  fold size.
  rewrite (proj2 (Z.eqb_neq _ _)) by lia.
  rewrite (Z.mod_small channels) by lia. fold samples.
  rewrite wrap_int_small by lia.
  unfold buf16_sizes, in_int.
  assert (Hn : 0 <= samples * channels) by nia.
  repeat match goal with
         | |- context [?a <=? ?b] =>
             rewrite (proj2 (Z.leb_le a b)) by nia
         | |- context [?a <? ?b] =>
             rewrite (proj2 (Z.ltb_lt a b)) by nia
         end.
  cbn [andb].
  destruct (loop32_spec narrow_S32LE data (Z.to_nat (samples * channels)) 0)
    as (d & Hd & Hl & Hall); [lia|].
  rewrite Hd. exists d. split_all.
  - reflexivity.
  - rewrite Hl. lia.
  - intros j Hj. destruct (Hall j ltac:(lia)) as (v & Hv & Hb & Hdj).
    exists v. destruct (narrow_S32LE_top v Hb) as (E & Hr).
    rewrite <- E. split_all; [exact Hv|exact Hdj|lia|lia].
Qed.

Lemma read_le_middle (off : nat) (data : list Byte.byte) (s : Z) :
  read_le off 3 data = Some s ->
  exists v, read_le (off + 1) 2 data = Some v
            /\ to_signed 16 v = to_signed 24 s / 256.
Proof.
  unfold read_le. rewrite <- (drop_drop data 1 off).
  destruct (drop off data) as [|b0 [|b1 [|b2 rest]]]; try discriminate.
  cbv [firstn skipn length Nat.eqb le_unsigned fold_right].
  intros [= <-]. eexists. split; [reflexivity|].
  assert (H0 : 0 <= Z.of_N (Byte.to_N b0) < 256)
    by (pose proof (Byte.to_N_bounded b0); lia).
  assert (H1 : 0 <= Z.of_N (Byte.to_N b1) < 256)
    by (pose proof (Byte.to_N_bounded b1); lia).
  assert (H2 : 0 <= Z.of_N (Byte.to_N b2) < 256)
    by (pose proof (Byte.to_N_bounded b2); lia).
  set (x0 := Z.of_N (Byte.to_N b0)) in *.
  set (x1 := Z.of_N (Byte.to_N b1)) in *.
  set (x2 := Z.of_N (Byte.to_N b2)) in *.
  unfold to_signed.
  change (2 ^ (16 - 1)) with 32768. change (2 ^ (24 - 1)) with 8388608.
  change (2 ^ 16) with 65536. change (2 ^ 24) with 16777216.
  destruct (Z.ltb_spec (x1 + 256 * (x2 + 256 * 0)) 32768),
    (Z.ltb_spec (x0 + 256 * (x1 + 256 * (x2 + 256 * 0))) 8388608); try lia.
  - apply (Z.div_unique _ 256 _ x0); lia.
  - apply (Z.div_unique _ 256 _ x0); lia.
Qed.

Lemma loop24_spec (data : list Byte.byte) (k : nat) :
  length data = (3 * k)%nat ->
  forall (fuel i : nat) (s16 : list Z),
    (i < k)%nat -> (k - i <= fuel)%nat -> (k <= length s16)%nat ->
    exists s16',
      loop24 fuel i (3 * i) data s16 = Some s16'
      /\ length s16' = length s16
      /\ (forall j, (i <= j < k)%nat ->
            exists s, read_le (3 * j) 3 data = Some s
                      /\ s16' !! j = Some (to_signed 24 s / 256))
      /\ (forall j, (j < i \/ k <= j)%nat -> s16' !! j = s16 !! j).
Proof.
  intros Hlen. induction fuel as [|fuel IH]; intros i s16 Hi Hfuel Hs16;
    [lia|].
  cbn [loop24].
  destruct (read_le_in_bounds (3 * i) 3 data ltac:(lia)) as (s & Hs & _).
  destruct (read_le_middle _ _ _ Hs) as (v & Hv & Hsv).
  rewrite Hv, Hlen.
  destruct (Nat.leb_spec (3 * k) (3 * i + 3)) as [Hlast|Hmore].
  - eexists. split_all; [reflexivity|apply length_insert| |].
    + intros j Hj. assert (j = i) as -> by lia.
      exists s. split; [exact Hs|].
      rewrite list_lookup_insert_eq by lia. now rewrite Hsv.
    + intros j Hj. apply list_lookup_insert_ne. lia.
  - replace (3 * i + 3)%nat with (3 * S i)%nat by lia.
    destruct (IH (S i) (<[i := to_signed 16 v]> s16))
      as (s16' & Hrun & Hl & Hset & Hkeep);
      [lia|lia|rewrite length_insert; lia|].
    exists s16'. split_all.
    + exact Hrun.
    + now rewrite Hl, length_insert.
    + intros j Hj. destruct (Nat.eq_dec j i) as [->|Hne].
      * exists s. split; [exact Hs|].
        rewrite Hkeep by lia.
        rewrite list_lookup_insert_eq by lia. now rewrite Hsv.
      * apply Hset. lia.
    + intros j Hj. rewrite Hkeep by lia.
      apply list_lookup_insert_ne. lia.
Qed.

(** X11. Converting a buffer of packed 24-bit samples for the scope: the
    number of output samples is computed from the size in bytes, not from
    the number of 24-bit samples.  For a buffer of whole frames ([size = 3 *
    channels * frames] bytes) the output has [size] 16-bit samples, three
    times as many as the buffer holds; the first [channels * frames] of
    them are the upper 16 bits of the input samples, all the others are
    zero, and the duration is computed from the longer length. *)
Theorem convert_S24LE_pads_with_silence :
  forall (data : list Byte.byte) (channels rate frames : Z),
    0 < channels < 2 ^ 31 -> 0 <= frames ->
    Z.of_nat (length data) = 3 * channels * frames ->
    Z.of_nat (length data) < 2 ^ 30 ->
    let size := Z.of_nat (length data) in
    exists d,
      convert_S24LE data channels rate
      = Some (Converted d (GST_FRAMES_TO_CLOCK_TIME (size * 2) rate))
      /\ Z.of_nat (length d) = size
      /\ (forall j, Z.of_nat j < channels * frames ->
            exists s, read_le (3 * j) 3 data = Some s
                      /\ d !! j = Some (to_signed 24 s / 256))
      /\ (forall j, channels * frames <= Z.of_nat j < size ->
            d !! j = Some 0).
Proof.
  intros data channels rate frames Hc Hf Hsize Hsmall size.
  assert (Hcf : 0 <= channels * frames) by nia.
  assert (Hsam : size / 1 / channels = 3 * frames).
  { rewrite Z.div_1_r. unfold size. rewrite Hsize.
    replace (3 * channels * frames) with (3 * frames * channels) by lia.
    apply Z.div_mul. lia. }
  unfold GstEnginePipeline.convert_S24LE, sample_count. fold size.
  rewrite (proj2 (Z.eqb_neq _ _)) by lia.
  rewrite (Z.mod_small channels) by lia.
  rewrite Hsam, wrap_int_small by (unfold size in *; nia).
  unfold buf16_sizes, in_int.
  assert (Hn : 3 * frames * channels = size) by (unfold size; lia).
  repeat match goal with
         | |- context [?a <=? ?b] =>
             rewrite (proj2 (Z.leb_le a b)) by (unfold size in *; nia)
         | |- context [?a <? ?b] =>
             rewrite (proj2 (Z.ltb_lt a b)) by (unfold size in *; nia)
         end.
  cbn [andb]. rewrite Hn.
  replace (3 * frames * 2 * channels) with (size * 2) by lia.
  unfold size at 1 2. rewrite Nat2Z.id.
  destruct (Nat.eq_dec (length data) 0%nat) as [Hz|Hnz].
  - rewrite Hz. cbn [loop24 replicate]. exists []. split_all.
    + reflexivity.
    + unfold size. now rewrite Hz.
    + intros j Hj. unfold size in *. nia.
    + intros j Hj. unfold size in *. lia.
  - set (k := Z.to_nat (channels * frames)).
    assert (Hk : length data = (3 * k)%nat) by (unfold k; lia).
    destruct (loop24_spec data k Hk (length data) 0%nat
                (replicate (length data) 0))
      as (d & Hd & Hl & Hset & Hkeep);
      [lia|lia|rewrite length_replicate; lia|].
    rewrite Nat.mul_0_r in Hd. rewrite Hd. exists d. split_all.
    + reflexivity.
    + rewrite Hl, length_replicate. reflexivity.
    + intros j Hj. apply Hset. unfold k. lia.
    + intros j Hj. rewrite Hkeep by (unfold k; lia).
      apply lookup_replicate_2. unfold size in *. lia.
Qed.

End Conversions.

End GstEnginePipelinePlayback.

(* ===================================================================== *)
(** * Further properties of ext/libstrawberry-common/core/logging.cpp *)
(* ===================================================================== *)

Section LoggingLevels.

Import Logging.

Variables Level_Fatal Level_Error Level_Warning Level_Info Level_Debug : Z.
Variable toInt : QString -> bool * Z.
Variable number : Z -> QString.
Variable current_time : string.

Local Abbreviation apply_item := (apply_item Level_Error Level_Debug toInt).
Local Abbreviation SetLevels := (SetLevels Level_Error Level_Debug toInt).
Local Abbreviation conforming := (conforming Level_Error Level_Debug toInt).
Local Abbreviation CreateLogger :=
  (CreateLogger Level_Fatal Level_Error Level_Warning Level_Info Level_Debug
     number current_time).

Lemma split_not_nil (sep : ascii) (s : QString) : split sep s <> [].
Proof.
  destruct s as [|c s]; cbn; [discriminate|].
  destruct (Ascii.eqb c sep); [discriminate|].
  destruct (split sep s); discriminate.
Qed.

Lemma split_app (sep : ascii) (a b : QString) :
  split sep (a ++ String sep b)%string = split sep a ++ split sep b.
Proof.
  induction a as [|c a IH]; unfold String.append; fold String.append;
    cbn [split].
  - now rewrite Ascii.eqb_refl.
  - destruct (Ascii.eqb c sep); [now rewrite IH|].
    rewrite IH. pose proof (split_not_nil sep a) as Hne.
    destruct (split sep a) as [|w ws]; [contradiction|reflexivity].
Qed.

(** X12. Levels given in one string, separated by a comma, are the levels
    given one string after the other: splitting the argument of
    [SetLevels] at any comma and calling it twice gives the same statics. *)
Theorem SetLevels_comma_is_sequence :
  forall (a b : QString) (st : Statics),
    SetLevels (a ++ "," ++ b)%string st = SetLevels b (SetLevels a st).
Proof.
  intros a b st. unfold Logging.SetLevels.
  destruct (sClassLevels st) as [m|] eqn:Hm; cbn [sClassLevels].
  - change ("," ++ b)%string with (String "," b).
    rewrite split_app, fold_left_app. cbn [sDefaultLevel].
    now destruct (fold_left apply_item (split "," a) (sDefaultLevel st, m)).
  - now rewrite Hm.
Qed.

(** What one item does to the statics: nothing, or it sets the default
    level, or it sets the level of one class. *)
Lemma apply_item_shape (item : QString) :
  (forall st, apply_item st item = st)
  \/ (exists lv, Level_Error <= lv <= Level_Debug
                 /\ forall st, apply_item st item = (lv, snd st))
  \/ (exists cn lv, Level_Error <= lv <= Level_Debug
                    /\ forall st, apply_item st item
                                  = (fst st, <[cn := lv]> (snd st))).
Proof.
  unfold Logging.apply_item.
  destruct (parse_item Level_Error toInt item) as [[cn ok] lv].
  destruct ok; cbn [negb orb]; [|now left].
  destruct (Z.ltb_spec lv Level_Error); cbn [orb]; [now left|].
  rewrite Z.gtb_ltb.
  destruct (Z.ltb_spec Level_Debug lv); [now left|].
  destruct (String.eqb cn EmptyString || String.eqb cn "*").
  - right. left. exists lv. split; [lia|reflexivity].
  - right. right. exists cn, lv. split; [lia|reflexivity].
Qed.

Lemma apply_item_absorbs (a x : QString) (st : Z * gmap string Z) :
  apply_item (apply_item (apply_item st a) x) a
  = apply_item (apply_item st x) a.
Proof.
  destruct (apply_item_shape a) as [Ha|[(la & _ & Ha)|(ca & la & _ & Ha)]],
    (apply_item_shape x) as [Hx|[(lx & _ & Hx)|(cx & lx & _ & Hx)]];
    rewrite ?Ha, ?Hx; cbn [fst snd]; try reflexivity; f_equal;
    try (now rewrite insert_insert_eq).
  destruct (decide (ca = cx)) as [->|Hne].
  - now rewrite !insert_insert_eq.
  - rewrite (insert_insert_ne _ cx ca) by congruence.
    now rewrite insert_insert_eq.
Qed.

Lemma fold_apply_item_absorbs (a : QString) (items : list QString) :
  forall st,
    apply_item (fold_left apply_item items (apply_item st a)) a
    = apply_item (fold_left apply_item items st) a.
Proof.
  induction items as [|x items IH] using rev_ind; intros st; cbn.
  - destruct (apply_item_shape a) as [Ha|[(la & _ & Ha)|(ca & la & _ & Ha)]];
      rewrite !Ha; cbn [fst snd]; try reflexivity.
    now rewrite insert_insert_eq.
  - rewrite !fold_left_app. cbn [fold_left].
    rewrite <- (apply_item_absorbs a x (fold_left apply_item items _)).
    rewrite IH. apply apply_item_absorbs.
Qed.

Lemma fold_apply_item_twice (items : list QString) :
  forall st,
    fold_left apply_item items (fold_left apply_item items st)
    = fold_left apply_item items st.
Proof.
  induction items as [|a items IH] using rev_ind; intros st; [reflexivity|].
  rewrite !fold_left_app. cbn [fold_left].
  rewrite fold_apply_item_absorbs. now rewrite IH.
Qed.

(** X13. Setting the same levels a second time changes nothing:
    [SetLevels] is idempotent, although a string may name a class more than
    once with different levels. *)
Theorem SetLevels_idempotent :
  forall (levels : QString) (st : Statics),
    SetLevels levels (SetLevels levels st) = SetLevels levels st.
Proof.
  intros levels st. unfold Logging.SetLevels.
  destruct (sClassLevels st) as [m|] eqn:Hm; cbn [sClassLevels sDefaultLevel].
  - destruct (fold_left apply_item (split "," levels) (sDefaultLevel st, m))
      as [d' m'] eqn:E. cbn [fst snd].
    rewrite <- E, fold_apply_item_twice. now rewrite E.
  - now rewrite Hm.
Qed.

Lemma apply_item_levels_within (item : QString) (st : Z * gmap string Z) :
  Level_Error <= fst st <= Level_Debug ->
  (forall cn lv, snd st !! cn = Some lv -> Level_Error <= lv <= Level_Debug) ->
  Level_Error <= fst (apply_item st item) <= Level_Debug
  /\ (forall cn lv, snd (apply_item st item) !! cn = Some lv ->
        Level_Error <= lv <= Level_Debug).
Proof.
  intros Hd Hm.
  destruct (apply_item_shape item)
    as [Ha|[(la & Hla & Ha)|(ca & la & Hla & Ha)]]; rewrite Ha; cbn [fst snd].
  - auto.
  - auto.
  - split; [exact Hd|]. intros cn lv.
    destruct (decide (ca = cn)) as [->|Hne].
    + rewrite lookup_insert_eq. now intros [= <-].
    + rewrite lookup_insert_ne by exact Hne. apply Hm.
Qed.

Lemma fold_apply_item_levels_within (items : list QString) :
  forall st : Z * gmap string Z,
    Level_Error <= fst st <= Level_Debug ->
    (forall cn lv, snd st !! cn = Some lv ->
       Level_Error <= lv <= Level_Debug) ->
    Level_Error <= fst (fold_left apply_item items st) <= Level_Debug
    /\ (forall cn lv, snd (fold_left apply_item items st) !! cn = Some lv ->
          Level_Error <= lv <= Level_Debug).
Proof.
  induction items as [|a items IH]; intros st Hd Hm; cbn [fold_left].
  - auto.
  - destruct (apply_item_levels_within a st Hd Hm) as (Hd' & Hm').
    now apply IH.
Qed.

(** X14. No string of levels can silence errors.  When the default level
    and the class levels lie between [Level_Error] and [Level_Debug] (as
    they do at the start), they still do after [SetLevels], and
    [CreateLogger] returns a writing logger for every message at level
    [Level_Error] or below it, [Level_Fatal] included, whatever its class
    and category. *)
Theorem SetLevels_never_silences_errors :
  forall (levels : QString) (st : Statics),
    levels_within Level_Error Level_Debug st ->
    levels_within Level_Error Level_Debug (SetLevels levels st)
    /\ forall level class_name line category,
         level <= Level_Error ->
         exists header,
           CreateLogger (SetLevels levels st) level class_name line category
           = Some header.
Proof.
  intros levels st (Hd & Hm).
  assert (Hin : levels_within Level_Error Level_Debug (SetLevels levels st)).
  { unfold Logging.SetLevels.
    destruct (sClassLevels st) as [m|] eqn:Hs;
      [|split; [exact Hd|rewrite Hs; exact Hm]].
    destruct (fold_apply_item_levels_within (split "," levels)
                (sDefaultLevel st, m) Hd (fun cn lv => Hm m cn lv eq_refl))
      as (Hd' & Hm').
    split; cbn [sDefaultLevel sClassLevels]; [exact Hd'|].
    intros m' cn lv [= <-]. apply Hm'. }
  split; [exact Hin|].
  intros level class_name line category Hlevel.
  destruct Hin as (Hd' & Hm').
  unfold Logging.CreateLogger.
  set (key := match category with Some c => c | None => class_name end).
  assert (Ht : Level_Error
               <= threshold_level (SetLevels levels st) key).
  { unfold threshold_level.
    destruct (sClassLevels (SetLevels levels st)) as [m'|] eqn:Hs; [|lia].
    destruct (_ !! _) as [lv|] eqn:Hk; [|lia].
    destruct (Hm' m' key lv eq_refl Hk). lia. }
  rewrite Z.gtb_ltb, (proj2 (Z.ltb_ge _ _)) by lia.
  eexists. reflexivity.
Qed.

Lemma indexOf_lower (c : ascii) (s : QString) : -1 <= indexOf c s.
Proof.
  induction s as [|a s IH]; cbn [indexOf]; [lia|].
  destruct (Ascii.eqb a c); [lia|].
  destruct (Z.eqb_spec (indexOf c s) (-1)); lia.
Qed.

Lemma split_no_separator (sep : ascii) (s : QString) :
  indexOf sep s = -1 -> split sep s = [s].
Proof.
  induction s as [|c s IH]; cbn [indexOf split]; [reflexivity|].
  destruct (Ascii.eqb c sep); [discriminate|].
  pose proof (indexOf_lower sep s).
  destruct (Z.eqb_spec (indexOf sep s) (-1)) as [Hi|Hi]; [|lia].
  intros _. now rewrite (IH Hi).
Qed.

(** X15. The last item of a level string that names a class decides about
    that class: after [SetLevels (levels ++ "," ++ item)] with a well-formed
    [item] for the class [cn] at level [lv], a message that is filtered by
    [cn] (its category if it has one, its class otherwise) gets a writing
    logger exactly when its level is at most [lv]; the default level and
    what [levels] says about [cn] do not matter. *)
Theorem CreateLogger_after_SetLevels :
  forall (levels item cn : QString) (lv : Z) (st : Statics),
    sClassLevels st <> None ->
    indexOf "," item = -1 ->
    conforming item cn lv ->
    cn <> EmptyString -> cn <> "*"%string ->
    forall level class_name line category,
      match category with Some c => c | None => class_name end = cn ->
      (CreateLogger (SetLevels (levels ++ "," ++ item)%string st)
         level class_name line category = None
       <-> lv < level).
Proof.
  intros levels item cn lv st Hinit Hcomma Hc Hne Hstar level class_name line
    category Hkey.
  assert (Ht : threshold_level (SetLevels (levels ++ "," ++ item)%string st) cn
               = lv).
  { unfold Logging.SetLevels.
    destruct (sClassLevels st) as [m|]; [|contradiction].
    change ("," ++ item)%string with (String "," item).
    rewrite split_app, fold_left_app, (split_no_separator _ _ Hcomma).
    cbn [fold_left].
    rewrite (apply_item_conforming Level_Error Level_Debug toInt item cn lv _ Hc).
    apply String.eqb_neq in Hne, Hstar. rewrite Hne, Hstar. cbn [orb].
    unfold threshold_level. cbn [sClassLevels snd].
    now rewrite lookup_insert_eq. }
  unfold Logging.CreateLogger.
  destruct category as [c|]; cbn beta iota in Hkey; subst cn; rewrite Ht, Z.gtb_ltb;
    destruct (Z.ltb_spec lv level); split; intros H';
    try lia; try reflexivity; discriminate H'.
Qed.

End LoggingLevels.

Section LoggingNames.

Import Logging.

Lemma lastIndexOf_lower (c : ascii) (s : QString) : -1 <= lastIndexOf c s.
Proof.
  induction s as [|a s IH]; cbn [lastIndexOf]; [lia|].
  destruct (Z.eqb_spec (lastIndexOf c s) (-1)); [|lia].
  destruct (Ascii.eqb a c); lia.
Qed.

Lemma lastIndexOf_none (c : ascii) (s : QString) :
  lastIndexOf c s = -1 <-> indexOf c s = -1.
Proof.
  induction s as [|a s IH]; cbn [lastIndexOf indexOf]; [tauto|].
  pose proof (lastIndexOf_lower c s). pose proof (indexOf_lower c s).
  destruct (Z.eqb_spec (lastIndexOf c s) (-1)) as [Hl|Hl],
    (Z.eqb_spec (indexOf c s) (-1)) as [Hi|Hi],
    (Ascii.eqb a c); split; intros; try lia; tauto.
Qed.

Lemma indexOf_mid_nat (c : ascii) (n : nat) :
  forall s, indexOf c s = -1 -> indexOf c (mid_nat n s) = -1.
Proof.
  induction n as [|n IH]; intros s Hs; [now destruct s|].
  destruct s as [|a s]; [reflexivity|]. cbn [mid_nat]. apply IH.
  cbn [indexOf] in Hs. pose proof (indexOf_lower c s).
  destruct (Ascii.eqb a c); [lia|].
  destruct (Z.eqb_spec (indexOf c s) (-1)); lia.
Qed.

Lemma indexOf_after_last (c : ascii) (s : QString) :
  indexOf c (mid (lastIndexOf c s + 1) s) = -1.
Proof.
  unfold mid. induction s as [|a s IH]; [reflexivity|].
  cbn [lastIndexOf]. pose proof (lastIndexOf_lower c s) as Hl.
  destruct (Z.eqb_spec (lastIndexOf c s) (-1)) as [E|E].
  - destruct (Ascii.eqb a c) eqn:Ha.
    + change (Z.to_nat (0 + 1)) with 1%nat. cbn [mid_nat].
      destruct s; now apply lastIndexOf_none.
    + change (Z.to_nat (-1 + 1)) with 0%nat. cbn [mid_nat indexOf].
      rewrite Ha. apply lastIndexOf_none in E. now rewrite E.
  - replace (Z.to_nat (lastIndexOf c s + 1 + 1))
      with (S (Z.to_nat (lastIndexOf c s + 1))) by lia.
    exact IH.
Qed.

Lemma indexOf_left_nat (c : ascii) (s : QString) :
  forall k : nat,
    Z.of_nat k <= indexOf c s \/ indexOf c s = -1 ->
    indexOf c (left_nat k s) = -1.
Proof.
  induction s as [|a s IH]; intros k Hk; [now destruct k|].
  destruct k as [|k]; [reflexivity|].
  cbn [left_nat indexOf] in Hk |- *. pose proof (indexOf_lower c s).
  destruct (Ascii.eqb a c); [lia|].
  rewrite IH; [reflexivity|].
  destruct (Z.eqb_spec (indexOf c s) (-1)); lia.
Qed.

Lemma lastIndexOf_from_range (str : QString) (from : Z) (s : QString) :
  forall i best,
    0 <= i -> best = -1 \/ 0 <= best <= from ->
    lastIndexOf_from str s i from best = -1
    \/ 0 <= lastIndexOf_from str s i from best <= from.
Proof.
  induction s as [|a s IH]; intros i best Hi Hbest; cbn [lastIndexOf_from].
  - destruct (String.prefix str EmptyString); cbn [andb]; [|exact Hbest].
    destruct (Z.leb_spec i from); [right; lia|exact Hbest].
  - apply IH; [lia|].
    destruct (String.prefix str (String a s)); cbn [andb]; [|exact Hbest].
    destruct (Z.leb_spec i from); [right; lia|exact Hbest].
Qed.

(** X16. The class name [ParsePrettyFunction] takes out of a function
    signature contains neither a space nor an opening parenthesis, whatever
    the signature looks like; parsing a name it returned gives the name
    back. *)
Theorem ParsePrettyFunction_class_name :
  forall pretty_function : string,
    indexOf " " (ParsePrettyFunction pretty_function) = -1
    /\ indexOf "(" (ParsePrettyFunction pretty_function) = -1
    /\ ParsePrettyFunction (ParsePrettyFunction pretty_function)
       = ParsePrettyFunction pretty_function.
Proof.
  intros s.
  assert (Hfix : forall r, indexOf " " r = -1 -> indexOf "(" r = -1 ->
                           ParsePrettyFunction r = r).
  { intros r Hsp Hp. unfold ParsePrettyFunction. cbv zeta.
    rewrite Hp, Z.eqb_refl. cbn [negb].
    apply lastIndexOf_none in Hsp. now rewrite Hsp, Z.eqb_refl. }
  assert (H : indexOf " " (ParsePrettyFunction s) = -1
              /\ indexOf "(" (ParsePrettyFunction s) = -1).
  { unfold ParsePrettyFunction.
    set (class_name :=
           if negb (indexOf "(" s =? -1)
           then if negb (lastIndexOf_string "::" s (indexOf "(" s) =? -1)
                then left (lastIndexOf_string "::" s (indexOf "(" s)) s
                else left (indexOf "(" s) s
           else s).
    assert (Hp : indexOf "(" class_name = -1).
    { subst class_name. pose proof (indexOf_lower "(" s) as Hl.
      destruct (Z.eqb_spec (indexOf "(" s) (-1)) as [E|E]; cbn [negb];
        [exact E|].
      destruct (lastIndexOf_from_range "::" (indexOf "(" s) s 0 (-1))
        as [Hc|Hc]; [lia|now left| |];
        fold (lastIndexOf_string "::" s (indexOf "(" s)) in Hc.
      - rewrite Hc, Z.eqb_refl. cbn [negb]. unfold left.
        destruct (Z.ltb_spec (indexOf "(" s) 0); [lia|].
        apply indexOf_left_nat. left. lia.
      - destruct (Z.eqb_spec (lastIndexOf_string "::" s (indexOf "(" s)) (-1));
          [lia|]. cbn [negb]. unfold left.
        destruct (Z.ltb_spec (lastIndexOf_string "::" s (indexOf "(" s)) 0);
          [lia|].
        apply indexOf_left_nat. left. lia. }
    destruct (Z.eqb_spec (lastIndexOf " " class_name) (-1)) as [E|E];
      cbn [negb].
    - split; [now apply lastIndexOf_none|exact Hp].
    - split; [apply indexOf_after_last|].
      unfold mid. now apply indexOf_mid_nat. }
  destruct H as (Hsp & Hp). split_all; [exact Hsp|exact Hp|].
  now apply Hfix.
Qed.

End LoggingNames.

(** The class of a member function, of a function in a namespace and of a
    free function returning a plain type; a free function whose return type
    is qualified is taken for a member of the qualifier. *)
Example ParsePrettyFunction_examples :
  Logging.ParsePrettyFunction "void GstEnginePipeline::SetVolume(int)"
  = "GstEnginePipeline"%string
  /\ Logging.ParsePrettyFunction
       "static QString logging::ParsePrettyFunction(const char*)"
     = "logging"%string
  /\ Logging.ParsePrettyFunction "int main(int, char**)" = "main"%string
  /\ Logging.ParsePrettyFunction "std::string name()" = "std"%string.
Proof. repeat split. Qed.

(* ===================================================================== *)
(** * Further properties of src/widgets/stretchheaderview.cpp *)
(* ===================================================================== *)

Section QDataStreamRoundTrip.

Import QDataStream.

Lemma byte_val_byte_of (z : Z) : byte_val (byte_of z) = z mod 256.
Proof.
  unfold byte_val, byte_of.
  pose proof (Z.mod_pos_bound z 256 ltac:(lia)) as Hb.
  destruct (Byte.of_N (Z.to_N (z mod 256))) as [b|] eqn:E.
  - cbn. apply Byte.to_of_N in E. rewrite E. lia.
  - apply Byte.of_N_None_iff in E. lia.
Qed.

Lemma read_bytes_app (a rest : QByteArray) :
  read_bytes (length a) (a ++ rest) = Some (a, rest).
Proof.
  unfold read_bytes. rewrite length_app.
  destruct (Nat.leb_spec (length a) (length a + length rest)); [|lia].
  now rewrite take_app_length, drop_app_length.
Qed.

Lemma be_unsigned_write_qint32 (z : Z) :
  be_unsigned (write_qint32 z) = z mod 2 ^ 32.
Proof.
  unfold be_unsigned, write_qint32. cbn [fold_left].
  rewrite !byte_val_byte_of, !Z.shiftr_div_pow2 by lia.
  change (2 ^ 24) with 16777216. change (2 ^ 16) with 65536.
  change (2 ^ 8) with 256. change (2 ^ 32) with 4294967296.
  pose proof (Z.div_mod z 4294967296 ltac:(lia)).
  pose proof (Z.mod_pos_bound z 4294967296 ltac:(lia)).
  pose proof (Z.div_mod z 16777216 ltac:(lia)).
  pose proof (Z.mod_pos_bound z 16777216 ltac:(lia)).
  pose proof (Z.div_mod z 65536 ltac:(lia)).
  pose proof (Z.mod_pos_bound z 65536 ltac:(lia)).
  pose proof (Z.div_mod z 256 ltac:(lia)).
  pose proof (Z.mod_pos_bound z 256 ltac:(lia)).
  pose proof (Z.div_mod (z / 16777216) 256 ltac:(lia)).
  pose proof (Z.mod_pos_bound (z / 16777216) 256 ltac:(lia)).
  pose proof (Z.div_mod (z / 65536) 256 ltac:(lia)).
  pose proof (Z.mod_pos_bound (z / 65536) 256 ltac:(lia)).
  pose proof (Z.div_mod (z / 256) 256 ltac:(lia)).
  pose proof (Z.mod_pos_bound (z / 256) 256 ltac:(lia)).
  lia.
Qed.

Lemma read_bytes_qint32 (z : Z) (rest : QByteArray) :
  read_bytes 4 (write_qint32 z ++ rest) = Some (write_qint32 z, rest).
Proof. exact (read_bytes_app (write_qint32 z) rest). Qed.

Lemma read_bytes_quint64 (z : Z) (rest : QByteArray) :
  read_bytes 8 (write_quint64 z ++ rest) = Some (write_quint64 z, rest).
Proof. exact (read_bytes_app (write_quint64 z) rest). Qed.

Lemma try_qint32_write (z : Z) (rest : QByteArray) :
  - 2 ^ 31 <= z < 2 ^ 31 ->
  try_qint32 (write_qint32 z ++ rest) = Some (z, rest).
Proof.
  intros Hz. unfold try_qint32.
  rewrite read_bytes_qint32, be_unsigned_write_qint32.
  f_equal. f_equal. unfold wrap_int.
  rewrite Zplus_mod_idemp_l, Z.mod_small; lia.
Qed.

Lemma read_qint32_write (z : Z) (rest : QByteArray) :
  - 2 ^ 31 <= z < 2 ^ 31 ->
  read_qint32 (write_qint32 z ++ rest) = (z, rest).
Proof. intros Hz. unfold read_qint32. now rewrite try_qint32_write. Qed.

Lemma read_quint32_write (z : Z) (rest : QByteArray) :
  0 <= z < 2 ^ 32 ->
  read_quint32 (write_quint32 z ++ rest) = (z, rest).
Proof.
  intros Hz. unfold read_quint32, write_quint32.
  rewrite read_bytes_qint32, be_unsigned_write_qint32.
  now rewrite Z.mod_small.
Qed.

Lemma read_bool_write (b : bool) (rest : QByteArray) :
  read_bool (write_bool b ++ rest) = (b, rest).
Proof. now destruct b. Qed.

Lemma be_unsigned_app (a b : QByteArray) :
  be_unsigned (a ++ b) = be_unsigned a * 256 ^ Z.of_nat (length b) + be_unsigned b.
Proof.
  unfold be_unsigned. rewrite fold_left_app.
  generalize (fold_left (fun acc x => acc * 256 + byte_val x) a 0).
  induction b as [|x b IH] using rev_ind; intros acc.
  - cbn. lia.
  - rewrite !fold_left_app, length_app. cbn [fold_left length].
    rewrite IH, Nat2Z.inj_add, Z.pow_add_r by lia.
    change (Z.of_nat 1) with 1. rewrite Z.pow_1_r. lia.
Qed.

Lemma be_unsigned_write_quint64 (z : Z) :
  0 <= z < 2 ^ 64 -> be_unsigned (write_quint64 z) = z.
Proof.
  intros Hz. unfold write_quint64.
  rewrite be_unsigned_app, !be_unsigned_write_qint32.
  change (Z.of_nat (length (write_qint32 z))) with 4.
  rewrite Z.shiftr_div_pow2 by lia.
  change (256 ^ 4) with (2 ^ 32).
  rewrite (Z.mod_small (z / 2 ^ 32)).
  - pose proof (Z.div_mod z (2 ^ 32) ltac:(lia)). lia.
  - split; [apply Z.div_pos; lia|].
    apply Z.div_lt_upper_bound; lia.
Qed.

Lemma try_double_write {double : Type} `{DO : DoubleOps double}
  `{DB : DoubleBits double} (w : double) (rest : QByteArray) :
  0 <= d_to_bits w < 2 ^ 64 -> d_of_bits (d_to_bits w) = w ->
  try_double (write_double w ++ rest) = Some (w, rest).
Proof.
  intros Hb Hw. unfold try_double, write_double.
  rewrite read_bytes_quint64.
  now rewrite be_unsigned_write_quint64, Hw.
Qed.

Lemma read_elements_write {A} (rd : QByteArray -> option (A * QByteArray))
  (wr : A -> QByteArray) (l : list A) :
  (forall x rest, x ∈ l -> rd (wr x ++ rest) = Some (x, rest)) ->
  forall rest acc,
    read_elements rd (length l) (concat (map wr l) ++ rest) acc
    = (acc ++ l, rest).
Proof.
  induction l as [|x l IH]; intros Hrd rest acc; cbn.
  - now rewrite app_nil_r.
  - rewrite <- app_assoc, Hrd by constructor.
    rewrite IH by (intros y r Hy; apply Hrd; now constructor).
    now rewrite <- app_assoc.
Qed.

Lemma read_QList_write {A} (rd : QByteArray -> option (A * QByteArray))
  (wr : A -> QByteArray) (l : list A) (rest : QByteArray) :
  Z.of_nat (length l) < 2 ^ 32 ->
  (forall x rest, x ∈ l -> rd (wr x ++ rest) = Some (x, rest)) ->
  read_QList rd (write_QList wr l ++ rest) = (l, rest).
Proof.
  intros Hlen Hrd. unfold read_QList, write_QList.
  rewrite <- app_assoc, read_quint32_write by lia.
  rewrite Nat2Z.id. now rewrite read_elements_write.
Qed.

End QDataStreamRoundTrip.

Section StretchHeaderViewState.

Import QDataStream StretchHeaderView.

Context {double : Type} `{DO : DoubleOps double} `{DB : DoubleBits double}.

Local Abbreviation View := (@View double).

Lemma arranged_length (vo : list nat) (n : nat) :
  arranged vo n -> length vo = n.
Proof. intros H. unfold arranged in H. now rewrite H, length_seq. Qed.

Lemma arranged_elem (vo : list nat) (n x : nat) :
  arranged vo n -> (x < n)%nat -> x ∈ vo.
Proof.
  intros H Hx. unfold arranged in H. rewrite H. apply elem_of_seq. lia.
Qed.

Lemma arranged_NoDup (vo : list nat) (n : nat) : arranged vo n -> NoDup vo.
Proof. intros H. unfold arranged in H. rewrite H. apply NoDup_seq. Qed.

Lemma arranged_bound (vo : list nat) (n i x : nat) :
  arranged vo n -> vo !! i = Some x -> (x < n)%nat.
Proof.
  intros H Hx. apply list_elem_of_lookup_2 in Hx. unfold arranged in H.
  rewrite H in Hx. apply elem_of_seq in Hx. lia.
Qed.

Lemma index_of_elem (x : nat) (l : list nat) :
  x ∈ l -> exists j, index_of x l = Some j /\ l !! j = Some x.
Proof.
  induction l as [|y l IH]; intros Hx; [now apply elem_of_nil in Hx|].
  cbn [index_of]. destruct (Nat.eqb_spec x y) as [->|Hne].
  - exists 0%nat. auto.
  - apply elem_of_cons in Hx as [Hx|Hx]; [contradiction|].
    destruct (IH Hx) as (j & Hj & Hl). exists (S j). rewrite Hj. auto.
Qed.

Lemma take_delete_ge {A} (l : list A) (j k : nat) :
  (k <= j)%nat -> take k (delete j l) = take k l.
Proof.
  intros Hkj. rewrite delete_take_drop.
  destruct (Nat.le_gt_cases (length l) j) as [Hlen|Hlen].
  - rewrite (take_ge l j) by lia. rewrite drop_ge by lia.
    now rewrite app_nil_r.
  - rewrite take_app_le by (rewrite length_take; lia).
    rewrite take_take. f_equal. lia.
Qed.

(** Moving the section that belongs at visual position [k] there keeps the
    positions before [k] and leaves a permutation. *)
Lemma move_into_place (order target : list nat) (n k j x : nat) :
  arranged order n -> arranged target n ->
  take k order = take k target ->
  target !! k = Some x -> order !! j = Some x ->
  let rest := delete j order in
  let order' := take k rest ++ x :: drop k rest in
  arranged order' n /\ take (S k) order' = take (S k) target.
Proof.
  intros Ho Ht Htake Hk Hj rest order'.
  assert (Hkj : (k <= j)%nat).
  { destruct (Nat.le_gt_cases k j) as [H|H]; [exact H|].
    assert (Htj : target !! j = Some x).
    { rewrite <- (lookup_take_lt target k j H), <- Htake.
      now rewrite lookup_take_lt. }
    pose proof (NoDup_lookup _ _ _ _ (arranged_NoDup _ _ Ht) Htj Hk). lia. }
  assert (Hlen : length order = n) by now apply arranged_length.
  assert (Hjn : (j < n)%nat).
  { apply lookup_lt_Some in Hj. lia. }
  assert (Hrest : take k rest = take k order)
    by (subst rest; now apply take_delete_ge).
  split.
  - unfold arranged in *. subst order'.
    rewrite <- Permutation_middle, take_drop. subst rest.
    now rewrite <- (delete_Permutation order j x Hj).
  - subst order'. rewrite (take_S_r target k x Hk).
    assert (Hlk : length (take k rest) = k).
    { rewrite Hrest, length_take. lia. }
    rewrite take_app_ge by lia. rewrite Hlk.
    replace (S k - k)%nat with 1%nat by lia.
    change (take 1 (x :: drop k rest)) with (x :: take 0 (drop k rest)).
    now rewrite take_0, Hrest, Htake.
Qed.

Lemma visualIndex_found (v : View) (x j : nat) :
  (x < count v)%nat ->
  index_of x (visual_order v) = Some j ->
  visualIndex v (Z.of_nat x) = Z.of_nat j.
Proof.
  intros Hx Hj. unfold visualIndex.
  destruct (Z.ltb_spec (Z.of_nat x) 0); [lia|].
  destruct (Z.leb_spec (Z.of_nat (count v)) (Z.of_nat x)); [lia|].
  cbn [orb]. now rewrite Nat2Z.id, Hj.
Qed.

Lemma restore_column_step (pw : list Z) (L : list nat) (v0 v : View)
  (k : nat) :
  arranged L (count v0) -> (k < count v0)%nat ->
  (forall j p, pw !! j = Some p -> 0 <= p) ->
  restored_up_to pw L v0 k v ->
  restored_up_to pw L v0 (S k) (restore_column pw (Z.of_nat <$> L) v k).
Proof.
  intros HL Hk Hpw (Hcount & Harr & Htake & Hst & Hws & Hss & Hso & Hw & Hsec).
  set (n := count v0) in *.
  assert (HlenL : length L = n) by now apply arranged_length.
  destruct (lookup_lt_is_Some_2 L k ltac:(lia)) as (x & Hx).
  assert (Hxn : (x < n)%nat) by exact (arranged_bound _ _ _ _ HL Hx).
  destruct (index_of_elem x (visual_order v) (arranged_elem _ _ _ Harr Hxn))
    as (j & Hidx & Hj).
  assert (Hjn : (j < n)%nat).
  { apply lookup_lt_Some in Hj. rewrite (arranged_length _ _ Harr) in Hj.
    exact Hj. }
  set (p := default 0 (pw !! k)).
  assert (Hp : 0 <= p).
  { subst p. destruct (pw !! k) as [p|] eqn:E; cbn; [now apply (Hpw k)|lia]. }
  unfold restore_column.
  rewrite list_lookup_fmap, Hx. cbn [fmap option_fmap option_map default].
  change (id (Z.of_nat x)) with (Z.of_nat x). fold p.
  set (v1 := setSectionHidden (Z.of_nat k) (p <=? kMinimumColumnWidth) v).
  assert (Hv1 : v1 = with_sections
                       (alter (fun s => mkSection (p <=? kMinimumColumnWidth)
                                          (sec_size s)) k (sections v)) v).
  { subst v1. unfold setSectionHidden.
    destruct (Z.ltb_spec (Z.of_nat k) 0); [lia|]. now rewrite Nat2Z.id. }
  assert (Hc1 : count v1 = n).
  { rewrite Hv1. unfold count. cbn. rewrite length_alter. exact Hcount. }
  rewrite (visualIndex_found v1 x j) by (rewrite ?Hc1, ?Hv1; assumption).
  set (v2 := moveSection (Z.of_nat j) (Z.of_nat k) v1).
  destruct (move_into_place (visual_order v) L n k j x Harr HL Htake Hx Hj)
    as (Harr2 & Htake2).
  assert (Hv2 : v2 = with_visual_order
                       (take k (delete j (visual_order v))
                        ++ x :: drop k (delete j (visual_order v))) v1).
  { subst v2. unfold moveSection. rewrite Hc1.
    destruct (Z.ltb_spec (Z.of_nat j) 0); [lia|].
    destruct (Z.leb_spec (Z.of_nat n) (Z.of_nat j)); [lia|].
    destruct (Z.ltb_spec (Z.of_nat k) 0); [lia|].
    destruct (Z.leb_spec (Z.of_nat n) (Z.of_nat k)); [lia|].
    cbn [orb]. rewrite !Nat2Z.id, Hv1. cbn [visual_order with_sections].
    now rewrite Hj. }
  assert (Hfinal :
    (if negb (stretch_enabled_ v2)
     then resizeSection (Z.of_nat k) p v2 else v2)
    = with_sections
        (alter (restored_section (stretch_enabled_ v0) p) k (sections v)) v2).
  { rewrite Hv2, Hv1. cbn [stretch_enabled_ with_visual_order with_sections].
    rewrite Hst. unfold resizeSection.
    destruct (stretch_enabled_ v0); cbn [negb].
    - reflexivity.
    - destruct (Z.ltb_spec (Z.of_nat k) 0); [lia|].
      destruct (Z.ltb_spec p 0); [lia|]. cbn [orb]. rewrite Nat2Z.id.
      cbn [sections with_visual_order with_sections].
      unfold with_sections. cbn. f_equal.
      rewrite list_alter_alter_eq. apply list_alter_ext; [|reflexivity].
      intros s _. reflexivity. }
  rewrite Hfinal, Hv2, Hv1. unfold restored_up_to.
  cbn [count sections visual_order stretch_enabled_ column_widths_
       sort_indicator_section sort_indicator_order width
       with_sections with_visual_order].
  split_all; try assumption.
  - unfold count. cbn. rewrite length_alter. exact Hcount.
  - intros i. destruct (Nat.eq_dec i k) as [->|Hne].
    + rewrite list_lookup_alter_eq, Hsec.
      destruct (Nat.ltb_spec k k); [lia|].
      destruct (Nat.ltb_spec k (S k)); [|lia]. reflexivity.
    + rewrite list_lookup_alter_ne by congruence. rewrite Hsec.
      destruct (Nat.ltb_spec i k), (Nat.ltb_spec i (S k)); try lia;
        reflexivity.
Qed.

Lemma restore_loop (pw : list Z) (L : list nat) (v0 : View) (m : nat) :
  arranged L (count v0) ->
  (forall j p, pw !! j = Some p -> 0 <= p) ->
  forall (k : nat) (v : View),
    (k + m = count v0)%nat ->
    restored_up_to pw L v0 k v ->
    restored_up_to pw L v0 (count v0)
      (fold_left (restore_column pw (Z.of_nat <$> L)) (seq k m) v).
Proof.
  intros HL Hpw. induction m as [|m IH]; intros k v Hkm H; cbn [seq fold_left].
  - now replace (count v0) with k by lia.
  - apply IH; [lia|]. apply restore_column_step; try assumption. lia.
Qed.

Lemma visual_indices_saved (v : View) :
  length (visual_order v) = count v ->
  map (fun i => logicalIndex v (Z.of_nat i)) (seq 0 (count v))
  = Z.of_nat <$> visual_order v.
Proof.
  intros Hlen. apply list_eq. intros i.
  change (map ?f ?l) with (f <$> l). rewrite !list_lookup_fmap.
  destruct (Nat.lt_ge_cases i (count v)) as [Hi|Hi].
  - rewrite lookup_seq_lt by exact Hi. cbn [fmap option_fmap option_map].
    unfold logicalIndex. destruct (Z.ltb_spec (Z.of_nat (0 + i)) 0); [lia|].
    rewrite Nat2Z.id. cbn [Nat.add].
    destruct (lookup_lt_is_Some_2 (visual_order v) i ltac:(lia)) as (x & Hx).
    now rewrite Hx.
  - rewrite lookup_seq_ge by exact Hi.
    now rewrite (lookup_ge_None_2 (visual_order v) i) by lia.
Qed.

Lemma UpdateWidths_step_fields (secs : list Z) (v : View)
  (iw : nat * double) :
  let v' := UpdateWidths_step secs v iw in
  visual_order v' = visual_order v
  /\ stretch_enabled_ v' = stretch_enabled_ v
  /\ column_widths_ v' = column_widths_ v
  /\ sort_indicator_section v' = sort_indicator_section v
  /\ sort_indicator_order v' = sort_indicator_order v
  /\ width v' = width v
  /\ count v' = count v.
Proof.
  unfold UpdateWidths_step, hideSection, showSection, setSectionHidden,
    resizeSection, count.
  repeat match goal with
         | |- context [if ?b then _ else _] => destruct b
         end; cbn; rewrite ?length_alter; auto 10.
Qed.

Lemma UpdateWidths_fields (secs : list Z) (v : View) :
  let v' := UpdateWidths secs v in
  visual_order v' = visual_order v
  /\ stretch_enabled_ v' = stretch_enabled_ v
  /\ column_widths_ v' = column_widths_ v
  /\ sort_indicator_section v' = sort_indicator_section v
  /\ sort_indicator_order v' = sort_indicator_order v
  /\ width v' = width v
  /\ count v' = count v.
Proof.
  unfold UpdateWidths. destruct (negb (stretch_enabled_ v)); [auto 10|].
  generalize (imap pair (column_widths_ v)). intros l. revert v.
  induction l as [|iw l IH]; intros v; cbn [fold_left]; [auto 10|].
  destruct (UpdateWidths_step_fields secs v iw)
    as (H1 & H2 & H3 & H4 & H5 & H6 & H7).
  destruct (IH (UpdateWidths_step secs v iw))
    as (G1 & G2 & G3 & G4 & G5 & G6 & G7).
  cbv zeta. split_all; congruence.
Qed.

(** X17. Saving and restoring brings the header back.  [RestoreState]
    applied to what [SaveState] wrote for a header [v], on any header [v0]
    with as many sections, succeeds and emits [StretchEnabledChanged] with
    the saved mode; the stretch mode, the proportional column widths, the
    sort indicator and the visual order of the columns are those of [v],
    whatever order [v0] had.  With stretch mode off, a column wider than 10
    pixels comes back shown with its width, and a column that was hidden or
    at most 10 pixels wide comes back hidden. *)
Theorem SaveState_RestoreState :
  forall v v0 : View,
    count v0 = count v ->
    length (column_widths_ v) = count v ->
    arranged (visual_order v) (count v) ->
    arranged (visual_order v0) (count v0) ->
    Z.of_nat (count v) < 2 ^ 31 ->
    (forall i, 0 <= sectionSize v (Z.of_nat i) < 2 ^ 31) ->
    - 2 ^ 31 <= sort_indicator_order v < 2 ^ 31 ->
    - 2 ^ 31 <= sort_indicator_section v < 2 ^ 31 ->
    (forall w, w ∈ column_widths_ v ->
       0 <= d_to_bits w < 2 ^ 64 /\ d_of_bits (d_to_bits w) = w) ->
    let r := RestoreState (SaveState v) v0 in
    let v' := snd (fst r) in
    fst (fst r) = true
    /\ snd r = [StretchEnabledChanged (stretch_enabled_ v)]
    /\ stretch_enabled_ v' = stretch_enabled_ v
    /\ column_widths_ v' = column_widths_ v
    /\ sort_indicator_section v' = sort_indicator_section v
    /\ sort_indicator_order v' = sort_indicator_order v
    /\ visual_order v' = visual_order v
    /\ width v' = width v0
    /\ (stretch_enabled_ v = false ->
        forall i, (i < count v)%nat ->
          isSectionHidden v' (Z.of_nat i)
          = (sectionSize v (Z.of_nat i) <=? kMinimumColumnWidth)
          /\ sectionSize v' (Z.of_nat i)
             = if sectionSize v (Z.of_nat i) <=? kMinimumColumnWidth then 0
               else sectionSize v (Z.of_nat i)).
Proof.
  intros v v0 Hcount Hlenw Harr Harr0 Hn Hsizes Hso Hss Hbits.
  remember (count v) as n eqn:Hdef.
  set (pw := map (fun i => sectionSize v (Z.of_nat i)) (seq 0 n)).
  assert (Hpwlen : length pw = n)
    by (subst pw; now rewrite length_map, length_seq).
  assert (Hpw : forall j, (j < n)%nat ->
                  pw !! j = Some (sectionSize v (Z.of_nat j))).
  { intros j Hj. subst pw. change (map ?f ?l) with (f <$> l).
    now rewrite list_lookup_fmap, lookup_seq_lt by exact Hj. }
  assert (Hpwpos : forall j p, pw !! j = Some p -> 0 <= p).
  { intros j p Hj. pose proof (lookup_lt_Some _ _ _ Hj) as Hlt.
    rewrite Hpw in Hj by lia. injection Hj as <-. apply Hsizes. }
  assert (HlenL : length (visual_order v) = n) by now apply arranged_length.
  cbv zeta. unfold SaveState.
  rewrite (visual_indices_saved v) by (now rewrite HlenL).
  rewrite <- Hdef. fold pw.
  unfold RestoreState.
  rewrite read_qint32_write by (vm_compute; split; [discriminate|reflexivity]).
  cbv beta iota. rewrite Z.eqb_refl. cbn [negb orb].
  change (atEnd (write_bool (stretch_enabled_ v) ++ ?x)) with false.
  cbv beta iota. rewrite read_bool_write. cbv beta iota.
  rewrite (read_QList_write try_qint32 write_qint32 pw);
    [|rewrite Hpwlen; lia
     |intros x rest Hx; apply try_qint32_write;
      apply list_elem_of_lookup_1 in Hx as (j & Hj);
      pose proof (lookup_lt_Some _ _ _ Hj) as Hlt;
      rewrite Hpw in Hj by lia; injection Hj as <-;
      pose proof (Hsizes j); lia].
  cbv beta iota.
  rewrite (read_QList_write try_qint32 write_qint32
             (Z.of_nat <$> visual_order v));
    [|rewrite length_fmap, HlenL; lia
     |intros x rest Hx; apply try_qint32_write;
      apply list_elem_of_fmap in Hx as (y & -> & Hy);
      apply list_elem_of_lookup_1 in Hy as (j & Hj);
      pose proof (arranged_bound _ _ _ _ Harr Hj); lia].
  cbv beta iota.
  rewrite (read_QList_write try_double write_double (column_widths_ v));
    [|rewrite Hlenw; lia
     |intros x rest Hx; destruct (Hbits x Hx); now apply try_double_write].
  cbv beta iota.
  rewrite read_qint32_write by exact Hso. cbv beta iota.
  rewrite <- (app_nil_r (write_qint32 (sort_indicator_section v))).
  rewrite read_qint32_write by exact Hss. cbv beta iota.
  set (start := setSortIndicator (sort_indicator_section v)
                  (sort_indicator_order v)
                  (with_column_widths (column_widths_ v)
                     (with_stretch_enabled (stretch_enabled_ v) v0))).
  assert (Hcs : count start = n) by exact Hcount.
  rewrite length_fmap, HlenL, Hpwlen, Hlenw, Hcs, !Nat.min_id.
  assert (Hinit : restored_up_to pw (visual_order v) start 0 start).
  { unfold restored_up_to. split_all; try reflexivity.
    rewrite Hcs, <- Hcount. exact Harr0. }
  pose proof (restore_loop pw (visual_order v) start n
                ltac:(now rewrite Hcs) Hpwpos 0%nat start
                ltac:(now rewrite Hcs) Hinit) as Hloop.
  rewrite Hcs in Hloop.
  set (v3 := fold_left (restore_column pw (Z.of_nat <$> visual_order v))
               (seq 0 n) start) in *.
  destruct Hloop as (Hc3 & Harr3 & Htake3 & Hst3 & Hws3 & Hss3 & Hso3 & Hw3
                     & Hsec3).
  rewrite Hcs in Hc3, Harr3.
  cbn [stretch_enabled_ column_widths_ sort_indicator_section
       sort_indicator_order width start setSortIndicator with_column_widths
       with_stretch_enabled] in Hst3, Hws3, Hss3, Hso3, Hw3, Hsec3.
  assert (Hord3 : visual_order v3 = visual_order v).
  { rewrite <- (take_ge (visual_order v3) n)
      by (rewrite (arranged_length _ _ Harr3); lia).
    rewrite <- (take_ge (visual_order v) n) by lia. exact Htake3. }
  rewrite Hws3, Hlenw, Hc3, Nat.sub_diag. cbn [replicate].
  rewrite app_nil_r.
  set (v4 := with_column_widths (column_widths_ v) v3).
  assert (Hst4 : stretch_enabled_ v4 = stretch_enabled_ v) by exact Hst3.
  rewrite Hst4.
  destruct (stretch_enabled_ v) eqn:Hstretch; cbn [fst snd].
  - destruct (UpdateWidths_fields [] v4)
      as (H1 & H2 & H3 & H4 & H5 & H6 & H7).
    cbv zeta in H1, H2, H3, H4, H5, H6, H7.
    rewrite H1, H2, H3, H4, H5, H6. subst v4.
    cbn [stretch_enabled_ column_widths_ sort_indicator_section
         sort_indicator_order width visual_order with_column_widths].
    rewrite Hst3.
    split_all; try reflexivity; try assumption. discriminate.
  - subst v4.
    cbn [stretch_enabled_ column_widths_ sort_indicator_section
         sort_indicator_order width visual_order with_column_widths].
    rewrite Hst3.
    split_all; try reflexivity; try assumption.
    intros _ i Hi. unfold isSectionHidden, sectionSize.
    rewrite !section_at_of_nat.
    cbn [sections with_column_widths]. rewrite Hsec3.
    destruct (Nat.ltb_spec i n); [|lia].
    rewrite (Hpw i Hi).
    cbn [default from_option id].
    destruct (lookup_lt_is_Some_2 (sections start) i
                ltac:(fold (count start); lia)) as (s & Hs).
    change (sections start) with (sections v0) in Hs |- *.
    rewrite Hs. cbn [fmap option_fmap option_map].
    unfold restored_section. cbn [sec_hidden sec_size].
    fold (sectionSize v (Z.of_nat i)).
    pose proof (section_at_of_nat v i) as Hat.
    split; unfold sectionSize; now rewrite Hat.
Qed.

Lemma alter_fixed {A} (f : A -> A) (l : list A) (k : nat) :
  (forall x, l !! k = Some x -> f x = x) -> alter f k l = l.
Proof.
  intros H. rewrite <- (list_alter_id (fun x => x) l k) at 2 by reflexivity.
  now apply list_alter_ext.
Qed.

Lemma UpdateWidths_step_sections (v : View) (k : nat) (w : double) :
  sections (UpdateWidths_step [] v (k, w))
  = alter (stretched_section (column_pixels v w)) k (sections v).
Proof.
  unfold UpdateWidths_step. cbn [isEmpty negb andb fst snd].
  fold (column_pixels v w). set (px := column_pixels v w).
  unfold isSectionHidden. rewrite section_at_of_nat.
  unfold hideSection, showSection, setSectionHidden, resizeSection.
  destruct (Z.ltb_spec (Z.of_nat k) 0); [lia|]. cbn [orb].
  rewrite Nat2Z.id.
  destruct (sections v !! k) as [s|] eqn:Hs.
  - destruct (Z.eqb_spec px 0) as [E|E]; cbn [negb andb].
    + destruct (sec_hidden s) eqn:Hh; cbn [negb sections with_sections].
      * symmetry. apply alter_fixed. intros s' Hs'.
        rewrite Hs in Hs'. injection Hs' as <-.
        unfold stretched_section. rewrite E. cbn. rewrite <- Hh.
        now destruct s.
      * apply list_alter_ext; [|reflexivity]. intros s' _.
        unfold stretched_section. now rewrite E.
    + destruct (sec_hidden s) eqn:Hh; cbn [negb sections with_sections].
      * destruct (Z.ltb_spec px 0).
        -- apply list_alter_ext; [|reflexivity]. intros s' _.
           unfold stretched_section.
           rewrite (proj2 (Z.eqb_neq _ _) E), (proj2 (Z.ltb_lt _ _)) by lia.
           reflexivity.
        -- cbn [sections with_sections]. rewrite list_alter_alter_eq.
           apply list_alter_ext; [|reflexivity]. intros s' _.
           unfold stretched_section.
           rewrite (proj2 (Z.eqb_neq _ _) E), (proj2 (Z.ltb_ge _ _)) by lia.
           reflexivity.
      * destruct (Z.ltb_spec px 0).
        -- symmetry. apply alter_fixed. intros s' Hs'.
           rewrite Hs in Hs'. injection Hs' as <-.
           unfold stretched_section.
           rewrite (proj2 (Z.eqb_neq _ _) E), (proj2 (Z.ltb_lt _ _)) by lia.
           rewrite <- Hh. now destruct s.
        -- cbn [sections with_sections].
           apply list_alter_ext; [|reflexivity]. intros s' Hs'.
           rewrite Hs in Hs'. injection Hs' as <-.
           unfold stretched_section.
           rewrite (proj2 (Z.eqb_neq _ _) E), (proj2 (Z.ltb_ge _ _)) by lia.
           now rewrite Hh.
  - assert (Hno : forall f, alter f k (sections v) = sections v).
    { intros f. apply list_eq. intros j.
      destruct (Nat.eq_dec k j) as [<-|Hne].
      - now rewrite list_lookup_alter_eq, Hs.
      - now rewrite list_lookup_alter_ne. }
    rewrite Hno.
    destruct (Z.eqb_spec px 0); cbn [negb andb sections with_sections];
      rewrite ?Hno; [reflexivity|].
    destruct (Z.ltb_spec px 0); cbn [sections with_sections];
      now rewrite ?Hno.
Qed.

Lemma same_frame_refl (v : View) : same_frame v v.
Proof. unfold same_frame. auto 10. Qed.

Lemma same_frame_trans (v1 v2 v3 : View) :
  same_frame v1 v2 -> same_frame v2 v3 -> same_frame v1 v3.
Proof. unfold same_frame. intros ? ?. split_all; intuition congruence. Qed.

Lemma UpdateWidths_same_frame (secs : list Z) (v : View) :
  same_frame v (UpdateWidths secs v).
Proof. exact (UpdateWidths_fields secs v). Qed.

Lemma fold_UpdateWidths_step (ws : list double) :
  forall v : View,
    let v' := fold_left (UpdateWidths_step []) (imap pair ws) v in
    same_frame v v'
    /\ forall i,
         sections v' !! i
         = match ws !! i with
           | Some w => stretched_section (column_pixels v w) <$> sections v !! i
           | None => sections v !! i
           end.
Proof.
  induction ws as [|w ws IH] using rev_ind; intros v; cbv zeta.
  - split; [apply same_frame_refl|]. intros i. reflexivity.
  - rewrite imap_app, fold_left_app. cbn [imap fold_left].
    destruct (IH v) as (Hframe & Hsec). cbv zeta in Hframe, Hsec.
    match type of Hframe with
    | same_frame _ ?t => set (v1 := t) in *
    end.
    change (fold_left (UpdateWidths_step []) (imap pair ws) v) with v1.
    replace (length ws + 0)%nat with (length ws) by lia.
    split.
    + apply (same_frame_trans _ v1); [exact Hframe|].
      exact (UpdateWidths_step_fields [] v1 (length ws, w)).
    + intros i. rewrite UpdateWidths_step_sections.
      unfold ColumnWidthType in *.
      assert (Hpx : column_pixels v1 w = column_pixels v w).
      { unfold column_pixels.
        destruct Hframe as (_ & _ & _ & _ & _ & Hw & _). now rewrite Hw. }
      rewrite Hpx. destruct (Nat.eq_dec i (length ws)) as [->|Hne].
      * rewrite list_lookup_alter_eq, Hsec.
        rewrite (lookup_ge_None_2 ws (length ws)) by lia.
        now rewrite list_lookup_middle.
      * rewrite list_lookup_alter_ne by congruence. rewrite Hsec.
        destruct (Nat.lt_ge_cases i (length ws)) as [Hlt|Hge].
        -- now rewrite lookup_app_l.
        -- rewrite (lookup_ge_None_2 ws i) by lia.
           rewrite (lookup_ge_None_2 (ws ++ [w]) i); [reflexivity|].
           rewrite length_app. cbn. lia.
Qed.


Lemma with_sections_same (v : View) : with_sections (sections v) v = v.
Proof. now destruct v. Qed.

(** X19. With stretch mode off, hiding a shown column and showing it again
    gives back the header as it was, the width of the column included:
    the guard that keeps the last column shown makes no difference. *)
Theorem ShowSection_after_HideSection :
  forall (v : View) (logical : Z),
    stretch_enabled_ v = false ->
    isSectionHidden v logical = false ->
    exists v1,
      HideSection logical v = Some v1
      /\ stretch_enabled_ v1 = false
      /\ ShowSection logical v1 = Some v.
Proof.
  intros v logical Hst Hvis.
  assert (Hshow : forall f,
            (forall s, sec_hidden s = false ->
               mkSection false (sec_size (f s)) = s) ->
            (forall s, sec_size (f s) = sec_size s) ->
            showSection logical
              (if logical <? 0 then v
               else with_sections (alter f (Z.to_nat logical) (sections v)) v)
            = v).
  { intros f Hf Hsize. unfold showSection, setSectionHidden.
    destruct (Z.ltb_spec logical 0); [reflexivity|].
    cbn [sections with_sections]. unfold with_sections. cbn.
    rewrite list_alter_alter_eq.
    rewrite alter_fixed; [now destruct v|].
    intros s Hs. cbn. apply Hf.
    unfold isSectionHidden, section_at in Hvis.
    destruct (Z.ltb_spec logical 0); [lia|]. now rewrite Hs in Hvis. }
  unfold HideSection, ShowSection.
  destruct (all_hidden logical v).
  - exists v. split_all; [reflexivity|exact Hst|]. rewrite Hst. cbn [negb].
    f_equal. specialize (Hshow (fun s => s)).
    rewrite list_alter_id in Hshow by reflexivity.
    rewrite with_sections_same in Hshow.
    destruct (logical <? 0); apply Hshow; try reflexivity;
      intros s Hs; rewrite <- Hs; now destruct s.
  - rewrite Hst. cbn [negb]. exists (hideSection logical v).
    assert (Hst1 : stretch_enabled_ (hideSection logical v) = false).
    { unfold hideSection, setSectionHidden. now destruct (logical <? 0). }
    rewrite Hst1. cbn [negb]. split_all; [reflexivity|reflexivity|].
    f_equal. unfold hideSection, setSectionHidden. apply Hshow.
    + intros s Hs. cbn. rewrite <- Hs. now destruct s.
    + reflexivity.
Qed.

Lemma RestoreState_stream (stretch : bool) (pw vi : list Z)
  (ws : list double) (so ss : Z) (v0 : View) :
  Z.of_nat (length pw) < 2 ^ 32 ->
  (forall x, x ∈ pw -> - 2 ^ 31 <= x < 2 ^ 31) ->
  Z.of_nat (length vi) < 2 ^ 32 ->
  (forall x, x ∈ vi -> - 2 ^ 31 <= x < 2 ^ 31) ->
  Z.of_nat (length ws) < 2 ^ 32 ->
  (forall w, w ∈ ws ->
     0 <= d_to_bits w < 2 ^ 64 /\ d_of_bits (d_to_bits w) = w) ->
  - 2 ^ 31 <= so < 2 ^ 31 -> - 2 ^ 31 <= ss < 2 ^ 31 ->
  RestoreState
    (write_qint32 kMagicNumber ++ write_bool stretch
     ++ write_QList write_qint32 pw ++ write_QList write_qint32 vi
     ++ write_QList write_double ws ++ write_qint32 so ++ write_qint32 ss) v0
  = let v2 := setSortIndicator ss so
                (with_column_widths ws (with_stretch_enabled stretch v0)) in
    let v3 := fold_left (restore_column pw vi)
                (seq 0 (Nat.min (count v2)
                          (Nat.min (Nat.min (length vi) (length pw))
                                   (length ws)))) v2 in
    let v4 := with_column_widths
                (column_widths_ v3
                 ++ replicate (count v3 - length (column_widths_ v3))
                      (d_of_int 0)) v3 in
    let v5 := if stretch_enabled_ v4 then UpdateWidths [] v4 else v4 in
    (true, v5, [StretchEnabledChanged (stretch_enabled_ v5)]).
Proof.
  intros Hpwl Hpw Hvil Hvi Hwsl Hws Hso Hss.
  unfold RestoreState.
  rewrite read_qint32_write by (vm_compute; split; [discriminate|reflexivity]).
  cbv beta iota. rewrite Z.eqb_refl. cbn [negb orb].
  change (atEnd (write_bool stretch ++ ?x)) with false.
  cbv beta iota. rewrite read_bool_write. cbv beta iota.
  rewrite (read_QList_write try_qint32 write_qint32 pw);
    [|exact Hpwl|intros x rest Hx; apply try_qint32_write; now apply Hpw].
  cbv beta iota.
  rewrite (read_QList_write try_qint32 write_qint32 vi);
    [|exact Hvil|intros x rest Hx; apply try_qint32_write; now apply Hvi].
  cbv beta iota.
  rewrite (read_QList_write try_double write_double ws);
    [|exact Hwsl
     |intros x rest Hx; destruct (Hws x Hx); now apply try_double_write].
  cbv beta iota.
  rewrite read_qint32_write by exact Hso. cbv beta iota.
  rewrite <- (app_nil_r (write_qint32 ss)).
  rewrite read_qint32_write by exact Hss. reflexivity.
Qed.

Lemma UpdateWidths_by_proportion_sections (v : View) :
  stretch_enabled_ v = true ->
  forall i,
    sections (UpdateWidths [] v) !! i
    = match column_widths_ v !! i with
      | Some w => stretched_section (column_pixels v w) <$> sections v !! i
      | None => sections v !! i
      end.
Proof.
  intros Hst. unfold UpdateWidths. rewrite Hst. cbn [negb].
  exact (proj2 (fold_UpdateWidths_step (column_widths_ v) v)).
Qed.

Lemma reset_column (n k : nat) (v : View) :
  stretch_enabled_ v = true -> count v = n -> (k < n)%nat ->
  restore_column (replicate n 10) (replicate n (Z.of_nat n)) v k
  = with_sections
      (alter (fun s => mkSection true (sec_size s)) k (sections v)) v.
Proof.
  intros Hst Hc Hk. unfold restore_column.
  rewrite !lookup_replicate_2 by exact Hk. cbn [default from_option id].
  change (10 <=? kMinimumColumnWidth) with true.
  unfold setSectionHidden. destruct (Z.ltb_spec (Z.of_nat k) 0); [lia|].
  rewrite Nat2Z.id.
  set (v1 := with_sections _ v).
  assert (Hc1 : count v1 = n).
  { subst v1. unfold count. cbn. now rewrite length_alter. }
  unfold visualIndex. rewrite Hc1.
  destruct (Z.leb_spec (Z.of_nat n) (Z.of_nat n)); [|lia].
  rewrite orb_true_r. unfold moveSection.
  change (-1 <? 0) with true. cbn [orb].
  change (stretch_enabled_ v1) with (stretch_enabled_ v). now rewrite Hst.
Qed.

Lemma reset_loop (n m : nat) :
  forall (k : nat) (v : View),
    stretch_enabled_ v = true -> count v = n -> (k + m = n)%nat ->
    let v' := fold_left
                (restore_column (replicate n 10) (replicate n (Z.of_nat n)))
                (seq k m) v in
    same_frame v v'
    /\ forall j,
         sections v' !! j
         = if (k <=? j)%nat
           then (fun s => mkSection true (sec_size s)) <$> sections v !! j
           else sections v !! j.
Proof.
  induction m as [|m IH]; intros k v Hst Hc Hkm; cbv zeta;
    cbn [seq fold_left].
  - split; [apply same_frame_refl|]. intros j.
    destruct (Nat.leb_spec k j); [|reflexivity].
    rewrite (lookup_ge_None_2 (sections v) j); [reflexivity|].
    fold (count v). lia.
  - rewrite reset_column by (try assumption; lia).
    set (v1 := with_sections _ v).
    assert (Hframe1 : same_frame v v1).
    { subst v1. unfold same_frame, count. cbn. rewrite length_alter.
      auto 10. }
    destruct (IH (S k) v1) as (Hframe & Hsec).
    + exact Hst.
    + destruct Hframe1 as (_ & _ & _ & _ & _ & _ & Hc1). now rewrite Hc1.
    + lia.
    + cbv zeta in Hframe, Hsec. split.
      * exact (same_frame_trans _ _ _ Hframe1 Hframe).
      * intros j. rewrite Hsec. subst v1. cbn [sections with_sections].
        destruct (Nat.eq_dec j k) as [->|Hne].
        -- destruct (Nat.leb_spec (S k) k); [lia|].
           destruct (Nat.leb_spec k k); [|lia].
           apply list_lookup_alter_eq.
        -- rewrite list_lookup_alter_ne by congruence.
           destruct (Nat.leb_spec (S k) j), (Nat.leb_spec k j); try lia;
             reflexivity.
Qed.

Lemma RestoreState_reset (n : nat) (share : double) (v1 : View) :
  count v1 = n -> Z.of_nat n < 2 ^ 31 ->
  (n <> 0%nat ->
   0 <= d_to_bits share < 2 ^ 64 /\ d_of_bits (d_to_bits share) = share) ->
  let r := RestoreState
             (write_qint32 kMagicNumber ++ write_bool true
              ++ write_QList write_qint32 (replicate n 10)
              ++ write_QList write_qint32 (replicate n (Z.of_nat n))
              ++ write_QList write_double (replicate n share)
              ++ write_qint32 0 ++ write_qint32 0) v1 in
  let v' := snd (fst r) in
  fst (fst r) = true
  /\ snd r = [StretchEnabledChanged true]
  /\ stretch_enabled_ v' = true
  /\ column_widths_ v' = replicate n share
  /\ sort_indicator_section v' = 0
  /\ sort_indicator_order v' = 0
  /\ visual_order v' = visual_order v1
  /\ width v' = width v1
  /\ forall i, (i < n)%nat ->
       isSectionHidden v' (Z.of_nat i) = (column_pixels v1 share =? 0)
       /\ (0 < column_pixels v1 share ->
           sectionSize v' (Z.of_nat i) = column_pixels v1 share).
Proof.
  intros Hc1 Hn Hbits. cbv zeta.
  rewrite RestoreState_stream;
    [|rewrite length_replicate; lia
     |intros x Hx; apply elem_of_replicate in Hx as [-> _]; lia
     |rewrite length_replicate; lia
     |intros x Hx; apply elem_of_replicate in Hx as [-> _]; lia
     |rewrite length_replicate; lia
     |intros w Hw; apply elem_of_replicate in Hw as [-> Hne];
      now apply Hbits
     |lia|lia].
  cbv zeta. cbn [fst snd].
  set (start := setSortIndicator 0 0
                  (with_column_widths (replicate n share)
                     (with_stretch_enabled true v1))).
  assert (Hcs : count start = n) by exact Hc1.
  rewrite Hcs, !length_replicate, !Nat.min_id.
  destruct (reset_loop n n 0%nat start eq_refl Hcs eq_refl)
    as (Hframe3 & Hsec3).
  cbv zeta in Hframe3, Hsec3.
  set (v3 := fold_left _ (seq 0 n) start) in *.
  destruct Hframe3 as (Hvo3 & Hst3 & Hws3 & Hss3 & Hso3 & Hw3 & Hc3).
  cbn [start visual_order stretch_enabled_ column_widths_
       sort_indicator_section sort_indicator_order width setSortIndicator
       with_column_widths with_stretch_enabled]
    in Hvo3, Hst3, Hws3, Hss3, Hso3, Hw3.
  rewrite Hws3, Hc3, Hcs, length_replicate, Nat.sub_diag.
  cbn [replicate]. rewrite app_nil_r.
  set (v4 := with_column_widths (replicate n share) v3).
  assert (Hst4 : stretch_enabled_ v4 = true) by exact Hst3.
  rewrite Hst4.
  destruct (UpdateWidths_fields [] v4) as (H1 & H2 & H3 & H4 & H5 & H6 & H7).
  cbv zeta in H1, H2, H3, H4, H5, H6, H7.
  rewrite H1, H2, H3, H4, H5, H6, Hst4.
  split_all; try reflexivity; try assumption.
  intros i Hi.
  pose proof (UpdateWidths_by_proportion_sections v4 Hst4) as Hsec5.
  unfold isSectionHidden, sectionSize. rewrite section_at_of_nat, Hsec5.
  unfold ColumnWidthType in *.
  change (column_widths_ v4) with (replicate n share).
  rewrite lookup_replicate_2 by exact Hi.
  change (sections v4) with (sections v3). rewrite Hsec3.
  change (sections start) with (sections v1).
  destruct (lookup_lt_is_Some_2 (sections v1) i
              ltac:(fold (count v1); lia)) as (s & Hs).
  rewrite Hs. cbn [Nat.leb fmap option_fmap option_map].
  assert (Hpx : column_pixels v4 share = column_pixels v1 share).
  { unfold column_pixels. change (width v4) with (width v3).
    now rewrite Hw3. }
  rewrite Hpx. unfold stretched_section.
  destruct (Z.eqb_spec (column_pixels v1 share) 0) as [E|E]; cbn.
  - split; [reflexivity|lia].
  - split; [reflexivity|]. intros Hpos.
    now rewrite (proj2 (Z.ltb_ge _ _)) by lia.
Qed.


End StretchHeaderViewState.

Section StretchHeaderViewExact.

Import QDataStream StretchHeaderView.

Local Abbreviation View := (@View Q).

Lemma fold_d_add_exact (ws : list Q) :
  forall a : Q,
    (fold_left d_add ws a == a + fold_right Qplus 0 ws)%Q.
Proof.
  induction ws as [|w ws IH]; intros a; cbn [fold_left fold_right].
  - ring.
  - rewrite IH. cbn [d_add DoubleOps_Q]. rewrite Qred_correct. ring.
Qed.

Lemma selected_sum_loop_exact (secs : list Z) (ws : list Q)
  (idxs : list nat) :
  (forall i, i ∈ idxs -> (i < length ws)%nat) ->
  forall acc : Q,
    exists s,
      selected_sum_loop secs ws idxs acc = Some s
      /\ (s == acc + fold_right Qplus 0
                      (map (fun i => if contains secs i
                                     then default 0%Q (ws !! i) else 0%Q)
                           idxs))%Q.
Proof.
  induction idxs as [|i idxs IH]; intros Hin acc;
    cbn [selected_sum_loop map fold_right]; unfold ColumnWidthType in *.
  - exists acc. split; [reflexivity|ring].
  - assert (Hrest : forall j, j ∈ idxs -> (j < length ws)%nat)
      by (intros j Hj; apply Hin; now right).
    destruct (contains secs i).
    + destruct (lookup_lt_is_Some_2 ws i (Hin i ltac:(left))) as (w & Hw).
      rewrite Hw. destruct (IH Hrest (d_add acc w)) as (s & Hs & Hsum).
      exists s. split; [exact Hs|]. rewrite Hsum.
      cbn [d_add DoubleOps_Q default from_option id].
      rewrite Qred_correct. ring.
    + destruct (IH Hrest acc) as (s & Hs & Hsum).
      exists s. split; [exact Hs|]. rewrite Hsum. ring.
Qed.

Lemma sum_by_index (c : nat -> bool) (ws : list Q) :
  forall k : nat,
    (fold_right Qplus 0
       (map (fun i => if c i then default 0%Q (ws !! (i - k)%nat) else 0%Q)
            (seq k (length ws)))
     == fold_right Qplus 0
          (imap (fun i w => if c (k + i)%nat then w else 0%Q) ws))%Q.
Proof.
  induction ws as [|w ws IH]; intros k; [reflexivity|].
  cbn [length seq map imap fold_right].
  rewrite Nat.sub_diag, Nat.add_0_r. cbn [lookup list_lookup default
    from_option id].
  apply Qplus_comp; [reflexivity|].
  rewrite <- (imap_ext (fun i w => if c (S k + i)%nat then w else 0%Q))
    by (intros i x _; cbn; now rewrite Nat.add_succ_r).
  rewrite <- (IH (S k)).
  assert (E : map (fun i => if c i then default 0%Q
                                      ((w :: ws) !! (i - k)%nat) else 0%Q)
                  (seq (S k) (length ws))
              = map (fun i => if c i then default 0%Q
                                        (ws !! (i - S k)%nat) else 0%Q)
                    (seq (S k) (length ws))).
  { apply map_ext_in. intros i Hi. apply in_seq in Hi.
    replace (i - k)%nat with (S (i - S k)) by lia. reflexivity. }
  now rewrite E.
Qed.

Lemma scaled_sum (c : nat -> bool) (m : Q) (ws : list Q) :
  forall k : nat,
    (fold_right Qplus 0
       (imap (fun i w => if c (k + i)%nat then d_mul w m else w) ws)
     == m * fold_right Qplus 0
              (imap (fun i w => if c (k + i)%nat then w else 0%Q) ws)
        + (fold_right Qplus 0 ws
           - fold_right Qplus 0
               (imap (fun i w => if c (k + i)%nat then w else 0%Q) ws)))%Q.
Proof.
  induction ws as [|w ws IH]; intros k; cbn [imap fold_right]; [ring|].
  rewrite Nat.add_0_r.
  rewrite (imap_ext _ (fun i w => if c (S k + i)%nat then d_mul w m else w))
    by (intros i x _; cbn; now rewrite Nat.add_succ_r).
  rewrite (imap_ext (fun i w => if c (k + S i)%nat then w else 0%Q)
             (fun i w => if c (S k + i)%nat then w else 0%Q))
    by (intros i x _; cbn; now rewrite Nat.add_succ_r).
  rewrite (IH (S k)).
  destruct (c k); cbn [d_mul DoubleOps_Q]; rewrite ?Qred_correct; ring.
Qed.

Lemma NormaliseWidths_exact :
  forall (secs : list Z) (v : View),
    stretch_enabled_ v = true ->
    length (column_widths_ v) = count v ->
    let total := fold_right Qplus 0%Q (column_widths_ v) in
    let selected :=
      fold_right Qplus 0%Q
        (imap (fun i w => if isEmpty secs || contains secs i
                          then w else 0%Q) (column_widths_ v)) in
    ~ (total == 0)%Q -> ~ (selected == 0)%Q ->
    exists v',
      NormaliseWidths secs v = Some v'
      /\ same_frame v (with_column_widths (column_widths_ v) v')
      /\ sections v' = sections v
      /\ length (column_widths_ v') = length (column_widths_ v)
      /\ ((fold_right Qplus 0 (column_widths_ v') == 1)%Q
          \/ (v' = v /\ qFuzzyCompare (fold_left d_add (column_widths_ v)
                                        (d_of_int 0)) (d_of_int 1) = true))
      /\ forall i, isEmpty secs || contains secs i = false ->
           column_widths_ v' !! i = column_widths_ v !! i.
Proof.
  intros secs v Hst Hlen total selected Htotal Hsel.
  set (ws := column_widths_ v) in *.
  set (c := fun i => isEmpty secs || contains secs i).
  unfold ColumnWidthType in *.
  assert (Htot : (fold_left d_add ws (d_of_int 0) == total)%Q).
  { rewrite fold_d_add_exact. cbn [d_of_int DoubleOps_Q].
    unfold total. ring. }
  assert (Hloop : exists s,
            (if isEmpty secs then Some (fold_left d_add ws (d_of_int 0))
             else selected_sum_loop secs ws (seq 0 (count v)) (d_of_int 0))
            = Some s /\ (s == selected)%Q).
  { destruct (isEmpty secs) eqn:Hempty.
    - eexists. split; [reflexivity|]. rewrite Htot. unfold total, selected.
      rewrite (imap_ext _ (fun _ w => w)) by (intros; now rewrite ?Hempty).
      assert (E : forall l : list Q, imap (fun _ w => w) l = l).
      { intros l. apply list_eq. intros i. rewrite list_lookup_imap.
        now destruct (l !! i). }
      now rewrite (E ws).
    - destruct (selected_sum_loop_exact secs ws (seq 0 (count v))
                  ltac:(intros i Hi; apply elem_of_seq in Hi; lia)
                  (d_of_int 0)) as (s & Hs & Hsum).
      exists s. split; [exact Hs|]. rewrite Hsum.
      cbn [d_of_int DoubleOps_Q]. rewrite Qplus_0_l.
      rewrite <- Hlen.
      pose proof (sum_by_index (contains secs) ws 0) as Hidx.
      assert (E1 : map (fun i => if contains secs i
                                 then default 0%Q (ws !! i) else 0%Q)
                       (seq 0 (length ws))
                   = map (fun i => if contains secs i
                                   then default 0%Q (ws !! (i - 0)%nat)
                                   else 0%Q)
                         (seq 0 (length ws)))
        by (apply map_ext; intros i; now rewrite Nat.sub_0_r).
      rewrite E1, Hidx. unfold selected.
      assert (E2 : imap (fun i (w : Q) => if contains secs (0 + i)
                                          then w else 0%Q) ws
                   = imap (fun i (w : Q) => if false || contains secs i
                                            then w else 0%Q) ws)
        by (apply imap_ext; intros; reflexivity).
      rewrite E2. reflexivity. }
  destruct Hloop as (s & Hs & Hssel).
  unfold NormaliseWidths. rewrite Hst. cbn [negb]. fold ws.
  unfold ColumnWidthType.
  match goal with
  | |- exists _, match ?X with Some _ => _ | None => _ end = _ /\ _ =>
      assert (HX : X = Some s) by exact Hs; rewrite HX; clear HX
  end.
  assert (Hne0 : d_eqb (fold_left d_add ws (d_of_int 0)) (d_of_int 0) = false).
  { cbn [d_eqb d_of_int DoubleOps_Q]. apply not_true_is_false.
    intros H. apply Qeq_bool_iff in H. apply Htotal. now rewrite <- Htot. }
  rewrite Hne0. cbn [negb andb].
  destruct (qFuzzyCompare (fold_left d_add ws (d_of_int 0)) (d_of_int 1))
    eqn:Hfuzzy; cbn [negb].
  - exists v. split_all; try reflexivity.
    + destruct v; apply same_frame_refl.
    + right. split; reflexivity.
  - eexists. split; [reflexivity|].
    cbn [column_widths_ sections with_column_widths].
    split_all.
    + unfold same_frame, count. cbn. auto 10.
    + reflexivity.
    + apply length_imap.
    + left. set (m := d_div _ s).
      pose proof (scaled_sum c m ws 0) as Hscaled.
      cbn [Nat.add] in Hscaled.
      change (fun i w => if c i then d_mul w m else w)
        with (fun i w => if isEmpty secs || contains secs i
                         then d_mul w m else w) in Hscaled.
      rewrite Hscaled.
      change (fold_right Qplus 0%Q
                (imap (fun i (w : Q) => if c i then w else 0%Q) ws))
        with selected.
      fold total.
      assert (Hm : (m == (selected + (1 - total)) / selected)%Q).
      { subst m. cbn [d_div d_add d_sub d_of_int DoubleOps_Q].
        rewrite !Qred_correct, Htot, Hssel. reflexivity. }
      rewrite Hm. field. exact Hsel.
    + intros i Hi. rewrite list_lookup_imap.
      destruct (ws !! i) as [w|]; [|reflexivity]. cbn. now rewrite Hi.
Qed.


Lemma d_mul_zero (m : Q) : d_mul (d_of_int 0) m = d_of_int 0.
Proof.
  cbn [d_mul d_of_int DoubleOps_Q]. unfold Qmult, inject_Z.
  cbn [Qnum Qden]. rewrite Z.mul_0_l. reflexivity.
Qed.


End StretchHeaderViewExact.

(* ===================================================================== *)
(** * Further properties of src/playlist/playlistbackend.cpp *)
(* ===================================================================== *)

Section PlaylistBackendTables.

Import PlaylistBackend.

Context {PlaylistItem Song BoundValues SongRow : Type}.
Context `{IO : ItemOps PlaylistItem Song BoundValues SongRow}.

Variable Playlist_default : Playlist.
Variables GetPlaylists_OpenInUi GetPlaylists_Favorite : Z.
Variable order_by_ui_order :
  list (Z * PlaylistRow) -> list (Z * PlaylistRow).
Variable playlists_column_defaults : PlaylistRow.

Local Abbreviation Database := (@Database BoundValues SongRow).
Local Abbreviation ScopedTransaction := (@ScopedTransaction BoundValues SongRow).
Local Abbreviation ItemRow := (ItemRow BoundValues).
Local Abbreviation CueCache := (gmap string (list Song)).
Local Abbreviation GetPlaylist := (@GetPlaylist BoundValues SongRow Playlist_default).
Local Abbreviation GetAllOpenPlaylists :=
  (@GetAllOpenPlaylists BoundValues SongRow GetPlaylists_OpenInUi
     GetPlaylists_Favorite order_by_ui_order).
Local Abbreviation CreatePlaylist :=
  (@CreatePlaylist BoundValues SongRow playlists_column_defaults).
Local Abbreviation by_ui_order :=
  (fun a b : Z * PlaylistRow => ui_order (snd a) <= ui_order (snd b)).

(** *** SetPlaylistOrder *)

Local Abbreviation order_all :=
  (fix go (i : nat) (ids : list Z) (d : Database) : Database :=
     match ids with
     | [] => d
     | id :: rest =>
         go (S i) rest (update_playlist_row (set_ui_order (Z.of_nat i)) id d)
     end).

Lemma order_playlists_Some (exec_ok : nat -> bool) (ids : list Z) :
  forall (i : nat) (tx : ScopedTransaction),
    (forall j, (i < j <= i + length ids)%nat -> exec_ok j = true) ->
    order_playlists exec_ok i ids tx
    = Some (mkTx (tx_stored tx) (order_all i ids (tx_work tx))).
Proof.
  induction ids as [|id rest IH]; intros i tx Hok; cbn.
  - now destruct tx.
  - rewrite (Hok (S i)) by (cbn; lia). cbn.
    rewrite IH; [reflexivity|]. intros j Hj. apply Hok. cbn. lia.
Qed.

Lemma order_playlists_stored (exec_ok : nat -> bool) (ids : list Z) :
  forall (i : nat) (tx tx' : ScopedTransaction),
    order_playlists exec_ok i ids tx = Some tx' ->
    tx_stored tx' = tx_stored tx
    /\ forall j, (i < j <= i + length ids)%nat -> exec_ok j = true.
Proof.
  induction ids as [|id rest IH]; intros i tx tx'; cbn.
  - intros [= <-]. split; [reflexivity|]. intros j Hj. lia.
  - destruct (exec_ok (S i)) eqn:Hk; cbn; [|discriminate].
    intros H. destruct (IH _ _ _ H) as (Hs & Hok). split; [exact Hs|].
    intros j Hj. destruct (decide (j = S i)) as [->|Hne]; [exact Hk|].
    apply Hok. lia.
Qed.

Lemma order_all_frame (ids : list Z) :
  forall (i : nat) (d : Database),
    playlist_items (order_all i ids d) = playlist_items d
    /\ songs (order_all i ids d) = songs d.
Proof.
  induction ids as [|id rest IH]; intros i d; cbn; [auto|].
  destruct (IH (S i) (update_playlist_row (set_ui_order (Z.of_nat i)) id d))
    as (H1 & H2).
  now rewrite H1, H2.
Qed.

Lemma order_all_lookup (ids : list Z) :
  NoDup ids ->
  forall (i : nat) (d : Database) (id : Z),
    (forall j, ids !! j = Some id ->
       playlists (order_all i ids d) !! id
       = set_ui_order (Z.of_nat (i + j)) <$> playlists d !! id)
    /\ (id ∉ ids -> playlists (order_all i ids d) !! id = playlists d !! id).
Proof.
  induction 1 as [|id0 rest Hnotin Hnodup IH]; intros i d id.
  - split; [intros j Hj; discriminate|reflexivity].
  - cbn -[update_playlist_row].
    set (d1 := update_playlist_row (set_ui_order (Z.of_nat i)) id0 d).
    destruct (IH (S i) d1 id) as (Hin & Hout).
    split.
    + intros [|j] Hj; cbn in Hj.
      * injection Hj as ->. rewrite Hout by exact Hnotin.
        subst d1. cbn. rewrite Nat.add_0_r. apply lookup_alter_eq.
      * rewrite (Hin j Hj). subst d1. cbn.
        assert (Hne : id0 <> id).
        { intros ->. apply Hnotin. eapply list_elem_of_lookup_2. exact Hj. }
        rewrite lookup_alter_ne by exact Hne.
        now replace (i + S j)%nat with (S (i + j)) by lia.
    + intros Hnot. apply not_elem_of_cons in Hnot as (Hne & Hnot).
      rewrite Hout by exact Hnot. subst d1. cbn.
      now rewrite lookup_alter_ne by congruence.
Qed.

(** X23. [SetPlaylistOrder] is all or nothing: when any of its statements
    fails (the UPDATE of all rows or one of the UPDATEs per id), the
    transaction is rolled back and the database is what it was; no
    playlist loses its place. *)
Theorem SetPlaylistOrder_atomic :
  forall (exec_ok : nat -> bool) (ids : list Z) (db : Database),
    (exists k, (k <= length ids)%nat /\ exec_ok k = false) ->
    SetPlaylistOrder exec_ok ids db = db.
Proof.
  intros exec_ok ids db (k & Hk & Hf).
  unfold SetPlaylistOrder, Exec, transaction, rollback, Commit.
  destruct (exec_ok O) eqn:H0; [|reflexivity].
  destruct (order_playlists exec_ok 0 ids _) as [tx2|] eqn:Hloop;
    [|reflexivity].
  destruct (order_playlists_stored _ _ _ _ _ Hloop) as (_ & Hok).
  exfalso. assert (exec_ok k = true); [|congruence].
  destruct (decide (k = O)) as [->|?]; [exact H0|]. apply Hok. lia.
Qed.

Lemma set_ui_order_twice (i j : Z) (r : PlaylistRow) :
  set_ui_order i (set_ui_order j r) = set_ui_order i r.
Proof. reflexivity. Qed.

Lemma playlist_of_row_ui_order (id i : Z) (r : PlaylistRow) :
  playlist_of_row id (set_ui_order i r) = playlist_of_row id r.
Proof. reflexivity. Qed.

Lemma imap_StronglySorted {A B : Type} (R : B -> B -> Prop) (l : list A) :
  forall f : nat -> A -> B,
    (forall i j x y, (i < j)%nat -> l !! i = Some x -> l !! j = Some y ->
       R (f i x) (f j y)) ->
    StronglySorted R (imap f l).
Proof.
  induction l as [|a l IH]; intros f Hf; cbn; constructor.
  - apply IH. intros i j x y Hij Hi Hj. apply (Hf (S i) (S j)); [lia|exact Hi|exact Hj].
  - apply Forall_forall. intros b Hb.
    apply elem_of_lookup_imap in Hb as (j & y & -> & Hj).
    apply (Hf 0%nat (S j)); [lia|reflexivity|exact Hj].
Qed.

(** X24. The order given to [SetPlaylistOrder] is the order
    [GetAllOpenPlaylists] reads back.  For distinct ids of existing
    playlists, when every statement succeeds, [GetAllOpenPlaylists] returns
    exactly these playlists, in the order of [ids], each with the data
    [GetPlaylist] returned for it before; every other playlist is closed
    (its [ui_order] is -1) and left out. *)
Theorem SetPlaylistOrder_GetAllOpenPlaylists :
  forall (exec_ok : nat -> bool) (ids : list Z) (db : Database),
    (forall l, order_by_ui_order l ≡ₚ l
               /\ Sorted by_ui_order (order_by_ui_order l)) ->
    GetPlaylists_OpenInUi <> 0 ->
    Z.land GetPlaylists_OpenInUi GetPlaylists_Favorite = 0 ->
    NoDup ids ->
    (forall id, id ∈ ids -> is_Some (playlists db !! id)) ->
    (forall k, (k <= length ids)%nat -> exec_ok k = true) ->
    GetAllOpenPlaylists true (SetPlaylistOrder exec_ok ids db)
    = map (fun id => GetPlaylist true id db) ids.
Proof.
  intros exec_ok ids db Horder Hopen Hfav Hnodup Hexist Hok.
  assert (Hdb : SetPlaylistOrder exec_ok ids db
                = order_all 0%nat ids (reset_ui_order db)).
  { unfold SetPlaylistOrder, Exec, transaction, Commit.
    rewrite (Hok O) by lia.
    rewrite order_playlists_Some by (intros j Hj; apply Hok; cbn in *; lia).
    reflexivity. }
  rewrite Hdb. set (db' := order_all 0%nat ids (reset_ui_order db)).
  (* the rows after the call *)
  assert (Hin : forall j id, ids !! j = Some id ->
            exists r, playlists db !! id = Some r
                      /\ playlists db' !! id
                         = Some (set_ui_order (Z.of_nat j) r)).
  { intros j id Hj.
    destruct (Hexist id (list_elem_of_lookup_2 _ _ _ Hj)) as (r & Hr).
    exists r. split; [exact Hr|]. subst db'.
    rewrite (proj1 (order_all_lookup ids Hnodup 0%nat (reset_ui_order db) id) j Hj).
    cbn. rewrite lookup_fmap, Hr. reflexivity. }
  assert (Hout : forall id r, id ∉ ids -> playlists db' !! id = Some r ->
                   ui_order r = -1).
  { intros id r Hnot. subst db'.
    rewrite (proj2 (order_all_lookup ids Hnodup 0%nat (reset_ui_order db) id) Hnot).
    cbn. rewrite lookup_fmap. destruct (playlists db !! id); [|discriminate].
    now intros [= <-]. }
  (* the condition of the query *)
  assert (Hcond : forall r, playlists_condition GetPlaylists_OpenInUi
                              GetPlaylists_Favorite GetPlaylists_OpenInUi r
                            = negb (ui_order r =? -1)).
  { intros r. unfold playlists_condition.
    rewrite Z.land_diag, Hfav.
    rewrite (proj2 (Z.eqb_neq _ _) Hopen). cbn.
    now rewrite orb_false_r. }
  set (target := imap (fun j id =>
                         (id, set_ui_order (Z.of_nat j)
                                (default
                                   (mkPlaylistRow EmptyString 0 EmptyString
                                      EmptyString 0 0 0 [] EmptyString)
                                   (playlists db !! id)))) ids).
  unfold PlaylistBackend.GetAllOpenPlaylists, GetPlaylists. cbn [negb].
  set (found := filter _ (map_to_list (playlists db'))).
  assert (Htarget_in : forall x, x ∈ target <->
            exists j id r, ids !! j = Some id /\ playlists db !! id = Some r
                           /\ x = (id, set_ui_order (Z.of_nat j) r)).
  { intros x. subst target. rewrite elem_of_lookup_imap. split.
    - intros (j & id & -> & Hj).
      destruct (Hin j id Hj) as (r & Hr & _). exists j, id, r.
      rewrite Hr. auto.
    - intros (j & id & r & Hj & Hr & ->). exists j, id. rewrite Hr. auto. }
  assert (Hfound_in : forall x, x ∈ found <-> x ∈ target).
  { intros [id row]. subst found. rewrite list_elem_of_filter.
    rewrite elem_of_map_to_list, Htarget_in. cbn [snd]. rewrite Hcond.
    split.
    - intros (Hc & Hrow).
      destruct (decide (id ∈ ids)) as [Hid|Hid].
      + apply list_elem_of_lookup_1 in Hid as (j & Hj).
        destruct (Hin j id Hj) as (r & Hr & Hrow').
        exists j, id, r. rewrite Hrow' in Hrow. injection Hrow as <-. auto.
      + rewrite (Hout id row Hid Hrow) in Hc. discriminate.
    - intros (j & id' & r & Hj & Hr & [= -> ->]).
      destruct (Hin j id' Hj) as (r' & Hr' & Hrow').
      rewrite Hr in Hr'. injection Hr' as <-. split; [|exact Hrow'].
      cbn. destruct (Z.eqb_spec (Z.of_nat j) (-1)); [lia|reflexivity]. }
  assert (Hnd_target : NoDup target).
  { apply (NoDup_fmap_1 fst). subst target. rewrite fmap_imap.
    assert (E : forall l : list Z, imap (fun _ id => id) l = l).
    { intros l. apply list_eq. intros i. rewrite list_lookup_imap.
      now destruct (l !! i). }
    rewrite (imap_ext _ (fun _ id => id)) by reflexivity.
    now rewrite E. }
  assert (Hperm : order_by_ui_order found ≡ₚ target).
  { rewrite (proj1 (Horder found)).
    apply NoDup_Permutation;
      [apply NoDup_filter, NoDup_map_to_list|exact Hnd_target|exact Hfound_in]. }
  assert (Hsorted : Sorted by_ui_order target).
  { apply StronglySorted_Sorted. subst target. apply imap_StronglySorted.
    intros i j x y Hij _ _. cbn. lia. }
  assert (Htrans : Transitive by_ui_order).
  { intros a b c Hab Hbc. cbn in *. lia. }
  assert (Heq : order_by_ui_order found = target).
  { apply (Sorted_unique_strong by_ui_order);
      [|exact (proj2 (Horder found))|exact Hsorted|exact Hperm].
    intros x1 x2 H1 H2 H12 H21.
    rewrite Hperm in H1.
    apply Htarget_in in H1 as (j1 & id1 & r1 & Hj1 & Hr1 & ->).
    apply Htarget_in in H2 as (j2 & id2 & r2 & Hj2 & Hr2 & ->).
    cbn in H12, H21. assert (j1 = j2) as -> by lia.
    rewrite Hj1 in Hj2. injection Hj2 as ->.
    rewrite Hr1 in Hr2. now injection Hr2 as ->. }
  rewrite Heq. subst target.
  apply list_eq. intros j.
  rewrite !list_lookup_fmap, list_lookup_imap.
  destruct (ids !! j) as [id|] eqn:Hj; [|reflexivity]. cbn.
  destruct (Hin j id Hj) as (r & Hr & _).
  unfold PlaylistBackend.GetPlaylist. cbn [negb]. rewrite Hr. reflexivity.
Qed.

(** *** CreatePlaylist *)

Lemma fold_max_upper (l : list Z) (x : Z) :
  x ∈ l -> x <= fold_right Z.max 0 l.
Proof.
  induction l as [|y l IH]; [intros H; inversion H|].
  intros H. apply elem_of_cons in H as [->|H]; cbn; [lia|].
  specialize (IH H). lia.
Qed.

Lemma next_playlist_id_fresh (m : gmap Z PlaylistRow) :
  m !! next_playlist_id m = None.
Proof.
  destruct (m !! next_playlist_id m) as [r|] eqn:H; [|reflexivity].
  exfalso. apply elem_of_map_to_list in H.
  assert (Hin : next_playlist_id m ∈ map fst (map_to_list m)).
  { apply list_elem_of_fmap. now exists (next_playlist_id m, r). }
  apply fold_max_upper in Hin. unfold next_playlist_id in Hin at 1. lia.
Qed.

(** X25. [CreatePlaylist] never reuses the id of a playlist that exists:
    when the INSERT succeeds the new row is stored under a fresh ROWID,
    [GetPlaylist] on it reads the name and the special type that were
    given, every playlist that existed reads as before and no playlist
    item is touched; the id returned is this ROWID whenever it fits an
    [int].  When the INSERT fails the result is -1 and nothing changes. *)
Theorem CreatePlaylist_GetPlaylist :
  forall (n st : QString) (db : Database),
    let id := next_playlist_id (playlists db) in
    let db' := snd (CreatePlaylist true n st db) in
    playlists db !! id = None
    /\ 0 < id
    /\ (id < 2 ^ 31 -> fst (CreatePlaylist true n st db) = id)
    /\ pl_name (GetPlaylist true id db') = n
    /\ pl_special_type (GetPlaylist true id db') = st
    /\ (forall id', is_Some (playlists db !! id') ->
          GetPlaylist true id' db' = GetPlaylist true id' db)
    /\ playlist_items db' = playlist_items db
    /\ CreatePlaylist false n st db = (-1, db).
Proof.
  intros n st db id db'.
  assert (Hpos : 0 < id).
  { subst id. unfold next_playlist_id.
    assert (0 <= fold_right Z.max 0 (map fst (map_to_list (playlists db)))).
    { generalize (map fst (map_to_list (playlists db))).
      intros l. induction l; cbn; lia. }
    lia. }
  assert (Hfresh : playlists db !! id = None)
    by apply next_playlist_id_fresh.
  repeat split.
  - exact Hfresh.
  - exact Hpos.
  - intros Hint. cbn. apply wrap_int_small. lia.
  - subst db'. unfold PlaylistBackend.GetPlaylist. cbn.
    fold id. now rewrite lookup_insert_eq.
  - subst db'. unfold PlaylistBackend.GetPlaylist. cbn.
    fold id. now rewrite lookup_insert_eq.
  - intros id' (r & Hr). subst db'. unfold PlaylistBackend.GetPlaylist. cbn.
    fold id. rewrite lookup_insert_ne; [reflexivity|].
    intros <-. rewrite Hfresh in Hr. discriminate.
Qed.

(** *** SavePlaylist and the other playlists *)

Local Abbreviation insert_all :=
  (fun playlist => fold_left (fun (d : Database) (item : PlaylistItem) =>
                     insert_playlist_item playlist (BindToQuery item) d)).

Lemma SavePlaylist_cases (exec_ok : nat -> bool) (playlist : Z)
  (items : list PlaylistItem) (last : Z) (dynamic : option Generator)
  (db : Database) :
  SavePlaylist exec_ok playlist items last dynamic db = db
  \/ SavePlaylist exec_ok playlist items last dynamic db
     = update_playlist playlist last dynamic
         (insert_all playlist items (delete_playlist_items playlist db)).
Proof.
  unfold SavePlaylist, Exec, transaction, rollback, Commit.
  destruct (exec_ok O) eqn:H0; [|now left].
  destruct (insert_items exec_ok 1 playlist items _) as [tx2|] eqn:Hins;
    [|now left].
  destruct (insert_items_stored _ _ _ _ _ _ Hins) as (Hst & Hok).
  destruct (exec_ok (S (length items))) eqn:Hlast; [|left; exact Hst].
  right. rewrite insert_items_Some in Hins by exact Hok.
  injection Hins as <-. reflexivity.
Qed.

Lemma filter_other_kept (playlist other : Z) (rows : list ItemRow) :
  other <> playlist ->
  filter (fun r => item_playlist r = other)
         (filter (fun r => item_playlist r <> playlist) rows)
  = filter (fun r => item_playlist r = other) rows.
Proof.
  intros Hne. induction rows as [|r rows IH]; [reflexivity|].
  rewrite (filter_cons (fun r => item_playlist r <> playlist)).
  rewrite (filter_cons (fun r => item_playlist r = other) r rows).
  destruct (decide (item_playlist r <> playlist)) as [H|H].
  - rewrite filter_cons. destruct (decide (item_playlist r = other));
      now rewrite IH.
  - destruct (decide (item_playlist r = other)) as [He|He]; [|exact IH].
    exfalso. apply H. congruence.
Qed.

Lemma filter_other_inserted (playlist other : Z) (rowids : list Z)
  (items : list PlaylistItem) :
  other <> playlist ->
  filter (fun r : ItemRow => item_playlist r = other)
         (zip_with (fun rid item => mkItemRow rid playlist (BindToQuery item))
                   rowids items)
  = [].
Proof.
  intros Hne. revert items.
  induction rowids as [|rid rowids IH]; intros [|item items];
    cbn [zip_with]; try reflexivity.
  rewrite filter_cons. cbn [item_playlist].
  rewrite decide_False by congruence. apply IH.
Qed.

(** X26. [SavePlaylist] touches one playlist only.  Whatever statements
    succeed or fail, every other playlist keeps its rows of
    [playlist_items], so [GetPlaylistItems] and [GetPlaylist] read for it
    what they read before; and the saved playlist keeps its name, special
    type, UI path and favorite flag. *)
Theorem SavePlaylist_other_playlists :
  forall (exec_ok : nat -> bool) (playlist other : Z)
    (items : list PlaylistItem) (last : Z) (dynamic : option Generator)
    (db : Database) (ok : bool),
    other <> playlist ->
    let db' := SavePlaylist exec_ok playlist items last dynamic db in
    select_playlist_items other db' = select_playlist_items other db
    /\ GetPlaylistItems ok other db' = GetPlaylistItems ok other db
    /\ GetPlaylist ok other db' = GetPlaylist ok other db
    /\ pl_name (GetPlaylist ok playlist db')
       = pl_name (GetPlaylist ok playlist db)
    /\ pl_special_type (GetPlaylist ok playlist db')
       = pl_special_type (GetPlaylist ok playlist db)
    /\ pl_ui_path (GetPlaylist ok playlist db')
       = pl_ui_path (GetPlaylist ok playlist db)
    /\ pl_favorite (GetPlaylist ok playlist db')
       = pl_favorite (GetPlaylist ok playlist db).
Proof.
  intros exec_ok playlist other items last dynamic db ok Hne db'.
  destruct (SavePlaylist_cases exec_ok playlist items last dynamic db)
    as [Hdb|Hdb]; subst db'; rewrite Hdb; [repeat split|].
  destruct (insert_all_rows playlist items (delete_playlist_items playlist db))
    as (rowids & Hlen & Hrows & Hpl & Hso).
  assert (Hsel : select_playlist_items other
                   (update_playlist playlist last dynamic
                      (insert_all playlist items
                         (delete_playlist_items playlist db)))
                 = select_playlist_items other db).
  { unfold select_playlist_items, update_playlist.
    cbn [playlist_items songs]. rewrite Hrows, Hso.
    cbn [playlist_items songs delete_playlist_items].
    rewrite filter_app, filter_other_kept, filter_other_inserted by exact Hne.
    now rewrite app_nil_r. }
  split; [exact Hsel|]. split.
  { unfold GetPlaylistItems. now rewrite Hsel. }
  unfold PlaylistBackend.GetPlaylist, update_playlist. cbn [playlists].
  rewrite Hpl. cbn [playlists delete_playlist_items].
  rewrite lookup_alter_ne by congruence. rewrite lookup_alter_eq.
  split; [reflexivity|].
  destruct ok; cbn [negb]; [|repeat split].
  destruct (playlists db !! playlist); cbn; repeat split.
Qed.

(** *** GetPlaylistSongs *)

Lemma songs_from_rows_items (rows : list (SqlRow BoundValues SongRow)) :
  forall cache : CueCache,
    songs_from_rows rows cache
    = mapM (fmap Metadata) (items_from_rows rows cache).
Proof.
  induction rows as [|row rows IH]; intros cache; [reflexivity|].
  cbn [songs_from_rows items_from_rows]. unfold NewSongFromQuery.
  destruct (NewPlaylistItemFromQuery row cache) as [item cache1].
  destruct item as [item|]; cbn; [|reflexivity].
  rewrite IH. now destruct (mapM _ _).
Qed.

(** X27. [GetPlaylistSongs] returns the metadata of exactly the items
    [GetPlaylistItems] returns, in the same order, restored from the same
    CUE sheets.  The one difference is a row whose type has no item class:
    [GetPlaylistItems] returns a null pointer for it, [GetPlaylistSongs]
    dereferences that pointer. *)
Theorem GetPlaylistSongs_GetPlaylistItems :
  forall (select_ok : bool) (playlist : Z) (db : Database),
    GetPlaylistSongs select_ok playlist db
    = mapM (fmap Metadata) (GetPlaylistItems select_ok playlist db).
Proof.
  intros select_ok playlist db. unfold GetPlaylistSongs, GetPlaylistItems.
  destruct select_ok; cbn [negb]; [|reflexivity].
  apply songs_from_rows_items.
Qed.

End PlaylistBackendTables.

(* ===================================================================== *)
(** * Further properties of qobuz/qobuzstreamurlrequest.cpp *)
(* ===================================================================== *)

Section QobuzStreamURLRequestLifecycle.

Import QobuzStreamURLRequest.

Context {double : Type} `{DO : DoubleOps double}.

Variable tr : string -> QString.
Variable md5_signature : QString -> QString.

Local Abbreviation Surroundings := (@Surroundings double).
Local Abbreviation World := (@World double).
Local Abbreviation GetStreamURL := (@GetStreamURL double md5_signature).
Local Abbreviation Process := (@Process double tr md5_signature).
Local Abbreviation LoginComplete := (@LoginComplete double tr md5_signature).
Local Abbreviation Cancel := (@Cancel double tr).
Local Abbreviation step := (@step double DO tr md5_signature).
Local Abbreviation run := (@run double DO tr md5_signature).
Local Abbreviation waits_for_login :=
  (@waits_for_login double DO tr md5_signature).
Local Abbreviation login_waits := (@login_waits double DO tr md5_signature).

Lemma emit_failure_shape (filetype : FileType) (r r' : Request)
  (sigs : list Signal) :
  emit_failure filetype r = Some (r', sigs) ->
  r' = r /\ exists s, sigs = [s].
Proof.
  unfold emit_failure. destruct (errors_ r); [discriminate|].
  intros [= <- <-]. eauto.
Qed.

(** What [StreamURLReceived] does to the members when the request holds a
    reply: the reply is let go, the tries are not counted, and no signal is
    emitted only while the tries are at most 1. *)
Lemma StreamURLReceived_shape (env : Surroundings) (r r' : Request)
  (rp : positive) (sigs : list Signal) :
  reply_ r = Some rp ->
  StreamURLReceived env r = Some (r', sigs) ->
  reply_ r' = None /\ tries_ r' = tries_ r
  /\ ((sigs = [] /\ tries_ r <= 1) \/ exists s, sigs = [s]).
Proof.
  intros Hrp. unfold StreamURLReceived. rewrite Hrp.
  destruct (GetReplyData env rp) as [data errs].
  set (r1 := report errs (with_reply None r)).
  assert (F1 : reply_ r1 = None /\ tries_ r1 = tries_ r).
  { subst r1. destruct (report_fields errs (with_reply None r))
      as (-> & _ & _ & _ & -> & _). auto. }
  destruct F1 as (F1 & T1).
  destruct (isEmpty data).
  { destruct (negb (authenticated env) && login_sent env && (tries_ r1 <=? 1))
      eqn:Hc.
    - intros [= <- <-]. cbn. repeat split; try assumption. left.
      split; [reflexivity|].
      rewrite !andb_true_iff in Hc. destruct Hc as (_ & Hc). lia.
    - intros H. apply emit_failure_shape in H as (-> & s & ->). eauto. }
  destruct (ExtractJsonObj env data) as [json_obj errs2].
  set (r2 := report errs2 r1).
  assert (F2 : reply_ r2 = None /\ tries_ r2 = tries_ r).
  { subst r2. destruct (report_fields errs2 r1)
      as (-> & _ & _ & _ & -> & _). auto. }
  destruct F2 as (F2 & T2).
  assert (FE : forall msg, reply_ (Error msg r2) = None
                           /\ tries_ (Error msg r2) = tries_ r).
  { intros msg. destruct (Error_fields msg r2) as (-> & _ & _ & _ & -> & _).
    auto. }
  repeat match goal with
         | |- context [if ?c then _ else _] => destruct c
         end;
    intros H;
    first [ apply emit_failure_shape in H as (-> & s & ->);
            first [ destruct (FE "Invalid Json reply, stream url is missing track_id."%string);
                    destruct (FE "Incorrect track ID returned."%string);
                    destruct (FE "Invalid Json reply, stream url is missing url or mime_type."%string);
                    destruct (FE "Returned stream url is invalid."%string);
                    repeat split; eauto ]
          | injection H as <- <-; repeat split; eauto ].
Qed.

Lemma reply_trace_emits (sigs : list Signal) :
  forall (live : ptr) (rest : list Effect),
    reply_trace live (map Emit sigs ++ rest) = reply_trace live rest.
Proof. induction sigs as [|s sigs IH]; intros live rest; [reflexivity|apply IH]. Qed.

Lemma GetStreamURL_shape (w : World) (r r' : Request) (effs : list Effect) :
  GetStreamURL w r = Some (r', effs) ->
  tries_ r' = tries_ r + 1
  /\ reply_ r' = Some (new_reply w)
  /\ tries_ r < 2 ^ 31 - 1
  /\ silent effs = true
  /\ forall rest,
       reply_trace (reply_ r) (effs ++ rest) = reply_trace (reply_ r') rest.
Proof.
  unfold QobuzStreamURLRequest.GetStreamURL.
  destruct (Z.ltb_spec (tries_ r) (2 ^ 31 - 1)); [|discriminate].
  cbn [negb]. intros [= <- <-]. cbn [tries_ reply_].
  split; [reflexivity|]. split; [reflexivity|]. split; [assumption|].
  unfold drop_reply. destruct (reply_ r) as [rp|].
  - destruct (isRunning w rp); split; try reflexivity; intros rest; cbn;
      rewrite ?bool_decide_eq_true_2 by reflexivity; cbn;
      rewrite ?bool_decide_eq_true_2 by reflexivity; reflexivity.
  - split; [reflexivity|]. intros rest. cbn.
    now rewrite bool_decide_eq_true_2 by reflexivity.
Qed.

(** One call or signal: what it does to the reply and to the tries. *)
Lemma step_shape (w : World) (ev : Event) (r r' : Request)
  (effs : list Effect) :
  step w ev r = Some (r', effs) ->
  (forall rest,
     reply_trace (reply_ r) (effs ++ rest) = reply_trace (reply_ r') rest)
  /\ ((tries_ r' = tries_ r /\ (reply_ r' = reply_ r \/ reply_ r' = None))
      \/ (tries_ r' = tries_ r + 1 /\ reply_ r' <> None))
  /\ (waits_for_login w ev r = true ->
      tries_ r <= 1 /\ tries_ r' = tries_ r /\ reply_ r <> None
      /\ reply_ r' = None).
Proof.
  assert (HG : forall r0 r1 e,
            GetStreamURL w r0 = Some (r1, e) ->
            (forall rest,
               reply_trace (reply_ r0) (e ++ rest) = reply_trace (reply_ r1) rest)
            /\ ((tries_ r1 = tries_ r0
                 /\ (reply_ r1 = reply_ r0 \/ reply_ r1 = None))
                \/ (tries_ r1 = tries_ r0 + 1 /\ reply_ r1 <> None))).
  { intros r0 r1 e H. apply GetStreamURL_shape in H as (Ht & Hr & _ & _ & Htr).
    split; [exact Htr|]. right. rewrite Hr. split; [exact Ht|discriminate]. }
  assert (HP : forall r0 r1 e,
            Process w r0 = Some (r1, e) ->
            (forall rest,
               reply_trace (reply_ r0) (e ++ rest) = reply_trace (reply_ r1) rest)
            /\ ((tries_ r1 = tries_ r0
                 /\ (reply_ r1 = reply_ r0 \/ reply_ r1 = None))
                \/ (tries_ r1 = tries_ r0 + 1 /\ reply_ r1 <> None))).
  { intros r0 r1 e. unfold QobuzStreamURLRequest.Process.
    destruct (_ || _).
    - intros [= <- <-]. split; [reflexivity|]. left. auto.
    - destruct (negb _); [|apply HG].
      intros [= <- <-]. split; [reflexivity|]. left. auto. }
  destruct ev as [|success error| |]; cbn [QobuzStreamURLRequest.step].
  - intros H. destruct (HP _ _ _ H) as (H1 & H2).
    split; [exact H1|]. split; [exact H2|]. discriminate.
  - unfold QobuzStreamURLRequest.LoginComplete.
    destruct (negb (need_login_ r)).
    + intros [= <- <-]. split; [reflexivity|]. split; [left; auto|discriminate].
    + destruct (negb success).
      * intros [= <- <-]. split; [reflexivity|].
        split; [left; auto|discriminate].
      * intros H. destruct (HP _ _ _ H) as (H1 & H2).
        split; [exact H1|]. split; [exact H2|]. discriminate.
  - unfold QobuzStreamURLRequest.Cancel.
    destruct (reply_ r) as [rp|] eqn:Hrp.
    + destruct (isRunning w rp); intros [= <- <-]; rewrite Hrp.
      * split; [intros rest; cbn;
                now rewrite bool_decide_eq_true_2 by reflexivity|].
        split; [left; auto|discriminate].
      * split; [reflexivity|]. split; [left; auto|discriminate].
    + intros [= <- <-]. rewrite Hrp. split; [reflexivity|].
      split; [left; auto|discriminate].
  - unfold QobuzStreamURLRequest.waits_for_login.
    cbn [QobuzStreamURLRequest.step]. unfold reply_finished.
    destruct (StreamURLReceived (surroundings w) r) as [[r1 sigs]|] eqn:Hs;
      [|discriminate].
    intros [= <- <-].
    destruct (reply_ r) as [rp|] eqn:Hrp.
    + destruct (StreamURLReceived_shape _ _ _ _ _ Hrp Hs)
        as (Hnone & Ht & Hsig).
      rewrite Hnone. split; [|split].
      * intros rest. cbn.
        rewrite !bool_decide_eq_true_2 by reflexivity.
        apply reply_trace_emits.
      * left. auto.
      * destruct Hsig as [(-> & Hle)|(s & ->)]; [|discriminate].
        intros _. repeat split; try assumption. discriminate.
    + unfold StreamURLReceived in Hs. rewrite Hrp in Hs.
      injection Hs as <- <-. rewrite Hrp.
      split; [reflexivity|]. split; [left; auto|discriminate].
Qed.

Lemma run_cons (w : World) (ev : Event) (rest : list (World * Event))
  (r r' : Request) (effs : list Effect) :
  run ((w, ev) :: rest) r = Some (r', effs) ->
  exists r1 effs1 effs2,
    step w ev r = Some (r1, effs1)
    /\ run rest r1 = Some (r', effs2)
    /\ effs = effs1 ++ effs2.
Proof.
  cbn [QobuzStreamURLRequest.run].
  destruct (step w ev r) as [[r1 effs1]|]; [|discriminate].
  destruct (run rest r1) as [[r2 effs2]|] eqn:Hrun; [|discriminate].
  intros [= <- <-]. exists r1, effs1, effs2. auto.
Qed.

Lemma run_reply_trace (evs : list (World * Event)) :
  forall (r r' : Request) (effs rest : list Effect),
    run evs r = Some (r', effs) ->
    reply_trace (reply_ r) (effs ++ rest) = reply_trace (reply_ r') rest.
Proof.
  induction evs as [|[w ev] evs IH]; intros r r' effs rest H.
  - injection H as <- <-. reflexivity.
  - apply run_cons in H as (r1 & effs1 & effs2 & Hstep & Hrun & ->).
    rewrite <- app_assoc.
    rewrite (proj1 (step_shape _ _ _ _ _ Hstep)).
    now apply IH.
Qed.

(** X28. The request holds at most one network reply and lets go of each
    one exactly once.  Over any sequence of [Process], [LoginComplete],
    [Cancel] and finished replies, a reply is requested only when none is
    held; a reply is disconnected, aborted or deleted only while it is the
    one held, never after [deleteLater]; the member [reply_] is that
    reply; and the destructor deletes the last one. *)
Theorem replies_never_leak :
  forall (evs : list (World * Event)) (w : World) (r r' : Request)
         (effs : list Effect),
    run evs r = Some (r', effs) ->
    reply_trace (reply_ r) effs = Some (reply_ r')
    /\ reply_trace (reply_ r) (effs ++ Destructor w r') = Some None.
Proof.
  intros evs w r r' effs H. split.
  - rewrite <- (app_nil_r effs). now rewrite (run_reply_trace _ _ _ _ _ H).
  - rewrite (run_reply_trace _ _ _ _ _ H).
    unfold Destructor, drop_reply. destruct (reply_ r') as [rp|]; [|reflexivity].
    destruct (isRunning w rp); cbn;
      rewrite ?bool_decide_eq_true_2 by reflexivity; cbn;
      rewrite ?bool_decide_eq_true_2 by reflexivity; reflexivity.
Qed.

(** How far a request has come: [k] replies were taken in without an
    answer. *)
Local Abbreviation progress :=
  (fun (r : Request) (k : nat) =>
     (tries_ r = 0 /\ reply_ r = None /\ k = 0%nat)
     \/ (tries_ r = 1 /\ k = 0%nat)
     \/ (tries_ r = 1 /\ reply_ r = None /\ k = 1%nat)
     \/ (2 <= tries_ r /\ (k <= 1)%nat)).

Lemma login_waits_bound (evs : list (World * Event)) :
  forall (r r' : Request) (effs : list Effect) (k : nat),
    progress r k ->
    run evs r = Some (r', effs) ->
    (k + login_waits evs r <= 1)%nat.
Proof.
  induction evs as [|[w ev] evs IH]; intros r r' effs k Hp H.
  - cbn. destruct Hp as [(_ & _ & ->)|[(_ & ->)|[(_ & _ & ->)|(_ & Hk)]]]; lia.
  - apply run_cons in H as (r1 & effs1 & effs2 & Hstep & Hrun & ->).
    cbn [QobuzStreamURLRequest.login_waits]. rewrite Hstep.
    destruct (step_shape _ _ _ _ _ Hstep) as (_ & Hmove & Hwait).
    destruct (waits_for_login w ev r) eqn:Hw.
    + destruct (Hwait eq_refl) as (Hle & Ht & Hsome & Hnone).
      assert (Hp1 : progress r1 (S k)).
      { destruct Hp as [(_ & Hr & _)|[(Ht1 & ->)|[(_ & Hr & _)|(Ht2 & _)]]];
          [contradiction| |contradiction|lia].
        right. right. left. rewrite Ht. auto. }
      specialize (IH _ _ _ _ Hp1 Hrun). lia.
    + assert (Hp1 : progress r1 k).
      { destruct Hmove as [(Ht & Hr)|(Ht & Hr)].
        - destruct Hp as [(H0 & Hn & ->)|[(H1 & ->)|[(H1 & Hn & ->)|(H2 & Hk)]]].
          + left. rewrite Ht. split; [exact H0|]. split; [|reflexivity].
            destruct Hr as [->| ->]; [exact Hn|reflexivity].
          + right. left. rewrite Ht. auto.
          + right. right. left. rewrite Ht. split; [exact H1|].
            split; [|reflexivity].
            destruct Hr as [->| ->]; [exact Hn|reflexivity].
          + right. right. right. rewrite Ht. auto.
        - destruct Hp as [(H0 & Hn & ->)|[(H1 & ->)|[(H1 & Hn & ->)|(H2 & Hk)]]].
          + right. left. split; [lia|reflexivity].
          + right. right. right. split; [lia|lia].
          + right. right. right. split; [lia|lia].
          + right. right. right. split; [lia|exact Hk]. }
      specialize (IH _ _ _ _ Hp1 Hrun). lia.
Qed.

(** X29. A request waits for a login at most once.  From the request the
    constructor makes, over any sequence of [Process], [LoginComplete],
    [Cancel] and finished replies, at most one reply is taken in without a
    [StreamURLFinished]: that needs [tries_ <= 1], and the request for the
    next reply makes it 2. *)
Theorem login_wait_at_most_once :
  forall (evs : list (World * Event)) (original_url : QUrl) (id song_id : Z)
         (r' : Request) (effs : list Effect),
    run evs (new_request original_url id song_id) = Some (r', effs) ->
    (login_waits evs (new_request original_url id song_id) <= 1)%nat.
Proof.
  intros evs original_url id song_id r' effs H.
  apply (login_waits_bound evs _ _ _ 0%nat) in H; [exact H|].
  left. cbn. auto.
Qed.

End QobuzStreamURLRequestLifecycle.

(* ===================================================================== *)
(** * The further properties at concrete inputs *)
(* ===================================================================== *)

(** X4 at a pipeline with a volume element: the URL stored by [SetNextUrl]
    is assigned once and becomes the current one. *)
Lemma gapless_handover_witness :
  snd (GstEnginePipeline.AboutToFinishCallback
         GstEnginePipeline.next_url_not_empty
         (GstEnginePipeline.SetNextUrl [Byte.x61] "next" 500 (-1)
            GstEnginePipeline.pipeline_with_volume))
  = [GstEnginePipeline.GObjectSet_uri (Some 1%positive) [Byte.x61]].
Proof.
  destruct (gapless_handover GstEnginePipeline.next_url_not_empty
              [Byte.x61] "next" 500 (-1)
              GstEnginePipeline.pipeline_with_volume)
    as (H & _); [reflexivity | reflexivity | exact H].
Defined.




(** X8 at a segment that ends at 1000 ns and a buffer from 900 ns to
    1100 ns: the pipeline moves on to the segment that ends at 2000 ns. *)
Lemma HandoffCallback_end_of_segment_witness :
  exists m',
    GstEnginePipeline.HandoffCallback GstEnginePipeline.next_url_not_empty
      GstEnginePipeline.frames_to_nanoseconds (fun bits => bits)
      "S16LE" 2 44100 (GstEnginePipeline.mkGstBuffer 900 200 [])
      GstEnginePipeline.members_cue_segment
    = Some (m', [GstEnginePipeline.Call_ConsumeBuffer 7%positive
                   GstEnginePipeline.Unconverted "S16LE";
                 GstEnginePipeline.Base
                   (GstEnginePipeline.Emit_EndOfStreamReached true)])
    /\ GstEnginePipeline.end_offset_nanosec_ (GstEnginePipeline.core m')
       = 2000.
Proof.
  destruct (HandoffCallback_end_of_segment
              GstEnginePipeline.next_url_not_empty
              GstEnginePipeline.frames_to_nanoseconds (fun bits => bits)
              "S16LE" 2 44100 (GstEnginePipeline.mkGstBuffer 900 200 [])
              GstEnginePipeline.members_cue_segment
              GstEnginePipeline.Unconverted false)
    as (H & _); [reflexivity | reflexivity | reflexivity |].
  destruct H as (m' & H1 & H2 & _); [reflexivity | reflexivity | reflexivity |].
  exists m'. split; [exact H1 | exact H2].
Defined.

(** X10 at two frames of two channels and three bytes more. *)
Lemma convert_S32LE_keeps_upper_bits_witness :
  exists d,
    GstEnginePipeline.convert_S32LE GstEnginePipeline.frames_to_nanoseconds
      GstEnginePipeline.buffer_S32LE 2 44100
    = Some (GstEnginePipeline.Converted d
              (GstEnginePipeline.frames_to_nanoseconds 8 44100))
    /\ Z.of_nat (length d) = 4.
Proof.
  destruct (convert_S32LE_keeps_upper_bits
              GstEnginePipeline.frames_to_nanoseconds
              GstEnginePipeline.buffer_S32LE 2 44100)
    as (d & H1 & H2 & _); [lia | cbn; lia |].
  exists d. split; [exact H1 | exact H2].
Defined.

(** X11 at one frame of two channels: six 16-bit samples come out. *)
Lemma convert_S24LE_pads_with_silence_witness :
  exists d,
    GstEnginePipeline.convert_S24LE GstEnginePipeline.frames_to_nanoseconds
      GstEnginePipeline.buffer_S24LE 2 44100
    = Some (GstEnginePipeline.Converted d
              (GstEnginePipeline.frames_to_nanoseconds 12 44100))
    /\ Z.of_nat (length d) = 6.
Proof.
  destruct (convert_S24LE_pads_with_silence
              GstEnginePipeline.frames_to_nanoseconds
              GstEnginePipeline.buffer_S24LE 2 44100 1)
    as (d & H1 & H2 & _); [lia | lia | reflexivity | cbn; lia |].
  exists d. split; [exact H1 | exact H2].
Defined.

(** Both conversions at these buffers. *)
Example convert_examples :
  GstEnginePipeline.convert_S32LE GstEnginePipeline.frames_to_nanoseconds
    GstEnginePipeline.buffer_S32LE 2 44100
  = Some (GstEnginePipeline.Converted [1; -1; 32767; 0] 181405)
  /\ GstEnginePipeline.convert_S24LE GstEnginePipeline.frames_to_nanoseconds
       GstEnginePipeline.buffer_S24LE 2 44100
     = Some (GstEnginePipeline.Converted [1; -1; 0; 0; 0; 0] 272108).
Proof. split; vm_compute; reflexivity. Qed.

(** X14 after [Init], at a string that asks for the lowest level
    everywhere: a fatal message of class Foo still gets a logger. *)
Lemma SetLevels_never_silences_errors_witness :
  exists header,
    Logging.CreateLogger (-1) 0 1 2 3 Logging.number_decimal "12:00:00.000"
      (Logging.SetLevels 0 3 Logging.toInt_decimal "*:0,Foo:0"
         (Logging.Init Logging.statics_at_start))
      (-1) "Foo" 12 None
    = Some header.
Proof.
  destruct (SetLevels_never_silences_errors (-1) 0 1 2 3
              Logging.toInt_decimal Logging.number_decimal "12:00:00.000"
              "*:0,Foo:0" (Logging.Init Logging.statics_at_start))
    as (_ & H).
  - split; [cbn; lia|]. intros m cn lv [= <-] Hl.
    rewrite lookup_empty in Hl. discriminate.
  - apply H. lia.
Defined.

(** X15 at "Foo:0,Foo:2": the last item decides, a debug message of class
    Foo gets no logger. *)
Lemma CreateLogger_after_SetLevels_witness :
  Logging.CreateLogger (-1) 0 1 2 3 Logging.number_decimal "12:00:00.000"
    (Logging.SetLevels 0 3 Logging.toInt_decimal "Foo:0,Foo:2"
       (Logging.Init Logging.statics_at_start))
    3 "Foo" 12 None
  = None.
Proof.
  destruct (CreateLogger_after_SetLevels (-1) 0 1 2 3
              Logging.toInt_decimal Logging.number_decimal "12:00:00.000"
              "Foo:0" "Foo:2" "Foo" 2 (Logging.Init Logging.statics_at_start))
    with (level := 3) (class_name := "Foo"%string) (line := 12)
         (category := @None QString) as [_ H].
  - discriminate.
  - reflexivity.
  - unfold Logging.conforming. cbn. split; [right; auto|].
    split; [reflexivity|lia].
  - discriminate.
  - discriminate.
  - reflexivity.
  - apply H. lia.
Defined.

(** The header of a message that is logged. *)
Example CreateLogger_header :
  Logging.CreateLogger (-1) 0 1 2 3 Logging.number_decimal "12:00:00.000"
    (Logging.Init Logging.statics_at_start) 2 "Foo" 12 (Some "net"%string)
  = Some (Logging.mkLogHeader Logging.QtDebugMsg "12:00:00.000"
            (Some " INFO  "%string)
            "Foo:12(net)                     ").
Proof. vm_compute. reflexivity. Qed.

(** X17 at two columns that were swapped, restored into a header with the
    columns in their first order. *)
Lemma SaveState_RestoreState_witness :
  fst (fst (StretchHeaderView.RestoreState
              (StretchHeaderView.SaveState
                 StretchHeaderView.two_columns_swapped)
              StretchHeaderView.two_columns_fixed)) = true
  /\ StretchHeaderView.visual_order
       (snd (fst (StretchHeaderView.RestoreState
                    (StretchHeaderView.SaveState
                       StretchHeaderView.two_columns_swapped)
                    StretchHeaderView.two_columns_fixed)))
     = [1%nat; 0%nat].
Proof.
  destruct (SaveState_RestoreState StretchHeaderView.two_columns_swapped
              StretchHeaderView.two_columns_fixed)
    as (H1 & _ & _ & _ & _ & _ & H7 & _).
  - reflexivity.
  - reflexivity.
  - apply perm_swap.
  - apply Permutation_refl.
  - reflexivity.
  - intros [|[|i]]; [vm_compute; split; [discriminate|reflexivity]
                    |vm_compute; split; [discriminate|reflexivity]|].
    unfold StretchHeaderView.sectionSize, StretchHeaderView.section_at.
    destruct (Z.ltb_spec (Z.of_nat (S (S i))) 0); [lia|].
    rewrite Nat2Z.id. destruct i; cbn; lia.
  - cbn. lia.
  - cbn. lia.
  - intros w Hw. apply elem_of_cons in Hw as [->|Hw];
      [|apply elem_of_cons in Hw as [->|Hw]; [|inversion Hw]];
      (split; [vm_compute; split; [discriminate|reflexivity]
              |vm_compute; reflexivity]).
  - split; [exact H1|exact H7].
Defined.


(** X19 at the first of two columns. *)
Lemma ShowSection_after_HideSection_witness :
  exists v1,
    StretchHeaderView.HideSection 0 StretchHeaderView.two_columns_fixed
    = Some v1
    /\ StretchHeaderView.stretch_enabled_ v1 = false
    /\ StretchHeaderView.ShowSection 0 v1
       = Some StretchHeaderView.two_columns_fixed.
Proof.
  apply (ShowSection_after_HideSection StretchHeaderView.two_columns_fixed 0);
    reflexivity.
Defined.




(** What these calls give. *)
Example StretchHeaderView_examples :
  StretchHeaderView.column_widths_
    (snd (fst (StretchHeaderView.ResetState
                 StretchHeaderView.two_columns_fixed)))
  = [Qmake 1 2; Qmake 1 2]
  /\ (StretchHeaderView.column_widths_
        <$> StretchHeaderView.NormaliseWidths []
              StretchHeaderView.three_columns_short)
     = Some [Qmake 1 3; Qmake 1 3; Qmake 1 3]
  /\ (StretchHeaderView.column_widths_
        <$> StretchHeaderView.HideSection 0
              StretchHeaderView.three_columns_stretch)
     = Some [Qmake 0 1; Qmake 1 2; Qmake 1 2].
Proof. vm_compute. repeat split. Qed.

(** X24 at the two playlists of the example, put in the order 2, 1; the
    flags are taken as bits 0 and 1. *)
Lemma SetPlaylistOrder_GetAllOpenPlaylists_witness :
  PlaylistBackend.GetAllOpenPlaylists 1 2 PlaylistBackend.sort_by_ui_order true
    (PlaylistBackend.SetPlaylistOrder PlaylistBackend.all_ok [2; 1]
       PlaylistBackend.ex_db)
  = map (fun id => PlaylistBackend.GetPlaylist
                     PlaylistBackend.playlist_of_no_row true id
                     PlaylistBackend.ex_db) [2; 1].
Proof.
  apply (SetPlaylistOrder_GetAllOpenPlaylists
           PlaylistBackend.playlist_of_no_row 1 2
           PlaylistBackend.sort_by_ui_order PlaylistBackend.all_ok [2; 1]
           PlaylistBackend.ex_db).
  - intros l. split.
    + apply merge_sort_Permutation.
    + apply Sorted_merge_sort. intros a b.
      destruct (Z.le_ge_cases (PlaylistBackend.ui_order (snd a))
                  (PlaylistBackend.ui_order (snd b))); [left|right]; lia.
  - discriminate.
  - reflexivity.
  - apply (bool_decide_unpack (NoDup [2; 1])). vm_compute. exact I.
  - intros id Hid. apply elem_of_cons in Hid as [->|Hid];
      [|apply elem_of_cons in Hid as [->|Hid]; [|inversion Hid]];
      eexists; reflexivity.
  - reflexivity.
Defined.

(** The playlists read back in the new order. *)
Example SetPlaylistOrder_example :
  map PlaylistBackend.pl_name
    (PlaylistBackend.GetAllOpenPlaylists 1 2 PlaylistBackend.sort_by_ui_order
       true
       (PlaylistBackend.SetPlaylistOrder PlaylistBackend.all_ok [2; 1]
          PlaylistBackend.ex_db))
  = ["Second"%string; "First"%string].
Proof. vm_compute. reflexivity. Qed.

(** X26 at the example: saving playlist 1 leaves the item of playlist 2. *)
Lemma SavePlaylist_other_playlists_witness :
  PlaylistBackend.GetPlaylistItems true 2
    (PlaylistBackend.SavePlaylist PlaylistBackend.all_ok 1
       [PlaylistBackend.ex_stream; PlaylistBackend.ex_cue_track] 0 None
       PlaylistBackend.ex_db)
  = PlaylistBackend.GetPlaylistItems true 2 PlaylistBackend.ex_db.
Proof.
  destruct (SavePlaylist_other_playlists PlaylistBackend.playlist_of_no_row
              PlaylistBackend.all_ok 1 2
              [PlaylistBackend.ex_stream; PlaylistBackend.ex_cue_track] 0 None
              PlaylistBackend.ex_db true)
    as (_ & H & _); [discriminate | exact H].
Defined.

(** X23 at the example: the UPDATE for the second id fails, and both
    playlists keep the order they had. *)
Lemma SetPlaylistOrder_atomic_witness :
  PlaylistBackend.SetPlaylistOrder (fun k => negb (k =? 2)%nat) [2; 1]
    PlaylistBackend.ex_db
  = PlaylistBackend.ex_db.
Proof.
  apply (SetPlaylistOrder_atomic (fun k => negb (k =? 2)%nat) [2; 1]
           PlaylistBackend.ex_db).
  exists 2%nat. split; [cbn; lia | reflexivity].
Defined.

(** X28 at the request that is repeated after the login: two replies are
    requested and both are deleted. *)
Lemma replies_never_leak_witness :
  exists r' effs,
    QobuzStreamURLRequest.run QobuzStreamURLRequest.tr_none
      QobuzStreamURLRequest.no_digest
      QobuzStreamURLRequest.retry_after_login
      (QobuzStreamURLRequest.new_request "qobuz:42" 7 42)
    = Some (r', effs)
    /\ QobuzStreamURLRequest.reply_trace None
         (effs ++ QobuzStreamURLRequest.Destructor
                    QobuzStreamURLRequest.world_logged_in r')
       = Some None.
Proof.
  eexists _, _. split; [vm_compute; reflexivity|].
  apply (replies_never_leak QobuzStreamURLRequest.tr_none
           QobuzStreamURLRequest.no_digest
           QobuzStreamURLRequest.retry_after_login
           QobuzStreamURLRequest.world_logged_in
           (QobuzStreamURLRequest.new_request "qobuz:42" 7 42)).
  vm_compute. reflexivity.
Defined.

(** X29 at the same request: it waits once. *)
Lemma login_wait_at_most_once_witness :
  (QobuzStreamURLRequest.login_waits QobuzStreamURLRequest.tr_none
     QobuzStreamURLRequest.no_digest QobuzStreamURLRequest.retry_after_login
     (QobuzStreamURLRequest.new_request "qobuz:42" 7 42) <= 1)%nat.
Proof.
  eapply (login_wait_at_most_once QobuzStreamURLRequest.tr_none
            QobuzStreamURLRequest.no_digest
            QobuzStreamURLRequest.retry_after_login "qobuz:42" 7 42).
  vm_compute. reflexivity.
Defined.

(** What the request does over these events. *)
Example retry_after_login_effects :
  (snd <$> QobuzStreamURLRequest.run QobuzStreamURLRequest.tr_none
             QobuzStreamURLRequest.no_digest
             QobuzStreamURLRequest.retry_after_login
             (QobuzStreamURLRequest.new_request "qobuz:42" 7 42))
  = Some
      [QobuzStreamURLRequest.Call_CreateRequest "track/getFileUrl"
         [("format_id", "27"); ("request_sig", "00000000000000000000000000000000");
          ("request_ts", "1700000000"); ("track_id", "42");
          ("user_auth_token", "token")]%string 2%positive;
       QobuzStreamURLRequest.Connect_finished 2%positive;
       QobuzStreamURLRequest.Reply_disconnect 2%positive;
       QobuzStreamURLRequest.Reply_deleteLater 2%positive;
       QobuzStreamURLRequest.Call_CreateRequest "track/getFileUrl"
         [("format_id", "27"); ("request_sig", "00000000000000000000000000000000");
          ("request_ts", "1700000000"); ("track_id", "42");
          ("user_auth_token", "token")]%string 2%positive;
       QobuzStreamURLRequest.Connect_finished 2%positive;
       QobuzStreamURLRequest.Reply_disconnect 2%positive;
       QobuzStreamURLRequest.Reply_deleteLater 2%positive;
       QobuzStreamURLRequest.Emit
         (QobuzStreamURLRequest.StreamURLFinished 7 "qobuz:42"
            "https://host/42.flac" (QobuzStreamURLRequest.FileType_Other 2)
            (-1) (-1) 180000000000 EmptyString)]
  /\ QobuzStreamURLRequest.login_waits QobuzStreamURLRequest.tr_none
       QobuzStreamURLRequest.no_digest QobuzStreamURLRequest.retry_after_login
       (QobuzStreamURLRequest.new_request "qobuz:42" 7 42) = 1%nat.
Proof. vm_compute. split; reflexivity. Qed.
